(** * R-tree index: build pipeline and index-scan plan rewriter

    A shallow embedding of

    - [src/spatial/index/rtree/rtree_index_create_logical.cpp]
      (the physical plan that feeds the R-tree bulk loader),
    - [src/spatial/index/rtree/rtree_index_plan_scan.cpp]
      (the optimizer extension that turns a sequential scan with a spatial
      predicate into an R-tree index scan),
    - the scalar functions of
      [src/spatial/modules/main/spatial_functions_scalar.cpp] that the build
      pipeline binds ([ST_IsEmpty], [ST_Extent_Approx], [ST_Centroid],
      [ST_XMin]), and of three more of its functions: [ST_Intersects] on
      boxes, the vertex aggregates on lines and polygons, and [ST_QuadKey].

    Plans and expressions are trees; C++ exceptions are an explicit
    [Throw] outcome; in-place mutation of the plan is explicit state passing,
    so that the state left behind by an exception can be inspected. *)

From Stdlib Require Import ZArith List String Ascii Bool Lia.
From Stdlib Require Import Floats.SpecFloat.
From Stdlib Require Import Sorting.Permutation Sorting.Sorted.
Import ListNotations.
Local Open Scope string_scope.

Set Implicit Arguments.
Set Warnings "-register-all".

(* ===================================================================== *)
(** * Exceptions *)
(* ===================================================================== *)

(** The exception classes the modelled code throws.  [InternalException] is
    also what the engine's checked containers throw ([vector::operator[]],
    [vector::front], dereferencing an unset [optional_ptr]). *)
Inductive Exception :=
| InternalException (msg : string)
| BinderException (msg : string)
| CatalogException (msg : string).

Inductive result (A : Type) :=
| Return (a : A)
| Throw (e : Exception).
Arguments Return {A} a.
Arguments Throw {A} e.

Definition bind {A B : Type} (r : result A) (k : A -> result B) : result B :=
  match r with
  | Return a => k a
  | Throw e => Throw e
  end.

Declare Scope exc_scope.
Delimit Scope exc_scope with exc.
Notation "x <- c ;; k" := (bind c (fun x => k))
  (at level 61, c at next level, right associativity) : exc_scope.
Notation "' pat <- c ;; k" := (bind c (fun x => match x with pat => k end))
  (at level 61, pat pattern, c at next level, right associativity) : exc_scope.
Local Open Scope exc_scope.

(** [v[i]] on the engine's bounds-checked [vector]. *)
Definition vector_at {A : Type} (v : list A) (i : nat) : result A :=
  match nth_error v i with
  | Some a => Return a
  | None => Throw (InternalException "Attempted to access index out of range of vector")
  end.

(** [idx_t] is an unsigned 64-bit integer. *)
Definition idx_t_modulus : Z := 2 ^ 64.
Definition idx_t_sub (a b : Z) : Z := (a - b) mod idx_t_modulus.

(* ===================================================================== *)
(** * Types, floating point, boxes and geometry blobs *)
(* ===================================================================== *)

Inductive LogicalType :=
| BOOLEAN | INTEGER | BIGINT | FLOAT | DOUBLE | VARCHAR | BLOB
| GEOMETRY | POINT_2D | LINESTRING_2D | POLYGON_2D | BOX_2D | BOX_2DF | WKB_BLOB.

(** [LogicalType::ROW_TYPE] *)
Definition ROW_TYPE : LogicalType := BIGINT.

Definition LogicalType_eqb (a b : LogicalType) : bool :=
  match a, b with
  | BOOLEAN, BOOLEAN | INTEGER, INTEGER | BIGINT, BIGINT | FLOAT, FLOAT
  | DOUBLE, DOUBLE | VARCHAR, VARCHAR | BLOB, BLOB | GEOMETRY, GEOMETRY
  | POINT_2D, POINT_2D | LINESTRING_2D, LINESTRING_2D
  | POLYGON_2D, POLYGON_2D | BOX_2D, BOX_2D | BOX_2DF, BOX_2DF
  | WKB_BLOB, WKB_BLOB => true
  | _, _ => false
  end.

(** IEEE 754 numbers: C++ [float] is binary32, [double] is binary64. *)
Definition float32 := spec_float.
Definition float64 := spec_float.

Definition float_add : float32 -> float32 -> float32 := SFadd 24 128.
Definition double_mul : float64 -> float64 -> float64 := SFmul 53 1024.

(** The implicit conversion [float -> double]; it is exact, the mantissa is
    only re-aligned to 53 bits. *)
Definition float_to_double (x : float32) : float64 :=
  match x with
  | S754_finite s m e => binary_round 53 1024 s m e
  | _ => x
  end.

(** Literals [n * 2^e] as binary32 and binary64 numbers. *)
Definition float_lit (n e : Z) : float32 := binary_normalize 24 128 n e false.
Definition double_lit (n e : Z) : float64 := binary_normalize 53 1024 n e false.

(** The literal [0.5] (a [double]). *)
Definition double_half : float64 := double_lit 1 (-1).

Module Vec.
Record t := mk { x : float32; y : float32 }.
End Vec.

(** [Box2D<float>] *)
Module Box2D.
Record t := mk { min : Vec.t; max : Vec.t }.
End Box2D.

Definition box (min_x min_y max_x max_y : float32) : Box2D.t :=
  Box2D.mk (Vec.mk min_x min_y) (Vec.mk max_x max_y).

(** A serialized geometry ([geometry_t], a blob).  The layout of the blob
    (spatial/geometry/geometry_type.hpp and the sgl library) is not part of
    the modelled sources; a blob is therefore represented by what the
    modelled code observes of it: the number of vertices that
    [sgl::ops::vertex_count] reports after deserialization, and the answer of
    [geometry_t::TryGetCachedBounds]. *)
Module geometry_t.
Record t := mk {
  vertex_count : nat;
  cached_bounds : option Box2D.t
}.
End geometry_t.

(** [blob.TryGetCachedBounds(bbox)]: [Some bbox] when it returns true. *)
Definition TryGetCachedBounds (blob : geometry_t.t) : option Box2D.t :=
  geometry_t.cached_bounds blob.

(** A constant [Value] whose payload is string-backed ([VARCHAR], [BLOB],
    [GEOMETRY], ...); [GetValueUnsafe<string_t>] hands its bytes to
    [geometry_t]. *)
Module Value.
Record t := mk {
  type : LogicalType;
  str : geometry_t.t
}.
End Value.

(* ===================================================================== *)
(** * Bound expressions *)
(* ===================================================================== *)

Inductive ExpressionType :=
| BOUND_COLUMN_REF | BOUND_REF | VALUE_CONSTANT | BOUND_FUNCTION
| OPERATOR_IS_NULL | OPERATOR_IS_NOT_NULL | OPERATOR_NOT
| CONJUNCTION_AND | CONJUNCTION_OR
| COMPARE_EQUAL | COMPARE_LESSTHAN | COMPARE_GREATERTHAN.

Inductive FunctionStability := CONSISTENT | VOLATILE.

(** The executors ([scalar_function_t]) registered by
    spatial_functions_scalar.cpp that the build pipeline can bind, and
    [external_function] for every function implemented elsewhere. *)
Inductive scalar_function_t :=
| ST_IsEmpty_ExecuteGeometry
| ST_Extent_Approx_Execute
| ST_Centroid_ExecuteBox_float
| ST_XMin_ExecutePoint
| ST_XMin_ExecuteBox
| external_function.

Module ScalarFunction.
Record t := mk {
  name : string;
  arguments : list LogicalType;
  return_type : LogicalType;
  stability : FunctionStability;
  function : scalar_function_t
}.
End ScalarFunction.

Module ColumnBinding.
Record t := mk { table_index : nat; column_index : nat }.
End ColumnBinding.

Inductive Expression :=
| BoundColumnRefExpression (return_type : LogicalType) (binding : ColumnBinding.t)
| BoundReferenceExpression (return_type : LogicalType) (index : nat)
| BoundConstantExpression (value : Value.t)
| BoundFunctionExpression (return_type : LogicalType) (function : ScalarFunction.t)
    (children : list Expression)
| BoundOperatorExpression (type : ExpressionType) (return_type : LogicalType)
    (children : list Expression)
| BoundConjunctionExpression (type : ExpressionType) (children : list Expression).

(** [expr.return_type] *)
Definition Expression_return_type (expr : Expression) : LogicalType :=
  match expr with
  | BoundColumnRefExpression t _ => t
  | BoundReferenceExpression t _ => t
  | BoundConstantExpression v => Value.type v
  | BoundFunctionExpression t _ _ => t
  | BoundOperatorExpression _ t _ => t
  | BoundConjunctionExpression _ _ => BOOLEAN
  end.

(** [Expression::IsConsistent]: no function in the tree has side effects. *)
Fixpoint IsConsistent (expr : Expression) : bool :=
  match expr with
  | BoundColumnRefExpression _ _ => true
  | BoundReferenceExpression _ _ => true
  | BoundConstantExpression _ => true
  | BoundFunctionExpression _ f children =>
      match ScalarFunction.stability f with
      | CONSISTENT => forallb IsConsistent children
      | VOLATILE => false
      end
  | BoundOperatorExpression _ _ children => forallb IsConsistent children
  | BoundConjunctionExpression _ children => forallb IsConsistent children
  end.

(* ===================================================================== *)
(** * Logical plans *)
(* ===================================================================== *)

(** Filters pushed into a scan ([TableFilter] and its subclasses); the
    constructor stands for [filter_type]. *)
Inductive TableFilter :=
| ConstantFilter (comparison_type : ExpressionType) (constant : Z)
| IsNullFilter
| IsNotNullFilter
| ExpressionFilter (expr : Expression).

(** An index of a table, as [BindAndScan] sees it. *)
Module Index.
Record t := mk {
  index_type : string;
  unbound_expressions : list Expression;
  column_ids : list nat
}.
End Index.

(** [RTreeIndex::TYPE_NAME] *)
Definition RTreeIndex_TYPE_NAME : string := "RTREE".

Module TableCatalogEntry.
Record t := mk {
  IsDuckTable : bool;
  (** [GetStorage().GetDataTableInfo()->GetIndexes()] *)
  indexes : list Index.t
}.
End TableCatalogEntry.

Module RTreeIndexScanBindData.
Record t := mk {
  table : TableCatalogEntry.t;
  index : Index.t;
  bbox : Box2D.t
}.
End RTreeIndexScanBindData.

(** [get.bind_data] *)
Inductive FunctionData :=
| TableScanBindData
| RTreeIndexScanBindData_ (bind_data : RTreeIndexScanBindData.t).

Module NodeStatistics.
Record t := mk {
  has_estimated_cardinality : bool;
  estimated_cardinality : nat
}.
End NodeStatistics.

Module TableFunction.
Record t := mk { name : string }.
End TableFunction.

(** [RTreeIndexScanFunction::GetFunction()] *)
Definition RTreeIndexScanFunction_GetFunction : TableFunction.t :=
  TableFunction.mk "rtree_index_scan".

(** The fields of [LogicalGet] the rewriter reads or writes.  The cached
    result types of operators ([types]) are not represented:
    [get.types.clear()] and [ResolveOperatorTypes()] touch nothing else. *)
Module LogicalGet.
Record t := mk {
  table_index : nat;
  function : TableFunction.t;
  bind_data : FunctionData;
  returned_types : list LogicalType;
  (** [GetColumnIds()], each entry by its [GetPrimaryIndex()] *)
  column_ids : list nat;
  projection_ids : list nat;
  (** [table_filters.filters], an ordered map, in iteration order *)
  table_filters : list (nat * TableFilter);
  (** [None]: the pointer is unset; [Some b]: [b] is [HasFilters()] *)
  dynamic_filters : option bool;
  (** [GetTable()] *)
  table : option TableCatalogEntry.t;
  has_estimated_cardinality : bool;
  estimated_cardinality : nat
}.

(** The three assignments
    [get.function = ...; get.(has_)estimated_cardinality = ...;
     get.bind_data = ...] *)
Definition replace_scan (get : t) (f : TableFunction.t)
    (c : NodeStatistics.t) (b : FunctionData) : t :=
  mk (table_index get) f b (returned_types get) (column_ids get)
     (projection_ids get) (table_filters get) (dynamic_filters get)
     (table get)
     (NodeStatistics.has_estimated_cardinality c)
     (NodeStatistics.estimated_cardinality c).

(** [get.projection_ids.clear()] *)
Definition clear_projection_ids (get : t) : t :=
  mk (table_index get) (function get) (bind_data get) (returned_types get)
     (column_ids get) [] (table_filters get) (dynamic_filters get)
     (table get) (has_estimated_cardinality get) (estimated_cardinality get).
End LogicalGet.

Module LogicalFilter.
Record t := mk {
  expressions : list Expression;
  projection_map : list nat
}.
End LogicalFilter.

Inductive LogicalOperatorType :=
| LOGICAL_PROJECTION_ | LOGICAL_AGGREGATE_ | LOGICAL_JOIN_ | LOGICAL_ORDER_BY_
| LOGICAL_LIMIT_ | LOGICAL_UNION_.

Inductive LogicalOperator :=
| LOGICAL_GET (get : LogicalGet.t) (children : list LogicalOperator)
| LOGICAL_FILTER (filter : LogicalFilter.t) (children : list LogicalOperator)
| LOGICAL_OPERATOR (type : LogicalOperatorType) (expressions : list Expression)
    (children : list LogicalOperator).

(** [op.children] *)
Definition children_of (op : LogicalOperator) : list LogicalOperator :=
  match op with
  | LOGICAL_GET _ cs => cs
  | LOGICAL_FILTER _ cs => cs
  | LOGICAL_OPERATOR _ _ cs => cs
  end.

Definition set_children (op : LogicalOperator) (cs : list LogicalOperator)
  : LogicalOperator :=
  match op with
  | LOGICAL_GET g _ => LOGICAL_GET g cs
  | LOGICAL_FILTER f _ => LOGICAL_FILTER f cs
  | LOGICAL_OPERATOR t es _ => LOGICAL_OPERATOR t es cs
  end.

(** Number of operator levels of a plan. *)
Fixpoint height (op : LogicalOperator) : nat :=
  match op with
  | LOGICAL_GET _ cs => S (list_max (map height cs))
  | LOGICAL_FILTER _ cs => S (list_max (map height cs))
  | LOGICAL_OPERATOR _ _ cs => S (list_max (map height cs))
  end.

(* ===================================================================== *)
(** * The plan rewriter ([RTreeIndexScanOptimizer]) *)
(* ===================================================================== *)

(** Index of the first element of [column_ids] equal to [column], counting
    from [i]: the loops of the form
    [for (i = 0; i < column_ids.size(); i++) if (column_ids[i] == column)]. *)
Fixpoint find_column (column_ids : list nat) (column : nat) (i : nat) : option nat :=
  match column_ids with
  | [] => None
  | c :: rest => if Nat.eqb c column then Some i else find_column rest column (S i)
  end.

(** [RewriteIndexExpression]; [rewrite_possible] is the by-reference flag,
    returned with the rewritten expression. *)
Fixpoint RewriteIndexExpression (index : Index.t) (get : LogicalGet.t)
    (expr : Expression) (rewrite_possible : bool) {struct expr}
  : result (Expression * bool) :=
  let EnumerateChildren :=
    fix EnumerateChildren (cs : list Expression) (rewrite_possible : bool)
      : result (list Expression * bool) :=
      match cs with
      | [] => Return ([], rewrite_possible)
      | child :: cs' =>
          r1 <- RewriteIndexExpression index get child rewrite_possible ;;
          r2 <- EnumerateChildren cs' (snd r1) ;;
          Return (fst r1 :: fst r2, snd r2)
      end in
  match expr with
  | BoundColumnRefExpression return_type binding =>
      (* bound_colref.binding.table_index = get.table_index *)
      referenced_column <-
        vector_at (Index.column_ids index) (ColumnBinding.column_index binding) ;;
      match find_column (LogicalGet.column_ids get) referenced_column 0 with
      | Some i =>
          Return (BoundColumnRefExpression return_type
                    (ColumnBinding.mk (LogicalGet.table_index get) i),
                  rewrite_possible)
      | None =>
          Return (BoundColumnRefExpression return_type
                    (ColumnBinding.mk (LogicalGet.table_index get)
                       (ColumnBinding.column_index binding)),
                  false)
      end
  | BoundReferenceExpression _ _ => Return (expr, rewrite_possible)
  | BoundConstantExpression _ => Return (expr, rewrite_possible)
  | BoundFunctionExpression return_type f cs =>
      r <- EnumerateChildren cs rewrite_possible ;;
      Return (BoundFunctionExpression return_type f (fst r), snd r)
  | BoundOperatorExpression t return_type cs =>
      r <- EnumerateChildren cs rewrite_possible ;;
      Return (BoundOperatorExpression t return_type (fst r), snd r)
  | BoundConjunctionExpression t cs =>
      r <- EnumerateChildren cs rewrite_possible ;;
      Return (BoundConjunctionExpression t (fst r), snd r)
  end.

(** [RewriteIndexExpressionForFilter] (its [index] and [get] parameters are
    unused by the source). *)
Fixpoint RewriteIndexExpressionForFilter (expr : Expression) (filter_idx : nat)
    (rewrite_possible : bool) {struct expr} : Expression * bool :=
  let EnumerateChildren :=
    fix EnumerateChildren (cs : list Expression) (rewrite_possible : bool)
      : list Expression * bool :=
      match cs with
      | [] => ([], rewrite_possible)
      | child :: cs' =>
          let r1 := RewriteIndexExpressionForFilter child filter_idx rewrite_possible in
          let r2 := EnumerateChildren cs' (snd r1) in
          (fst r1 :: fst r2, snd r2)
      end in
  match expr with
  | BoundColumnRefExpression return_type binding =>
      if negb (Nat.eqb (ColumnBinding.column_index binding) filter_idx)
      then (expr, false)
      else (BoundReferenceExpression return_type 0, rewrite_possible)
  | BoundReferenceExpression _ _ => (expr, rewrite_possible)
  | BoundConstantExpression _ => (expr, rewrite_possible)
  | BoundFunctionExpression return_type f cs =>
      let r := EnumerateChildren cs rewrite_possible in
      (BoundFunctionExpression return_type f (fst r), snd r)
  | BoundOperatorExpression t return_type cs =>
      let r := EnumerateChildren cs rewrite_possible in
      (BoundOperatorExpression t return_type (fst r), snd r)
  | BoundConjunctionExpression t cs =>
      let r := EnumerateChildren cs rewrite_possible in
      (BoundConjunctionExpression t (fst r), snd r)
  end.

(** [unordered_set<string>::find(name) != end()] *)
Definition set_contains (set : list string) (name : string) : bool :=
  existsb (String.eqb name) set.

(** The arguments of a function call. *)
Definition operands (expr : Expression) : list Expression :=
  match expr with
  | BoundFunctionExpression _ _ children => children
  | _ => []
  end.


(** [TryGetBoundingBox]: [Some bbox] when it returns true. *)
Definition TryGetBoundingBox (value : Value.t) : option Box2D.t :=
  let blob := Value.str value in
  match TryGetCachedBounds blob with
  | None => None
  | Some bbox => Some bbox
  end.

Definition spatial_predicates : list string :=
  ["ST_Equals"; "ST_Intersects"; "ST_Touches"; "ST_Crosses";
   "ST_Within"; "ST_Contains"; "ST_Overlaps"; "ST_Covers";
   "ST_CoveredBy"; "ST_ContainsProperly"].

(** The two child matchers the rewriter installs. *)
Inductive ExpressionMatcher :=
| ExpressionEqualityMatcher (expression : Expression)
| ConstantExpressionMatcher.

(** What [TryOptimizeGet] mutates through its reference parameters: the
    operator behind [get_ptr] and, when present, the parent [filter]. *)
Module RewriteState.
Record t := mk {
  get_ptr : LogicalOperator;
  filter : option LogicalFilter.t
}.
End RewriteState.

(** [filter->projection_map] rewritten in place, entry by entry: the loop
    [for (auto &id : filter->projection_map) id = get.projection_ids[id]].
    An out-of-range access stops the loop and leaves the entries already
    rewritten in place. *)
Fixpoint remap_projection_map (projection_ids : list nat) (projection_map : list nat)
  : result unit * list nat :=
  match projection_map with
  | [] => (Return tt, [])
  | id :: rest =>
      match vector_at projection_ids id with
      | Return id' =>
          let r := remap_projection_map projection_ids rest in
          (fst r, id' :: snd r)
      | Throw e => (Throw e, id :: rest)
      end
  end.

(** The step of [TryOptimizeGet] guarded by
    [if (!get.projection_ids.empty() && filter)]. *)
Definition remap_filter (projection_ids : list nat) (filter : option LogicalFilter.t)
  : result unit * option LogicalFilter.t :=
  match projection_ids, filter with
  | _ :: _, Some filter =>
      let r := remap_projection_map projection_ids
                 (LogicalFilter.projection_map filter) in
      (fst r, Some (LogicalFilter.mk (LogicalFilter.expressions filter) (snd r)))
  | _, filter => (Return tt, filter)
  end.

Section RTreeIndexScanOptimizer.

(** The engine's [Expression::Equals]. *)
Variable Equals : Expression -> Expression -> bool.
(** The engine's [TableFilter::ToExpression]. *)
Variable ToExpression : TableFilter -> Expression -> Expression.
(** The [cardinality] callback of the R-tree index scan function. *)
Variable cardinality : RTreeIndexScanBindData.t -> NodeStatistics.t.

(** [ExpressionEqualityMatcher::Match] and [ConstantExpressionMatcher::Match];
    a successful match appends the entry to the bindings. *)
Definition ExpressionMatcher_Match (m : ExpressionMatcher) (expr : Expression) : bool :=
  match m with
  | ExpressionEqualityMatcher expression => Equals expression expr
  | ConstantExpressionMatcher =>
      match expr with
      | BoundConstantExpression _ => true
      | _ => false
      end
  end.

(** [SetMatcher::MatchRecursive]: the bindings added by a complete match of
    [matchers] against distinct entries, trying entries in index order. *)
Fixpoint MatchRecursive (matchers : list ExpressionMatcher) (entries : list Expression)
    (excluded_entries : list nat) {struct matchers} : option (list Expression) :=
  match matchers with
  | [] => Some []
  | m :: matchers' =>
      let try_entries :=
        fix try_entries (e_idx : nat) (rest : list Expression)
          : option (list Expression) :=
          match rest with
          | [] => None
          | entry :: rest' =>
              if existsb (Nat.eqb e_idx) excluded_entries
              then try_entries (S e_idx) rest'
              else if ExpressionMatcher_Match m entry then
                match MatchRecursive matchers' entries (e_idx :: excluded_entries) with
                | Some bindings => Some (entry :: bindings)
                | None => try_entries (S e_idx) rest'
                end
              else try_entries (S e_idx) rest'
          end in
      try_entries 0 entries
  end.

(** [SetMatcher::Match] under [Policy::UNORDERED]. *)
Definition SetMatcher_Match (matchers : list ExpressionMatcher)
    (entries : list Expression) : option (list Expression) :=
  if negb (Nat.eqb (List.length matchers) (List.length entries)) then None
  else MatchRecursive matchers entries [].

(** [FunctionExpressionMatcher::Match] with a [ManyFunctionMatcher] over
    [functions] and expression type [BOUND_FUNCTION]: the bindings are the
    expression itself followed by the bindings of the child matchers. *)
Definition FunctionExpressionMatcher_Match (functions : list string)
    (matchers : list ExpressionMatcher) (expr : Expression)
  : option (list Expression) :=
  match expr with
  | BoundFunctionExpression _ f children =>
      if negb (set_contains functions (ScalarFunction.name f)) then None
      else
        match SetMatcher_Match matchers children with
        | Some bindings => Some (expr :: bindings)
        | None => None
        end
  | _ => None
  end.

(** The callback handed to [BindAndScan<RTreeIndex>] in [TryOptimizeGet]:
    [Some bind_data] when it assigns [bind_data] and returns true. *)
Definition index_callback (duck_table : TableCatalogEntry.t) (get : LogicalGet.t)
    (filter_column_idx : option nat) (filter_expr : Expression)
    (index_entry : Index.t) : result (option RTreeIndexScanBindData.t) :=
  index_expr0 <- vector_at (Index.unbound_expressions index_entry) 0 ;;
  rewritten <-
    match filter_column_idx with
    | Some filter_idx =>
        Return (RewriteIndexExpressionForFilter index_expr0 filter_idx true)
    | None => RewriteIndexExpression index_entry get index_expr0 true
    end ;;
  let index_expr := fst rewritten in
  let rewrite_possible := snd rewritten in
  if negb rewrite_possible then Return None
  else
    match FunctionExpressionMatcher_Match spatial_predicates
            [ExpressionEqualityMatcher index_expr; ConstantExpressionMatcher]
            filter_expr with
    | None => Return None
    | Some bindings =>
        constant <- vector_at bindings 2 ;;
        match constant with
        | BoundConstantExpression constant_value =>
            match TryGetBoundingBox constant_value with
            | None => Return None
            | Some bbox =>
                Return (Some (RTreeIndexScanBindData.mk duck_table index_entry bbox))
            end
        | _ => Throw (InternalException "Failed to cast expression to type")
        end
    end.

(** [BindAndScan<RTreeIndex>]: the callback runs on every index of the
    R-tree type, in order, until it returns true. *)
Fixpoint BindAndScan (indexes : list Index.t)
    (callback : Index.t -> result (option RTreeIndexScanBindData.t))
  : result (option RTreeIndexScanBindData.t) :=
  match indexes with
  | [] => Return None
  | index :: rest =>
      if String.eqb (Index.index_type index) RTreeIndex_TYPE_NAME then
        r <- callback index ;;
        match r with
        | Some bind_data => Return (Some bind_data)
        | None => BindAndScan rest callback
        end
      else BindAndScan rest callback
  end.

(** The loop of [TryOptimizeGet] that turns the pushed-down table filters
    into the expressions of the new filter. *)
Fixpoint pullup_filters (get : LogicalGet.t) (filters : list (nat * TableFilter))
  : result (list Expression) :=
  match filters with
  | [] => Return []
  | entry :: rest =>
      let column_id := fst entry in
      type <- vector_at (LogicalGet.returned_types get) column_id ;;
      match find_column (LogicalGet.column_ids get) column_id 0 with
      | None => Throw (InternalException "Could not find column id for filter")
      | Some i =>
          let column :=
            BoundColumnRefExpression type
              (ColumnBinding.mk (LogicalGet.table_index get) i) in
          expressions <- pullup_filters get rest ;;
          Return (ToExpression (snd entry) column :: expressions)
      end
  end.

(** The scan after the three assignments that replace the access function,
    the estimated cardinality and the bind data. *)
Definition index_scan (get : LogicalGet.t) (bind_data : RTreeIndexScanBindData.t)
  : LogicalGet.t :=
  LogicalGet.replace_scan get RTreeIndexScanFunction_GetFunction
    (cardinality bind_data) (RTreeIndexScanBindData_ bind_data).

(** [TryOptimizeGet]: the value returned or the exception thrown, and the
    state of the plan at that moment. *)
Definition TryOptimizeGet (st : RewriteState.t) (filter_column_idx : option nat)
    (filter_expr : Expression) : result bool * RewriteState.t :=
  match RewriteState.get_ptr st with
  | LOGICAL_GET get get_children =>
      if negb (String.eqb (TableFunction.name (LogicalGet.function get)) "seq_scan")
      then (Return false, st)
      else if match LogicalGet.dynamic_filters get with
              | Some HasFilters => HasFilters
              | None => false
              end
      then (Return false, st)
      else
        match LogicalGet.table get with
        | None =>
            (Throw (InternalException
                      "Attempting to dereference an optional pointer that is not set"),
             st)
        | Some table =>
            if negb (TableCatalogEntry.IsDuckTable table) then (Return false, st)
            else
              match BindAndScan (TableCatalogEntry.indexes table)
                      (index_callback table get filter_column_idx filter_expr) with
              | Throw e => (Throw e, st)
              | Return None => (Return false, st)
              | Return (Some bind_data) =>
                  let get1 := index_scan get bind_data in
                  match LogicalGet.table_filters get1 with
                  | [] =>
                      (Return true,
                       RewriteState.mk (LOGICAL_GET get1 get_children)
                         (RewriteState.filter st))
                  | _ :: _ =>
                      let remapped :=
                        remap_filter (LogicalGet.projection_ids get1)
                          (RewriteState.filter st) in
                      match fst remapped with
                      | Throw e =>
                          (Throw e,
                           RewriteState.mk (LOGICAL_GET get1 get_children)
                             (snd remapped))
                      | Return _ =>
                          let get2 := LogicalGet.clear_projection_ids get1 in
                          match pullup_filters get2 (LogicalGet.table_filters get2) with
                          | Throw e =>
                              (Throw e,
                               RewriteState.mk (LOGICAL_GET get2 get_children)
                                 (snd remapped))
                          | Return expressions =>
                              let new_filter := LogicalFilter.mk expressions [] in
                              (Return true,
                               RewriteState.mk
                                 (LOGICAL_FILTER new_filter
                                    [LOGICAL_GET get2 get_children])
                                 (snd remapped))
                          end
                      end
                  end
              end
        end
  | _ => (Throw (InternalException "Failed to cast logical operator to type"), st)
  end.

(** The loop of [TryOptimize] over the table filters of a scan; filters
    other than expression filters are skipped. *)
Fixpoint try_expression_filters (st : RewriteState.t)
    (filters : list (nat * TableFilter)) : result bool * RewriteState.t :=
  match filters with
  | [] => (Return false, st)
  | entry :: rest =>
      match snd entry with
      | ExpressionFilter expr =>
          match TryOptimizeGet st (Some (fst entry)) expr with
          | (Return true, st') => (Return true, st')
          | (Return false, st') => try_expression_filters st' rest
          | (Throw e, st') => (Throw e, st')
          end
      | _ => try_expression_filters st rest
      end
  end.

(** [TryOptimize]: its result and the plan it leaves behind
    ([children.front()] of an operator without children throws). *)
Definition TryOptimize (plan : LogicalOperator) : result bool * LogicalOperator :=
  match plan with
  | LOGICAL_FILTER filter children =>
      match LogicalFilter.expressions filter with
      | [filter_expr] =>
          match children with
          | [] => (Throw (InternalException "'front' called on an empty vector!"), plan)
          | LOGICAL_GET get get_children :: siblings =>
              let r := TryOptimizeGet
                         (RewriteState.mk (LOGICAL_GET get get_children) (Some filter))
                         None filter_expr in
              (fst r,
               LOGICAL_FILTER
                 (match RewriteState.filter (snd r) with
                  | Some filter' => filter'
                  | None => filter
                  end)
                 (RewriteState.get_ptr (snd r) :: siblings))
          | _ :: _ => (Return false, plan)
          end
      | _ => (Return false, plan)
      end
  | LOGICAL_GET get _ =>
      let r := try_expression_filters (RewriteState.mk plan None)
                 (LogicalGet.table_filters get) in
      (fst r, RewriteState.get_ptr (snd r))
  | LOGICAL_OPERATOR _ _ _ => (Return false, plan)
  end.

(** The loop [for (auto &child : plan->children) OptimizeRecursive(child)]. *)
Fixpoint optimize_children
    (rec : LogicalOperator -> option (result unit * LogicalOperator))
    (children : list LogicalOperator)
  : option (result unit * list LogicalOperator) :=
  match children with
  | [] => Some (Return tt, [])
  | child :: rest =>
      match rec child with
      | None => None
      | Some (Throw e, child') => Some (Throw e, child' :: rest)
      | Some (Return _, child') =>
          match optimize_children rec rest with
          | None => None
          | Some (r, rest') => Some (r, child' :: rest')
          end
      end
  end.

(** [OptimizeRecursive].  The recursion descends into the children of the
    plan as [TryOptimize] left it, so it is bounded by [fuel]; [None] means
    the bound was too small. *)
Fixpoint OptimizeRecursive (fuel : nat) (plan : LogicalOperator)
  : option (result unit * LogicalOperator) :=
  match fuel with
  | 0 => None
  | S fuel' =>
      match TryOptimize plan with
      | (Return true, plan') => Some (Return tt, plan')
      | (Throw e, plan') => Some (Throw e, plan')
      | (Return false, plan') =>
          match optimize_children (OptimizeRecursive fuel') (children_of plan') with
          | None => None
          | Some (r, children') => Some (r, set_children plan' children')
          end
      end
  end.

(** [Optimize] *)
Definition Optimize (fuel : nat) (plan : LogicalOperator) :=
  OptimizeRecursive fuel plan.

(** [e] is the pushed-down filter [entry] as an explicit predicate over the
    scan output: it refers to output column [i], the first position of the
    filtered table column among the column ids of the scan. *)
Definition residual_predicate (get : LogicalGet.t) (entry : nat * TableFilter)
    (e : Expression) : Prop :=
  exists type i,
    nth_error (LogicalGet.returned_types get) (fst entry) = Some type /\
    nth_error (LogicalGet.column_ids get) i = Some (fst entry) /\
    (forall j, j < i -> nth_error (LogicalGet.column_ids get) j <> Some (fst entry)) /\
    e = ToExpression (snd entry)
          (BoundColumnRefExpression type
             (ColumnBinding.mk (LogicalGet.table_index get) i)).

(** [new] is what the rewrite puts in the place of the scan [get]: the index
    scan itself when no filter was pushed into the scan, and otherwise one
    new filter over the index scan whose expressions are the residual
    predicates of the pushed-down filters, in order. *)
Definition rewritten_scan (get : LogicalGet.t) (get_children : list LogicalOperator)
    (bind_data : RTreeIndexScanBindData.t) (new : LogicalOperator) : Prop :=
  match LogicalGet.table_filters get with
  | [] => new = LOGICAL_GET (index_scan get bind_data) get_children
  | _ :: _ =>
      exists predicates,
        Forall2 (residual_predicate get) (LogicalGet.table_filters get) predicates /\
        new = LOGICAL_FILTER (LogicalFilter.mk predicates [])
                [LOGICAL_GET (LogicalGet.clear_projection_ids (index_scan get bind_data))
                   get_children]
  end.

(** The scan passes the checks of [TryOptimizeGet] that precede the search
    for an index: a sequential scan of a native table, with no dynamic
    filters. *)
Definition plain_scan_of (get : LogicalGet.t) (table : TableCatalogEntry.t) : Prop :=
  TableFunction.name (LogicalGet.function get) = "seq_scan" /\
  LogicalGet.dynamic_filters get <> Some true /\
  LogicalGet.table get = Some table /\
  TableCatalogEntry.IsDuckTable table = true.

(** The key expression of [index] exists and is rewritten for the scan
    without a container access out of range. *)
Definition index_key_rewritable (get : LogicalGet.t) (filter_column_idx : option nat)
    (index : Index.t) : Prop :=
  exists key,
    nth_error (Index.unbound_expressions index) 0 = Some key /\
    (filter_column_idx = None ->
     exists r, RewriteIndexExpression index get key true = Return r).

(** No operator of the plan is matched by [TryOptimize]. *)
Fixpoint no_match (plan : LogicalOperator) : bool :=
  match fst (TryOptimize plan) with
  | Return false =>
      match plan with
      | LOGICAL_GET _ cs => forallb no_match cs
      | LOGICAL_FILTER _ cs => forallb no_match cs
      | LOGICAL_OPERATOR _ _ cs => forallb no_match cs
      end
  | _ => false
  end.

End RTreeIndexScanOptimizer.

(* ===================================================================== *)
(** * Scalar functions of the build pipeline *)
(* ===================================================================== *)

(** Row-wise meaning of the executors; SQL NULL is [None]. *)

Module ST_IsEmpty.
(** [ExecuteGeometry]: [UnaryExecutor::Execute] maps NULL to NULL and
    applies the lambda [vertex_count == 0] to every other row. *)
Definition ExecuteGeometry (blob : option geometry_t.t) : option bool :=
  match blob with
  | Some geom => Some (Nat.eqb (geometry_t.vertex_count geom) 0)
  | None => None
  end.
End ST_IsEmpty.

Module ST_Extent_Approx.
(** [Execute] *)
Definition Execute (input : option geometry_t.t) : option Box2D.t :=
  match input with
  | Some blob =>
      match TryGetCachedBounds blob with
      | Some bbox =>
          Some (box (Vec.x (Box2D.min bbox)) (Vec.y (Box2D.min bbox))
                    (Vec.x (Box2D.max bbox)) (Vec.y (Box2D.max bbox)))
      | None => None
      end
  | None => None
  end.
End ST_Extent_Approx.

Module ST_Centroid.
(** [ExecuteBox<float>]: the sum is a [float] addition, the product with
    the [double] literal [0.5] a [double] multiplication. *)
Definition ExecuteBox (input : option Box2D.t) : option (float64 * float64) :=
  match input with
  | Some b =>
      let minx := Vec.x (Box2D.min b) in
      let miny := Vec.y (Box2D.min b) in
      let maxx := Vec.x (Box2D.max b) in
      let maxy := Vec.y (Box2D.max b) in
      Some (double_mul (float_to_double (float_add minx maxx)) double_half,
            double_mul (float_to_double (float_add miny maxy)) double_half)
  | None => None
  end.
End ST_Centroid.

Module ST_XMin.
(** [ExecutePoint]: the result references the [x] child of the point
    vector; the child of a NULL struct entry is NULL. *)
Definition ExecutePoint (point : option (float64 * float64)) : option float64 :=
  match point with
  | Some p => Some (fst p)
  | None => None
  end.

(** [ExecuteBox]: the result references the [min_x] child of the box. *)
Definition ExecuteBox (b : option Box2D.t) : option float32 :=
  match b with
  | Some b => Some (Vec.x (Box2D.min b))
  | None => None
  end.
End ST_XMin.

(** The variants that [Register] adds to the catalog for the four functions
    the pipeline looks up. *)
Definition variant (name : string) (parameter return_type : LogicalType)
    (function : scalar_function_t) : ScalarFunction.t :=
  ScalarFunction.mk name [parameter] return_type CONSISTENT function.

Definition system_catalog : list ScalarFunction.t :=
  [ variant "ST_Centroid" GEOMETRY GEOMETRY external_function;
    variant "ST_Centroid" POINT_2D POINT_2D external_function;
    variant "ST_Centroid" LINESTRING_2D POINT_2D external_function;
    variant "ST_Centroid" POLYGON_2D POINT_2D external_function;
    variant "ST_Centroid" BOX_2D POINT_2D external_function;
    variant "ST_Centroid" BOX_2DF POINT_2D ST_Centroid_ExecuteBox_float;
    variant "ST_Extent_Approx" GEOMETRY BOX_2DF ST_Extent_Approx_Execute;
    variant "ST_IsEmpty" GEOMETRY BOOLEAN ST_IsEmpty_ExecuteGeometry;
    variant "ST_IsEmpty" LINESTRING_2D BOOLEAN external_function;
    variant "ST_IsEmpty" POLYGON_2D BOOLEAN external_function;
    variant "ST_XMin" GEOMETRY DOUBLE external_function;
    variant "ST_XMin" POINT_2D DOUBLE ST_XMin_ExecutePoint;
    variant "ST_XMin" LINESTRING_2D DOUBLE external_function;
    variant "ST_XMin" POLYGON_2D DOUBLE external_function;
    variant "ST_XMin" BOX_2D DOUBLE external_function;
    variant "ST_XMin" BOX_2DF FLOAT ST_XMin_ExecuteBox ].

(** Catalog names are compared without regard to case. *)
Definition to_lower (c : ascii) : ascii :=
  let n := nat_of_ascii c in
  if andb (Nat.leb 65 n) (Nat.leb n 90) then ascii_of_nat (n + 32) else c.

Fixpoint lower (s : string) : string :=
  match s with
  | EmptyString => EmptyString
  | String c s' => String (to_lower c) (lower s')
  end.

Fixpoint types_eqb (a b : list LogicalType) : bool :=
  match a, b with
  | [], [] => true
  | x :: a', y :: b' => andb (LogicalType_eqb x y) (types_eqb a' b')
  | _, _ => false
  end.

(** [catalog.GetEntry(context, SCALAR_FUNCTION_ENTRY, DEFAULT_SCHEMA, name)] *)
Definition GetEntry (catalog : list ScalarFunction.t) (name : string)
  : result (list ScalarFunction.t) :=
  match filter (fun f => String.eqb (lower (ScalarFunction.name f)) (lower name)) catalog with
  | [] => Throw (CatalogException "Scalar Function does not exist!")
  | functions => Return functions
  end.

(** [functions.GetFunctionByArguments(context, arguments)]: the variant
    registered with exactly these argument types (binding through implicit
    casts is not modelled). *)
Definition GetFunctionByArguments (functions : list ScalarFunction.t)
    (arguments : list LogicalType) : result ScalarFunction.t :=
  match find (fun f => types_eqb (ScalarFunction.arguments f) arguments) functions with
  | Some f => Return f
  | None => Throw (InternalException "Failed to find function in catalog")
  end.

(* ===================================================================== *)
(** * Expression execution *)
(* ===================================================================== *)

(** A value of one row and column. *)
Inductive Datum :=
| D_NULL
| D_BOOLEAN (b : bool)
| D_BIGINT (z : Z)
| D_FLOAT (f : float32)
| D_DOUBLE (d : float64)
| D_GEOMETRY (g : geometry_t.t)
| D_BOX_2DF (b : Box2D.t)
| D_POINT_2D (x y : float64).

Definition Row := list Datum.

Definition type_mismatch {A : Type} : result A :=
  Throw (InternalException "Expression executed on a value of the wrong type").

(** Running an executor on one row of arguments. *)
Definition execute_function (function : scalar_function_t) (args : list Datum)
  : result Datum :=
  match function, args with
  | ST_IsEmpty_ExecuteGeometry, [D_NULL] =>
      Return match ST_IsEmpty.ExecuteGeometry None with
             | Some b => D_BOOLEAN b | None => D_NULL end
  | ST_IsEmpty_ExecuteGeometry, [D_GEOMETRY g] =>
      Return match ST_IsEmpty.ExecuteGeometry (Some g) with
             | Some b => D_BOOLEAN b | None => D_NULL end
  | ST_Extent_Approx_Execute, [D_NULL] =>
      Return match ST_Extent_Approx.Execute None with
             | Some b => D_BOX_2DF b | None => D_NULL end
  | ST_Extent_Approx_Execute, [D_GEOMETRY g] =>
      Return match ST_Extent_Approx.Execute (Some g) with
             | Some b => D_BOX_2DF b | None => D_NULL end
  | ST_Centroid_ExecuteBox_float, [D_NULL] =>
      Return match ST_Centroid.ExecuteBox None with
             | Some p => D_POINT_2D (fst p) (snd p) | None => D_NULL end
  | ST_Centroid_ExecuteBox_float, [D_BOX_2DF b] =>
      Return match ST_Centroid.ExecuteBox (Some b) with
             | Some p => D_POINT_2D (fst p) (snd p) | None => D_NULL end
  | ST_XMin_ExecutePoint, [D_NULL] =>
      Return match ST_XMin.ExecutePoint None with
             | Some d => D_DOUBLE d | None => D_NULL end
  | ST_XMin_ExecutePoint, [D_POINT_2D x y] =>
      Return match ST_XMin.ExecutePoint (Some (x, y)) with
             | Some d => D_DOUBLE d | None => D_NULL end
  | ST_XMin_ExecuteBox, [D_NULL] =>
      Return match ST_XMin.ExecuteBox None with
             | Some f => D_FLOAT f | None => D_NULL end
  | ST_XMin_ExecuteBox, [D_BOX_2DF b] =>
      Return match ST_XMin.ExecuteBox (Some b) with
             | Some f => D_FLOAT f | None => D_NULL end
  | _, _ => type_mismatch
  end.

(** SQL [AND] over the values of the children. *)
Fixpoint conjunction_and (values : list Datum) : result Datum :=
  match values with
  | [] => Return (D_BOOLEAN true)
  | v :: rest =>
      r <- conjunction_and rest ;;
      match v, r with
      | D_BOOLEAN false, (D_BOOLEAN _ | D_NULL) => Return (D_BOOLEAN false)
      | (D_BOOLEAN true | D_NULL), D_BOOLEAN false => Return (D_BOOLEAN false)
      | D_BOOLEAN true, D_BOOLEAN true => Return (D_BOOLEAN true)
      | D_BOOLEAN true, D_NULL => Return D_NULL
      | D_NULL, (D_BOOLEAN true | D_NULL) => Return D_NULL
      | _, _ => type_mismatch
      end
  end.

(** The expression executor on one row, for the expression kinds the build
    pipeline is made of. *)
Fixpoint Execute (expr : Expression) (row : Row) {struct expr} : result Datum :=
  let ExecuteAll :=
    fix ExecuteAll (cs : list Expression) : result (list Datum) :=
      match cs with
      | [] => Return []
      | c :: cs' =>
          v <- Execute c row ;;
          vs <- ExecuteAll cs' ;;
          Return (v :: vs)
      end in
  match expr with
  | BoundReferenceExpression _ index => vector_at row index
  | BoundFunctionExpression _ f children =>
      args <- ExecuteAll children ;;
      execute_function (ScalarFunction.function f) args
  | BoundOperatorExpression OPERATOR_IS_NOT_NULL _ [child] =>
      v <- Execute child row ;;
      Return (D_BOOLEAN match v with D_NULL => false | _ => true end)
  | BoundOperatorExpression OPERATOR_IS_NULL _ [child] =>
      v <- Execute child row ;;
      Return (D_BOOLEAN match v with D_NULL => true | _ => false end)
  | BoundOperatorExpression OPERATOR_NOT _ [child] =>
      v <- Execute child row ;;
      match v with
      | D_NULL => Return D_NULL
      | D_BOOLEAN b => Return (D_BOOLEAN (negb b))
      | _ => type_mismatch
      end
  | BoundConjunctionExpression CONJUNCTION_AND children =>
      values <- ExecuteAll children ;;
      conjunction_and values
  | _ => Throw (InternalException "Expression kind not supported by the executor")
  end.

(* ===================================================================== *)
(** * Physical operators *)
(* ===================================================================== *)

Inductive OrderType := ASCENDING | DESCENDING.
Inductive OrderByNullType := NULLS_FIRST | NULLS_LAST.

Module BoundOrderByNode.
Record t := mk {
  type : OrderType;
  null_order : OrderByNullType;
  expression : Expression
}.
End BoundOrderByNode.

Inductive PhysicalOperator :=
| PhysicalTableScan (rows : list Row)
| PhysicalProjection (types : list LogicalType) (select_list : list Expression)
    (estimated_cardinality : nat) (children : list PhysicalOperator)
| PhysicalFilter (types : list LogicalType) (select_list : list Expression)
    (estimated_cardinality : nat) (children : list PhysicalOperator)
| PhysicalOrder (types : list LogicalType) (orders : list BoundOrderByNode.t)
    (projections : list nat) (estimated_cardinality : nat)
    (children : list PhysicalOperator)
| PhysicalCreateRTreeIndex (column_ids : list nat)
    (unbound_expressions : list Expression) (estimated_cardinality : nat)
    (children : list PhysicalOperator).

(** [op.children.push_back(child)] *)
Definition push_back_child (op child : PhysicalOperator) : PhysicalOperator :=
  match op with
  | PhysicalTableScan rows => PhysicalTableScan rows
  | PhysicalProjection t s c cs => PhysicalProjection t s c (cs ++ [child])
  | PhysicalFilter t s c cs => PhysicalFilter t s c (cs ++ [child])
  | PhysicalOrder t o p c cs => PhysicalOrder t o p c (cs ++ [child])
  | PhysicalCreateRTreeIndex i u c cs => PhysicalCreateRTreeIndex i u c (cs ++ [child])
  end.

(** The engine's total order on [DOUBLE] and [FLOAT] values: IEEE order,
    with NaN equal to itself and above everything else. *)
Definition double_le (a b : spec_float) : bool :=
  match a, b with
  | _, S754_nan => true
  | S754_nan, _ => false
  | _, _ => SFleb a b
  end.

(** A sort key of one row: NULL or a floating-point number (the only kinds
    of key that are modelled). *)
Definition sort_key := option spec_float.

Definition sort_key_of (v : Datum) : result sort_key :=
  match v with
  | D_NULL => Return None
  | D_DOUBLE d => Return (Some d)
  | D_FLOAT f => Return (Some f)
  | _ => Throw (InternalException "Sort key type not supported")
  end.

(** May a row with key [a] precede a row with key [b] under one
    [BoundOrderByNode]? *)
Definition order_le (type : OrderType) (null_order : OrderByNullType)
    (a b : sort_key) : bool :=
  match a, b with
  | None, None => true
  | None, Some _ => match null_order with NULLS_FIRST => true | NULLS_LAST => false end
  | Some _, None => match null_order with NULLS_FIRST => false | NULLS_LAST => true end
  | Some x, Some y =>
      match type with
      | ASCENDING => double_le x y
      | DESCENDING => double_le y x
      end
  end.

(** Lexicographic comparison under a list of [BoundOrderByNode]s. *)
Fixpoint keys_le (orders : list BoundOrderByNode.t) (a b : list sort_key) : bool :=
  match orders, a, b with
  | o :: orders', x :: a', y :: b' =>
      let le := order_le (BoundOrderByNode.type o) (BoundOrderByNode.null_order o) in
      if le x y then (if le y x then keys_le orders' a' b' else true) else false
  | _, _, _ => true
  end.

(** The sort of [PhysicalOrder], as a stable insertion sort. *)
Fixpoint insert_sorted {A : Type} (le : A -> A -> bool) (x : A) (l : list A) : list A :=
  match l with
  | [] => [x]
  | y :: l' => if le x y then x :: l else y :: insert_sorted le x l'
  end.

Fixpoint sort {A : Type} (le : A -> A -> bool) (l : list A) : list A :=
  match l with
  | [] => []
  | x :: l' => insert_sorted le x (sort le l')
  end.

(** [mapM] for [result]. *)
Fixpoint map_result {A B : Type} (f : A -> result B) (l : list A) : result (list B) :=
  match l with
  | [] => Return []
  | a :: l' =>
      b <- f a ;;
      bs <- map_result f l' ;;
      Return (b :: bs)
  end.

(** The rows a filter lets through: those on which the predicate is TRUE. *)
Fixpoint filter_result (f : Row -> result Datum) (rows : list Row) : result (list Row) :=
  match rows with
  | [] => Return []
  | row :: rows' =>
      v <- f row ;;
      kept <- filter_result f rows' ;;
      match v with
      | D_BOOLEAN true => Return (row :: kept)
      | D_BOOLEAN false | D_NULL => Return kept
      | _ => type_mismatch
      end
  end.

(** The predicate of a [PhysicalFilter]: the conjunction of its select list
    when it has more than one entry. *)
Definition filter_expression (select_list : list Expression) : Expression :=
  match select_list with
  | [expression] => expression
  | _ => BoundConjunctionExpression CONJUNCTION_AND select_list
  end.

(** The rows an operator produces (for [PhysicalCreateRTreeIndex], a sink:
    the rows it receives). *)
Fixpoint execute (op : PhysicalOperator) : result (list Row) :=
  match op with
  | PhysicalTableScan rows => Return rows
  | PhysicalProjection _ select_list _ [child] =>
      rows <- execute child ;;
      map_result (fun row => map_result (fun e => Execute e row) select_list) rows
  | PhysicalFilter _ select_list _ [child] =>
      rows <- execute child ;;
      filter_result (Execute (filter_expression select_list)) rows
  | PhysicalOrder _ orders projections _ [child] =>
      rows <- execute child ;;
      keyed <- map_result
                 (fun row =>
                    keys <- map_result
                              (fun o =>
                                 v <- Execute (BoundOrderByNode.expression o) row ;;
                                 sort_key_of v)
                              orders ;;
                    Return (keys, row))
                 rows ;;
      map_result (fun kr => map_result (vector_at (snd kr)) projections)
        (sort (fun a b => keys_le orders (fst a) (fst b)) keyed)
  | PhysicalCreateRTreeIndex _ _ _ [child] => execute child
  | _ => Throw (InternalException "Operator has the wrong number of children")
  end.

(* ===================================================================== *)
(** * The index-build plan ([RTreeIndex::CreatePlan]) *)
(* ===================================================================== *)

Module LogicalCreateRTreeIndex.
Record t := mk {
  unbound_expressions : list Expression;
  expressions : list Expression;
  (** [info->scan_types] *)
  scan_types : list LogicalType;
  (** [info->column_ids] *)
  column_ids : list nat;
  estimated_cardinality : nat
}.
End LogicalCreateRTreeIndex.

(** [n - 1] on [idx_t]: wraps around at zero. *)
Definition idx_t_pred (n : nat) : nat :=
  match n with
  | S k => k
  | 0 => Z.to_nat (idx_t_sub 0 1)
  end.

(** [CreateNullFilter] *)
Definition CreateNullFilter (op : LogicalCreateRTreeIndex.t) (types : list LogicalType)
  : result PhysicalOperator :=
  (* Filter NOT NULL on the GEOMETRY column *)
  type0 <- vector_at types 0 ;;
  let bound_ref := BoundReferenceExpression type0 0 in
  let is_not_null_expr :=
    BoundOperatorExpression OPERATOR_IS_NOT_NULL BOOLEAN [bound_ref] in
  (* Filter IS_NOT_EMPTY on the GEOMETRY column *)
  is_empty_entry <- GetEntry system_catalog "ST_IsEmpty" ;;
  is_empty_func <- GetFunctionByArguments is_empty_entry [GEOMETRY] ;;
  let is_empty_expr := BoundFunctionExpression BOOLEAN is_empty_func [bound_ref] in
  let is_not_empty_expr :=
    BoundOperatorExpression OPERATOR_NOT BOOLEAN [is_empty_expr] in
  (* Combine into an AND *)
  let and_expr :=
    BoundConjunctionExpression CONJUNCTION_AND [is_not_null_expr; is_not_empty_expr] in
  Return (PhysicalFilter types [and_expr]
            (LogicalCreateRTreeIndex.estimated_cardinality op) []).

(** [CreateBoundingBoxProjection] *)
Definition CreateBoundingBoxProjection (op : LogicalCreateRTreeIndex.t)
    (types : list LogicalType) : result PhysicalOperator :=
  bbox_func_entry <- GetEntry system_catalog "ST_Extent_Approx" ;;
  bbox_func <- GetFunctionByArguments bbox_func_entry [GEOMETRY] ;;
  let geom_ref_expr := BoundReferenceExpression GEOMETRY 0 in
  let bbox_expr := BoundFunctionExpression BOX_2DF bbox_func [geom_ref_expr] in
  (* Also project the rowid column *)
  let rowid_expr := BoundReferenceExpression ROW_TYPE 1 in
  Return (PhysicalProjection types [bbox_expr; rowid_expr]
            (LogicalCreateRTreeIndex.estimated_cardinality op) []).

(** [CreateOrderByMinX] *)
Definition CreateOrderByMinX (op : LogicalCreateRTreeIndex.t)
    (types : list LogicalType) : result PhysicalOperator :=
  (* Get the centroid value function *)
  centroid_func_entry <- GetEntry system_catalog "st_centroid" ;;
  centroid_func <- GetFunctionByArguments centroid_func_entry [BOX_2DF] ;;
  let centroid_expr :=
    BoundFunctionExpression POINT_2D centroid_func
      [BoundReferenceExpression BOX_2DF 0] in
  (* Get the xmin value function *)
  xmin_func_entry <- GetEntry system_catalog "st_xmin" ;;
  xmin_func <- GetFunctionByArguments xmin_func_entry [POINT_2D] ;;
  let xmin_expr := BoundFunctionExpression DOUBLE xmin_func [centroid_expr] in
  let orders := [BoundOrderByNode.mk ASCENDING NULLS_FIRST xmin_expr] in
  let projections := [0; 1] in
  Return (PhysicalOrder types orders projections
            (LogicalCreateRTreeIndex.estimated_cardinality op) []).

(** [RTreeIndex::CreatePlan]; [LogicalCreateRTreeIndex::CreatePlan] validates
    and plans in the same way. *)
Definition CreatePlan (op : LogicalCreateRTreeIndex.t) (table_scan : PhysicalOperator)
  : result PhysicalOperator :=
  (* Validate that we only have one expression *)
  if negb (Nat.eqb (List.length (LogicalCreateRTreeIndex.unbound_expressions op)) 1)
  then Throw (BinderException "RTree indexes can only be created over a single column.")
  else
    expr <- vector_at (LogicalCreateRTreeIndex.unbound_expressions op) 0 ;;
    (* Validate that we have the right type of expression *)
    if negb (LogicalType_eqb (Expression_return_type expr) GEOMETRY)
    then Throw (BinderException "RTree indexes can only be created over GEOMETRY columns.")
    (* Validate that the expression does not have side effects *)
    else if negb (IsConsistent expr)
    then Throw (BinderException
                  "RTree index keys cannot contain expressions with side effects.")
    else
      (* projection to execute expressions on the key columns *)
      geom_expr <- vector_at (LogicalCreateRTreeIndex.expressions op) 0 ;;
      let new_column_types := [Expression_return_type geom_expr; ROW_TYPE] in
      let select_list :=
        [geom_expr;
         BoundReferenceExpression ROW_TYPE
           (idx_t_pred (List.length (LogicalCreateRTreeIndex.scan_types op)))] in
      let projection :=
        push_back_child
          (PhysicalProjection new_column_types select_list
             (LogicalCreateRTreeIndex.estimated_cardinality op) [])
          table_scan in
      (* Filter operator for (IS_NOT_NULL) and (NOT ST_IsEmpty) *)
      null_filter0 <- CreateNullFilter op new_column_types ;;
      let null_filter := push_back_child null_filter0 projection in
      (* Project the bounding box and the row ID *)
      let projected_types := [BOX_2DF; ROW_TYPE] in
      bbox_proj0 <- CreateBoundingBoxProjection op projected_types ;;
      let bbox_proj := push_back_child bbox_proj0 null_filter in
      (* ORDER_BY operator to sort the bounding boxes *)
      physical_order0 <- CreateOrderByMinX op projected_types ;;
      let physical_order := push_back_child physical_order0 bbox_proj in
      (* the physical create index operator *)
      Return (push_back_child
                (PhysicalCreateRTreeIndex (LogicalCreateRTreeIndex.column_ids op)
                   (LogicalCreateRTreeIndex.unbound_expressions op)
                   (LogicalCreateRTreeIndex.estimated_cardinality op) [])
                physical_order).

(* ===================================================================== *)
(** * Structural equality of expressions *)
(* ===================================================================== *)

(** Equality of bound expression trees, node by node.  It instantiates the
    engine's [Expression::Equals] wherever a concrete plan is evaluated. *)

Definition spec_float_eqb (a b : spec_float) : bool :=
  match a, b with
  | S754_zero s, S754_zero s' => Bool.eqb s s'
  | S754_infinity s, S754_infinity s' => Bool.eqb s s'
  | S754_nan, S754_nan => true
  | S754_finite s m e, S754_finite s' m' e' =>
      andb (Bool.eqb s s') (andb (Pos.eqb m m') (Z.eqb e e'))
  | _, _ => false
  end.

Definition Vec_eqb (a b : Vec.t) : bool :=
  andb (spec_float_eqb (Vec.x a) (Vec.x b)) (spec_float_eqb (Vec.y a) (Vec.y b)).

Definition Box2D_eqb (a b : Box2D.t) : bool :=
  andb (Vec_eqb (Box2D.min a) (Box2D.min b)) (Vec_eqb (Box2D.max a) (Box2D.max b)).

Definition geometry_eqb (a b : geometry_t.t) : bool :=
  andb (Nat.eqb (geometry_t.vertex_count a) (geometry_t.vertex_count b))
       match geometry_t.cached_bounds a, geometry_t.cached_bounds b with
       | Some x, Some y => Box2D_eqb x y
       | None, None => true
       | _, _ => false
       end.

Definition Value_eqb (a b : Value.t) : bool :=
  andb (LogicalType_eqb (Value.type a) (Value.type b))
       (geometry_eqb (Value.str a) (Value.str b)).

Definition ExpressionType_eqb (a b : ExpressionType) : bool :=
  match a, b with
  | BOUND_COLUMN_REF, BOUND_COLUMN_REF | BOUND_REF, BOUND_REF
  | VALUE_CONSTANT, VALUE_CONSTANT | BOUND_FUNCTION, BOUND_FUNCTION
  | OPERATOR_IS_NULL, OPERATOR_IS_NULL | OPERATOR_IS_NOT_NULL, OPERATOR_IS_NOT_NULL
  | OPERATOR_NOT, OPERATOR_NOT | CONJUNCTION_AND, CONJUNCTION_AND
  | CONJUNCTION_OR, CONJUNCTION_OR | COMPARE_EQUAL, COMPARE_EQUAL
  | COMPARE_LESSTHAN, COMPARE_LESSTHAN | COMPARE_GREATERTHAN, COMPARE_GREATERTHAN => true
  | _, _ => false
  end.

Definition scalar_function_t_eqb (a b : scalar_function_t) : bool :=
  match a, b with
  | ST_IsEmpty_ExecuteGeometry, ST_IsEmpty_ExecuteGeometry
  | ST_Extent_Approx_Execute, ST_Extent_Approx_Execute
  | ST_Centroid_ExecuteBox_float, ST_Centroid_ExecuteBox_float
  | ST_XMin_ExecutePoint, ST_XMin_ExecutePoint
  | ST_XMin_ExecuteBox, ST_XMin_ExecuteBox
  | external_function, external_function => true
  | _, _ => false
  end.

Definition ScalarFunction_eqb (a b : ScalarFunction.t) : bool :=
  andb (String.eqb (ScalarFunction.name a) (ScalarFunction.name b))
    (andb (types_eqb (ScalarFunction.arguments a) (ScalarFunction.arguments b))
       (andb (LogicalType_eqb (ScalarFunction.return_type a) (ScalarFunction.return_type b))
          (andb match ScalarFunction.stability a, ScalarFunction.stability b with
                | CONSISTENT, CONSISTENT | VOLATILE, VOLATILE => true
                | _, _ => false
                end
                (scalar_function_t_eqb (ScalarFunction.function a)
                   (ScalarFunction.function b))))).

Fixpoint Expression_eqb (a b : Expression) {struct a} : bool :=
  let list_eqb :=
    fix list_eqb (xs ys : list Expression) : bool :=
      match xs, ys with
      | [], [] => true
      | x :: xs', y :: ys' => andb (Expression_eqb x y) (list_eqb xs' ys')
      | _, _ => false
      end in
  match a, b with
  | BoundColumnRefExpression t c, BoundColumnRefExpression t' c' =>
      andb (LogicalType_eqb t t')
        (andb (Nat.eqb (ColumnBinding.table_index c) (ColumnBinding.table_index c'))
              (Nat.eqb (ColumnBinding.column_index c) (ColumnBinding.column_index c')))
  | BoundReferenceExpression t i, BoundReferenceExpression t' i' =>
      andb (LogicalType_eqb t t') (Nat.eqb i i')
  | BoundConstantExpression v, BoundConstantExpression v' => Value_eqb v v'
  | BoundFunctionExpression t f cs, BoundFunctionExpression t' f' cs' =>
      andb (LogicalType_eqb t t') (andb (ScalarFunction_eqb f f') (list_eqb cs cs'))
  | BoundOperatorExpression k t cs, BoundOperatorExpression k' t' cs' =>
      andb (ExpressionType_eqb k k') (andb (LogicalType_eqb t t') (list_eqb cs cs'))
  | BoundConjunctionExpression k cs, BoundConjunctionExpression k' cs' =>
      andb (ExpressionType_eqb k k') (list_eqb cs cs')
  | _, _ => false
  end.

(* ===================================================================== *)
(** * Vocabulary of the properties *)
(* ===================================================================== *)

(** What the key expression and the row-id column yield for one table row. *)
Definition key_row := (option geometry_t.t * Z)%type.

Definition geometry_datum (g : option geometry_t.t) : Datum :=
  match g with
  | Some g => D_GEOMETRY g
  | None => D_NULL
  end.

Definition box_datum (b : option Box2D.t) : Datum :=
  match b with
  | Some b => D_BOX_2DF b
  | None => D_NULL
  end.

(** The row that the first projection of the plan makes of a table row. *)
Definition key_row_values (k : key_row) : Row :=
  [geometry_datum (fst k); D_BIGINT (snd k)].

(** The geometry is neither NULL nor empty. *)
Definition retained (r : key_row) : bool :=
  match fst r with
  | Some g => negb (Nat.eqb (geometry_t.vertex_count g) 0)
  | None => false
  end.

(** The (bbox, row_id) pair emitted for a row. *)
Definition emitted (r : key_row) : Row :=
  [box_datum (ST_Extent_Approx.Execute (fst r)); D_BIGINT (snd r)].

(** The bounding-box column of an emitted row. *)
Definition bbox_of (row : Row) : option Box2D.t :=
  match row with
  | D_BOX_2DF b :: _ => Some b
  | _ => None
  end.

(** [bbox.min_x], as a sort key. *)
Definition min_x (b : option Box2D.t) : sort_key :=
  match b with
  | Some b => Some (Vec.x (Box2D.min b))
  | None => None
  end.

(** The x coordinate of the centre of the box, as the plan computes it. *)
Definition centroid_x (b : option Box2D.t) : sort_key :=
  ST_XMin.ExecutePoint (ST_Centroid.ExecuteBox b).

(** [rows] are in ascending order of [key], NULL keys first. *)
Definition ascending_by (key : option Box2D.t -> sort_key) (rows : list Row) : Prop :=
  Sorted (fun r1 r2 =>
            order_le ASCENDING NULLS_FIRST (key (bbox_of r1)) (key (bbox_of r2)) = true)
         rows.

(** The plan below the sorter: what [CreatePlan] puts under [PhysicalOrder]. *)
Definition sorter_input (plan : PhysicalOperator) : option PhysicalOperator :=
  match plan with
  | PhysicalCreateRTreeIndex _ _ _ [PhysicalOrder _ _ _ _ [child]] => Some child
  | _ => None
  end.

(** The row-id column of the table scan holds [snd k] and the key
    expression yields the geometry [fst k] on [row]. *)
Definition key_of_row (op : LogicalCreateRTreeIndex.t) (row : Row) (k : key_row) : Prop :=
  exists geom_expr,
    nth_error (LogicalCreateRTreeIndex.expressions op) 0 = Some geom_expr /\
    Execute geom_expr row = Return (geometry_datum (fst k)) /\
    nth_error row (idx_t_pred (List.length (LogicalCreateRTreeIndex.scan_types op)))
      = Some (D_BIGINT (snd k)).

(** The expressions of the plan, spelled out: the predicate of the null
    filter, the bounding-box expression and the sort key. *)
Definition and_expr (type0 : LogicalType) : Expression :=
  BoundConjunctionExpression CONJUNCTION_AND
    [BoundOperatorExpression OPERATOR_IS_NOT_NULL BOOLEAN
       [BoundReferenceExpression type0 0];
     BoundOperatorExpression OPERATOR_NOT BOOLEAN
       [BoundFunctionExpression BOOLEAN
          (variant "ST_IsEmpty" GEOMETRY BOOLEAN ST_IsEmpty_ExecuteGeometry)
          [BoundReferenceExpression type0 0]]].

Definition bbox_expr : Expression :=
  BoundFunctionExpression BOX_2DF
    (variant "ST_Extent_Approx" GEOMETRY BOX_2DF ST_Extent_Approx_Execute)
    [BoundReferenceExpression GEOMETRY 0].

Definition xmin_expr : Expression :=
  BoundFunctionExpression DOUBLE
    (variant "ST_XMin" POINT_2D DOUBLE ST_XMin_ExecutePoint)
    [BoundFunctionExpression POINT_2D
       (variant "ST_Centroid" BOX_2DF POINT_2D ST_Centroid_ExecuteBox_float)
       [BoundReferenceExpression BOX_2DF 0]].

(** The plan, spelled out: table scan - projection - filter - projection -
    order - create index. *)
Definition index_build_plan (op : LogicalCreateRTreeIndex.t) (geom_expr : Expression)
    (table_scan : PhysicalOperator) : PhysicalOperator :=
  let cardinality := LogicalCreateRTreeIndex.estimated_cardinality op in
  let new_column_types := [Expression_return_type geom_expr; ROW_TYPE] in
  let projection :=
    PhysicalProjection new_column_types
      [geom_expr;
       BoundReferenceExpression ROW_TYPE
         (idx_t_pred (List.length (LogicalCreateRTreeIndex.scan_types op)))]
      cardinality [table_scan] in
  let null_filter :=
    PhysicalFilter new_column_types [and_expr (Expression_return_type geom_expr)]
      cardinality [projection] in
  let bbox_proj :=
    PhysicalProjection [BOX_2DF; ROW_TYPE]
      [bbox_expr; BoundReferenceExpression ROW_TYPE 1] cardinality [null_filter] in
  let physical_order :=
    PhysicalOrder [BOX_2DF; ROW_TYPE]
      [BoundOrderByNode.mk ASCENDING NULLS_FIRST xmin_expr] [0; 1] cardinality
      [bbox_proj] in
  PhysicalCreateRTreeIndex (LogicalCreateRTreeIndex.column_ids op)
    (LogicalCreateRTreeIndex.unbound_expressions op) cardinality [physical_order].

(** The order in which the sorter of the plan puts two emitted rows. *)
Definition by_centroid_x (r1 r2 : Row) : bool :=
  order_le ASCENDING NULLS_FIRST (centroid_x (bbox_of r1)) (centroid_x (bbox_of r2)).

(** When index creation is rejected, in the words of the specification:
    more than one key, a key that is not a geometry, a key with side
    effects. *)
Definition rejected_by_spec (keys : list Expression) : Prop :=
  1 < List.length keys \/
  (exists key, nth_error keys 0 = Some key /\ Expression_return_type key <> GEOMETRY) \/
  (exists key, nth_error keys 0 = Some key /\ IsConsistent key = false).

(** When [CreatePlan] rejects it: not exactly one key, or that key is not a
    geometry or has side effects. *)
Definition rejected_by_code (keys : list Expression) : Prop :=
  List.length keys <> 1 \/
  (exists key, keys = [key] /\
     (Expression_return_type key <> GEOMETRY \/ IsConsistent key = false)).

(** The validation failures of [CreatePlan]. *)
Definition is_validation_error {A : Type} (r : result A) : Prop :=
  exists msg, r = Throw (BinderException msg).

(* ===================================================================== *)
(** * Example plans *)
(* ===================================================================== *)

Module Sample.

Definition f32 (n : Z) : float32 := float_lit n 0.

(** A table [t(id BIGINT, geom GEOMETRY, price INTEGER)] with an R-tree
    index on [geom]. *)
Definition rtree_index : Index.t :=
  Index.mk "RTREE" [BoundColumnRefExpression GEOMETRY (ColumnBinding.mk 0 0)] [1].

Definition t : TableCatalogEntry.t := TableCatalogEntry.mk true [rtree_index].

(** [SELECT geom, price FROM t]: a sequential scan of columns 1 and 2. *)
Definition scan (filters : list (nat * TableFilter)) : LogicalGet.t :=
  LogicalGet.mk 0 (TableFunction.mk "seq_scan") TableScanBindData
    [BIGINT; GEOMETRY; INTEGER] [1; 2] [] filters None (Some t) true 1000.

(** A query geometry with cached bounds [(0,0)-(1,1)], and one without. *)
Definition query_box : Box2D.t := box (f32 0) (f32 0) (f32 1) (f32 1).
Definition query : Value.t := Value.mk GEOMETRY (geometry_t.mk 4 (Some query_box)).
Definition query_without_bounds : Value.t := Value.mk GEOMETRY (geometry_t.mk 1 None).

Definition geom_ref : Expression :=
  BoundColumnRefExpression GEOMETRY (ColumnBinding.mk 0 0).

Definition ST_Intersects : ScalarFunction.t :=
  ScalarFunction.mk "ST_Intersects" [GEOMETRY; GEOMETRY] BOOLEAN CONSISTENT
    external_function.

Definition ST_Area : ScalarFunction.t :=
  ScalarFunction.mk "ST_Area" [GEOMETRY] DOUBLE CONSISTENT external_function.

(** [ST_Intersects(geom, <query>)] *)
Definition intersects (constant : Value.t) : Expression :=
  BoundFunctionExpression BOOLEAN ST_Intersects
    [geom_ref; BoundConstantExpression constant].

(** [Filter(ST_Intersects(geom, query)) -> Scan(t)] *)
Definition filter_over_scan (constant : Value.t)
    (filters : list (nat * TableFilter)) : LogicalOperator :=
  LOGICAL_FILTER (LogicalFilter.mk [intersects constant] [])
    [LOGICAL_GET (scan filters) []].

(** The pushed-down filter [price > 10]. *)
Definition price_gt_10 : nat * TableFilter :=
  (2, ConstantFilter COMPARE_GREATERTHAN 10).

(** A stand-in for the engine's [TableFilter::ToExpression]. *)
Definition ToExpression (f : TableFilter) (column : Expression) : Expression :=
  match f with
  | ConstantFilter comparison_type _ =>
      BoundOperatorExpression comparison_type BOOLEAN [column]
  | IsNullFilter => BoundOperatorExpression OPERATOR_IS_NULL BOOLEAN [column]
  | IsNotNullFilter => BoundOperatorExpression OPERATOR_IS_NOT_NULL BOOLEAN [column]
  | ExpressionFilter expr => expr
  end.

(** A stand-in for the cardinality estimate of the index scan. *)
Definition cardinality (_ : RTreeIndexScanBindData.t) : NodeStatistics.t :=
  NodeStatistics.mk true 10.

Definition bind_data : RTreeIndexScanBindData.t :=
  RTreeIndexScanBindData.mk t rtree_index query_box.

(** A table scan that yields five rows [(geom, rowid)]. *)
Definition wide : geometry_t.t :=
  geometry_t.mk 2 (Some (box (f32 0) (f32 0) (f32 10) (f32 0))).
Definition narrow : geometry_t.t :=
  geometry_t.mk 3 (Some (box (f32 1) (f32 0) (f32 2) (f32 0))).
Definition empty : geometry_t.t := geometry_t.mk 0 None.
Definition unbounded : geometry_t.t := geometry_t.mk 1 None.

Definition keys : list key_row :=
  [(Some wide, 1%Z); (Some narrow, 2%Z); (Some empty, 3%Z); (None, 4%Z);
   (Some unbounded, 5%Z)].

Definition table_rows : list Row :=
  map (fun r => [geometry_datum (fst r); D_BIGINT (snd r)]) keys.

Definition key_expr : Expression := BoundReferenceExpression GEOMETRY 0.

(** [CREATE INDEX ... USING RTREE (keys)] over a scan of [(geom, rowid)]:
    the operator as its constructor builds it, the unbound expressions a
    copy of the key expressions. *)
Definition create_index (keys : list Expression) : LogicalCreateRTreeIndex.t :=
  LogicalCreateRTreeIndex.mk keys keys [GEOMETRY; BIGINT] [0] 5.

(** The plan [CreatePlan] returns for it. *)
Definition build_plan : PhysicalOperator :=
  index_build_plan (create_index [key_expr]) key_expr (PhysicalTableScan table_rows).

(** A filter pushed down on column [id], which the scan does not read. *)
Definition id_is_not_null : nat * TableFilter := (0, IsNotNullFilter).

(** [Projection -> Filter(ST_Area(geom)) -> Scan(t)]: nothing to rewrite. *)
Definition no_spatial_predicate : LogicalOperator :=
  LOGICAL_OPERATOR LOGICAL_PROJECTION_ []
    [LOGICAL_FILTER
       (LogicalFilter.mk [BoundFunctionExpression DOUBLE ST_Area [geom_ref]] [])
       [LOGICAL_GET (scan []) []]].

End Sample.

(* ===================================================================== *)
(** * Vocabulary of the further properties of the rewriter *)
(* ===================================================================== *)

(** The column references of an expression, in the order in which
    [ExpressionIterator::EnumerateChildren] reaches them. *)
Fixpoint column_refs (expr : Expression) : list ColumnBinding.t :=
  match expr with
  | BoundColumnRefExpression _ binding => [binding]
  | BoundReferenceExpression _ _ => []
  | BoundConstantExpression _ => []
  | BoundFunctionExpression _ _ children => flat_map column_refs children
  | BoundOperatorExpression _ _ children => flat_map column_refs children
  | BoundConjunctionExpression _ children => flat_map column_refs children
  end.

(** The table has no index of the R-tree type. *)
Definition no_rtree_index (table : TableCatalogEntry.t) : bool :=
  forallb (fun index => negb (String.eqb (Index.index_type index) RTreeIndex_TYPE_NAME))
    (TableCatalogEntry.indexes table).

(** A scan that [TryOptimizeGet] turns away before it looks at the
    predicate: it does not use [seq_scan], or it has dynamic filters, or its
    table is not a native table, or the table has no R-tree index. *)
Definition ineligible_scan (get : LogicalGet.t) : bool :=
  negb (String.eqb (TableFunction.name (LogicalGet.function get)) "seq_scan")
  || match LogicalGet.dynamic_filters get with
     | Some HasFilters => HasFilters
     | None => false
     end
  || match LogicalGet.table get with
     | Some table => negb (TableCatalogEntry.IsDuckTable table) || no_rtree_index table
     | None => false
     end.

(** Every scan of the plan satisfies [P]. *)
Fixpoint all_scans (P : LogicalGet.t -> bool) (plan : LogicalOperator) : bool :=
  match plan with
  | LOGICAL_GET get cs => P get && forallb (all_scans P) cs
  | LOGICAL_FILTER _ cs => forallb (all_scans P) cs
  | LOGICAL_OPERATOR _ _ cs => forallb (all_scans P) cs
  end.

(** The shape of the plans the binder hands over: a table scan is a leaf and
    a filter has exactly one input. *)
Fixpoint scans_are_leaves (plan : LogicalOperator) : bool :=
  match plan with
  | LOGICAL_GET _ cs => match cs with [] => true | _ :: _ => false end
  | LOGICAL_FILTER _ cs =>
      match cs with
      | [c] => scans_are_leaves c
      | _ => false
      end
  | LOGICAL_OPERATOR _ _ cs => forallb scans_are_leaves cs
  end.

(** What [vector::front] throws on an empty vector. *)
Definition front_of_empty_vector : Exception :=
  InternalException "'front' called on an empty vector!".

(** Entry [id] of a projection map, read through the projection ids of the
    scan. *)
Definition projected_through (projection_ids : list nat) (id id' : nat) : Prop :=
  nth_error projection_ids id = Some id'.

(** A column reference [new] of the rewritten index key stands for the
    column reference [old] of the key as the index stores it: it names the
    scan, and its column index is the first position, among the column ids
    of the scan, of the table column that [old] refers to through the column
    ids of the index. *)
Definition rebound_to_scan (index : Index.t) (get : LogicalGet.t)
    (old new : ColumnBinding.t) : Prop :=
  ColumnBinding.table_index new = LogicalGet.table_index get /\
  exists column,
    nth_error (Index.column_ids index) (ColumnBinding.column_index old) = Some column /\
    nth_error (LogicalGet.column_ids get) (ColumnBinding.column_index new) = Some column /\
    forall j, j < ColumnBinding.column_index new ->
              nth_error (LogicalGet.column_ids get) j <> Some column.

(** The child [c'] that the traversal leaves for [c] is a scan only if [c]
    was that scan. *)
Definition same_scan (c c' : LogicalOperator) : Prop :=
  forall get gc', c' = LOGICAL_GET get gc' -> exists gc, c = LOGICAL_GET get gc.


(** The loop [ExpressionIterator::EnumerateChildren] of
    [RewriteIndexExpressionForFilter], by itself. *)
Fixpoint EnumerateChildren_ForFilter (filter_idx : nat) (cs : list Expression)
    (rewrite_possible : bool) : list Expression * bool :=
  match cs with
  | [] => ([], rewrite_possible)
  | child :: cs' =>
      let r1 := RewriteIndexExpressionForFilter child filter_idx rewrite_possible in
      let r2 := EnumerateChildren_ForFilter filter_idx cs' (snd r1) in
      (fst r1 :: fst r2, snd r2)
  end.

(** The loop [ExpressionIterator::EnumerateChildren] of
    [RewriteIndexExpression], by itself. *)
Fixpoint EnumerateChildren_RewriteIndexExpression (index : Index.t) (get : LogicalGet.t)
    (cs : list Expression) (rewrite_possible : bool) : result (list Expression * bool) :=
  match cs with
  | [] => Return ([], rewrite_possible)
  | child :: cs' =>
      r1 <- RewriteIndexExpression index get child rewrite_possible ;;
      r2 <- EnumerateChildren_RewriteIndexExpression index get cs' (snd r1) ;;
      Return (fst r1 :: fst r2, snd r2)
  end.

(** The column reference goes through the column ids of the index to a
    table column that the scan reads. *)
Definition column_is_scanned (index : Index.t) (get : LogicalGet.t)
    (binding : ColumnBinding.t) : bool :=
  match nth_error (Index.column_ids index) (ColumnBinding.column_index binding) with
  | Some column =>
      match find_column (LogicalGet.column_ids get) column 0 with
      | Some _ => true
      | None => false
      end
  | None => false
  end.

(** The column reference [new] that [RewriteIndexExpression] writes in the
    place of [old]. *)
Definition rewritten_binding (index : Index.t) (get : LogicalGet.t)
    (old new : ColumnBinding.t) : Prop :=
  ColumnBinding.table_index new = LogicalGet.table_index get /\
  exists column,
    nth_error (Index.column_ids index) (ColumnBinding.column_index old) = Some column /\
    ColumnBinding.column_index new =
    match find_column (LogicalGet.column_ids get) column 0 with
    | Some i => i
    | None => ColumnBinding.column_index old
    end.

(** [f(operands)] as the single predicate of a filter over a scan. *)
Definition predicate_over_scan (return_type : LogicalType) (f : ScalarFunction.t)
    (operands : list Expression) (projection_map : list nat) (get : LogicalGet.t)
    (gc siblings : list LogicalOperator) : LogicalOperator :=
  LOGICAL_FILTER
    (LogicalFilter.mk [BoundFunctionExpression return_type f operands] projection_map)
    (LOGICAL_GET get gc :: siblings).

(* ===================================================================== *)
(** * The logical operator [LogicalCreateRTreeIndex] *)
(* ===================================================================== *)

(** The constructor: [unbound_expressions] receives a copy of every key
    expression and [expressions] the key expressions themselves.
    [scan_types] and [column_ids] stand for [info_p]; the estimated
    cardinality is the initial value of [LogicalOperator]. *)
Definition LogicalCreateRTreeIndex_new (scan_types : list LogicalType)
    (column_ids : list nat) (expressions_p : list Expression)
  : LogicalCreateRTreeIndex.t :=
  let Copy := fun expr : Expression => expr in
  let unbound_expressions :=
    fold_left (fun unbound expr => (unbound ++ [Copy expr])%list) expressions_p [] in
  LogicalCreateRTreeIndex.mk unbound_expressions expressions_p scan_types column_ids 0.

Section LogicalCreateRTreeIndex_CreatePlan.

(** [planner.dependencies], a [LogicalDependencyList] of the engine, and its
    [AddDependency]. *)
Variable LogicalDependencyList : Type.
Variable AddDependency :
  LogicalDependencyList -> TableCatalogEntry.t -> LogicalDependencyList.

(** The engine's [PhysicalPlanGenerator::CreatePlan]: the plan of the child
    or its exception, and the dependencies of the planner after the call. *)
Variable planner_CreatePlan :
  LogicalOperator -> LogicalDependencyList ->
  result PhysicalOperator * LogicalDependencyList.

(** [LogicalCreateRTreeIndex::CreatePlan], the entry point still kept
    beside [RTreeIndex::CreatePlan].  [table] is [op.table], [children] are
    the children of the operator and [dependencies] is
    [planner.dependencies]; the result is what the call returns or throws,
    and the dependencies of the planner at that moment. *)
Definition LogicalCreateRTreeIndex_CreatePlan (op : LogicalCreateRTreeIndex.t)
    (table : TableCatalogEntry.t) (children : list LogicalOperator)
    (dependencies : LogicalDependencyList)
  : result PhysicalOperator * LogicalDependencyList :=
  match vector_at children 0 with
  | Throw e => (Throw e, dependencies)
  | Return child =>
  match planner_CreatePlan child dependencies with
  | (Throw e, dependencies) => (Throw e, dependencies)
  | (Return table_scan, dependencies) =>
  (* Validate that we only have one expression *)
  if negb (Nat.eqb (List.length (LogicalCreateRTreeIndex.unbound_expressions op)) 1)
  then (Throw (BinderException
                 "RTree indexes can only be created over a single column."),
        dependencies)
  else
  match vector_at (LogicalCreateRTreeIndex.unbound_expressions op) 0 with
  | Throw e => (Throw e, dependencies)
  | Return expr =>
  (* Validate that we have the right type of expression *)
  if negb (LogicalType_eqb (Expression_return_type expr) GEOMETRY)
  then (Throw (BinderException
                 "RTree indexes can only be created over GEOMETRY columns."),
        dependencies)
  (* Validate that the expression does not have side effects *)
  else if negb (IsConsistent expr)
  then (Throw (BinderException
                 "RTree index keys cannot contain expressions with side effects."),
        dependencies)
  else
    (* table scan operator for index key columns and row IDs *)
    let dependencies := AddDependency dependencies table in
    ((* projection to execute expressions on the key columns *)
     geom_expr <- vector_at (LogicalCreateRTreeIndex.expressions op) 0 ;;
     let new_column_types := [Expression_return_type geom_expr; ROW_TYPE] in
     let select_list :=
       [geom_expr;
        BoundReferenceExpression ROW_TYPE
          (idx_t_pred (List.length (LogicalCreateRTreeIndex.scan_types op)))] in
     let projection :=
       push_back_child
         (PhysicalProjection new_column_types select_list
            (LogicalCreateRTreeIndex.estimated_cardinality op) [])
         table_scan in
     (* Filter operator for (IS_NOT_NULL) and (NOT ST_IsEmpty) *)
     null_filter0 <- CreateNullFilter op new_column_types ;;
     let null_filter := push_back_child null_filter0 projection in
     (* Project the bounding box and the row ID *)
     let projected_types := [BOX_2DF; ROW_TYPE] in
     bbox_proj0 <- CreateBoundingBoxProjection op projected_types ;;
     let bbox_proj := push_back_child bbox_proj0 null_filter in
     (* ORDER_BY operator to sort the bounding boxes *)
     physical_order0 <- CreateOrderByMinX op projected_types ;;
     let physical_order := push_back_child physical_order0 bbox_proj in
     (* the physical create index operator *)
     Return (push_back_child
               (PhysicalCreateRTreeIndex (LogicalCreateRTreeIndex.column_ids op)
                  (LogicalCreateRTreeIndex.unbound_expressions op)
                  (LogicalCreateRTreeIndex.estimated_cardinality op) [])
               physical_order),
     dependencies)
  end
  end
  end.

End LogicalCreateRTreeIndex_CreatePlan.

(** The failures of [CreatePlan] other than the validation errors: an
    exception of one of the engine's checked containers or of the catalog. *)
Definition is_internal_failure {A : Type} (r : result A) : Prop :=
  exists e, r = Throw e /\ forall msg, e <> BinderException msg.

(* ===================================================================== *)
(** * Further scalar functions of spatial_functions_scalar.cpp *)
(* ===================================================================== *)

(** The comparisons of C++ on [float] and [double]; a comparison with a NaN
    is false. *)
Definition double_lt (a b : spec_float) : bool := SFltb a b.

Definition double_gt (a b : spec_float) : bool :=
  match SFcompare a b with
  | Some Gt => true
  | _ => false
  end.

(** [std::min(a, b)] is [(b < a) ? b : a] and [std::max(a, b)] is
    [(a < b) ? b : a]. *)
Definition std_min (a b : spec_float) : spec_float := if double_lt b a then b else a.
Definition std_max (a b : spec_float) : spec_float := if double_lt a b then b else a.

Definition is_nan (a : spec_float) : bool :=
  match a with
  | S754_nan => true
  | _ => false
  end.

(** [std::numeric_limits<double>::max()] and [::lowest()]. *)
Definition DBL_MAX : float64 := double_lit (2 ^ 53 - 1) 971.
Definition DBL_LOWEST : float64 := double_lit (- (2 ^ 53 - 1)) 971.

(** One row of a [BOX_2D] vector as the generic executor hands it to the
    function: [StructTypeQuaternary<double, double, double, double>]. *)
Module StructTypeQuaternary.
Record t := mk {
  a_val : float64;  (** min_x *)
  b_val : float64;  (** min_y *)
  c_val : float64;  (** max_x *)
  d_val : float64   (** max_y *)
}.
End StructTypeQuaternary.

Module ST_Intersects.
(** [ExecuteBox]: [GenericExecutor::ExecuteBinary] answers NULL when one of
    the boxes is NULL and applies the lambda to every other row. *)
Definition ExecuteBox (left right : option StructTypeQuaternary.t) : option bool :=
  match left, right with
  | Some left_, Some right_ =>
      Some (negb (double_gt (StructTypeQuaternary.a_val left_)
                            (StructTypeQuaternary.c_val right_)
                  || double_lt (StructTypeQuaternary.c_val left_)
                               (StructTypeQuaternary.a_val right_)
                  || double_gt (StructTypeQuaternary.b_val left_)
                               (StructTypeQuaternary.d_val right_)
                  || double_lt (StructTypeQuaternary.d_val left_)
                               (StructTypeQuaternary.b_val right_)))
  | _, _ => None
  end.
End ST_Intersects.

(** ** [VertexAggFunctionBase]: ST_XMin, ST_XMax, ST_YMin, ST_YMax *)

Module VertexOrdinate.
Inductive t := X | Y | Z | M.
End VertexOrdinate.

(** The template parameter [AGG]. *)
Module AggOp.
Record t := mk {
  MIN_NOT_MAX : bool;
  Init : float64;
  Merge : float64 -> float64 -> float64
}.
End AggOp.

Definition VertexMinAggOp : AggOp.t := AggOp.mk true DBL_MAX std_min.
Definition VertexMaxAggOp : AggOp.t := AggOp.mk false DBL_LOWEST std_max.

(** A vertex of a [LINESTRING_2D] or [POLYGON_2D]: the entries of the two
    child vectors of the coordinate struct at one position. *)
Definition vertex := (float64 * float64)%type.

Module VertexAggFunctionBase.

(** [ordinate_data[i]] with [axis = OP::ORDINATE == VertexOrdinate::X ? 0 : 1]. *)
Definition ordinate (ORDINATE : VertexOrdinate.t) (v : vertex) : float64 :=
  match ORDINATE with
  | VertexOrdinate.X => fst v
  | _ => snd v
  end.

(** The loops [val = AGG::Init(); for (...) val = AGG::Merge(val, ordinate)]. *)
Definition aggregate (ORDINATE : VertexOrdinate.t) (AGG : AggOp.t) (vertices : list vertex)
  : float64 :=
  fold_left (fun val v => AggOp.Merge AGG val (ordinate ORDINATE v)) vertices
    (AggOp.Init AGG).

(** [ExecuteLineString]: a line is the list of its vertices, the slice
    [offset, offset + length) of the coordinate vector. *)
Definition ExecuteLineString (ORDINATE : VertexOrdinate.t) (AGG : AggOp.t)
    (line : option (list vertex)) : option float64 :=
  match line with
  | None => None
  | Some line =>
      (* Empty line, return NULL *)
      if Nat.eqb (List.length line) 0 then None
      else Some (aggregate ORDINATE AGG line)
  end.

(** [ExecutePolygon]: a polygon is the list of its rings; the loop runs
    over the positions [ring_offset .. ring_offset + ring_length - 2] of the
    shell. *)
Definition ExecutePolygon (ORDINATE : VertexOrdinate.t) (AGG : AggOp.t)
    (polygon : option (list (list vertex))) : option float64 :=
  match polygon with
  | None => None
  | Some polygon =>
      match polygon with
      | [] => None  (* Empty polygon, return NULL *)
      | shell_ring :: _ =>
          (* We only have to check the outer shell *)
          let ring_length := List.length shell_ring in
          if Nat.eqb ring_length 0 then None
          else Some (aggregate ORDINATE AGG (firstn (ring_length - 1) shell_ring))
      end
  end.

End VertexAggFunctionBase.

(** ** ST_QuadKey *)

(** [static_cast<int32_t>(d)]: the value truncated toward zero; [None] where
    the conversion is undefined (NaN, infinities, values outside
    [int32_t]). *)
Definition double_to_int32 (d : float64) : option Z :=
  match d with
  | S754_zero _ => Some 0%Z
  | S754_finite s m e =>
      let magnitude :=
        if Z.leb 0 e then (Z.pos m * 2 ^ e)%Z else (Z.pos m / 2 ^ (- e))%Z in
      let z := if s then (- magnitude)%Z else magnitude in
      if Z.leb (- 2 ^ 31) z && Z.leb z (2 ^ 31 - 1) then Some z else None
  | _ => None
  end.

(** The conversion [int32_t -> double]; it is exact. *)
Definition int32_to_double (z : Z) : float64 := binary_normalize 53 1024 z 0 false.

(** [1 << n] on [int]: [None] where the shift is undefined. *)
Definition int32_shl1 (n : Z) : option Z :=
  if Z.leb 0 n && Z.leb n 30 then Some (Z.shiftl 1 n) else None.

Definition double_add : float64 -> float64 -> float64 := SFadd 53 1024.
Definition double_div : float64 -> float64 -> float64 := SFdiv 53 1024.

Inductive QuadKeyResult :=
| QuadKey_NULL
| QuadKey_string (key : list ascii)
| QuadKey_InvalidInputException (msg : string)
| QuadKey_undefined.

Module ST_QuadKey.

(** [buffer[k] = c]; [None] for a write outside the buffer. *)
Fixpoint store (buffer : list ascii) (k : nat) (c : ascii) : option (list ascii) :=
  match buffer, k with
  | [], _ => None
  | _ :: rest, 0 => Some (c :: rest)
  | b :: rest, S k' =>
      match store rest k' c with
      | Some rest' => Some (b :: rest')
      | None => None
      end
  end.

(** The body of the loop of [GetQuadKey] for one value of [i]. *)
Definition digit (x y : Z) (i : Z) : ascii :=
  let digit := "0"%char in
  let mask := Z.shiftl 1 (i - 1) in
  let digit :=
    if negb (Z.eqb (Z.land x mask) 0) then ascii_of_nat (nat_of_ascii digit + 1)
    else digit in
  let digit :=
    if negb (Z.eqb (Z.land y mask) 0) then ascii_of_nat (nat_of_ascii digit + 2)
    else digit in
  digit.

(** The loop [for (int i = level; i > 0; --i) buffer[level - i] = digit],
    from [i] downwards. *)
Fixpoint write_digits (i : nat) (x y level : Z) (buffer : list ascii)
  : option (list ascii) :=
  match i with
  | 0 => Some buffer
  | S i' =>
      if Z.ltb (level - Z.of_nat i) 0 then None
      else
        match store buffer (Z.to_nat (level - Z.of_nat i)) (digit x y (Z.of_nat i)) with
        | Some buffer' => write_digits i' x y level buffer'
        | None => None
        end
  end.

Section GetQuadKey.

(** The value of the expression
    [(1.0 - std::log(std::tan(lat_rad) + 1.0 / std::cos(lat_rad)) / PI) / 2.0
     * (1 << level)] with [lat_rad = lat * PI / 180.0]: it is computed by
    the functions of the C library. *)
Variable latitude_row : float64 -> Z -> float64.

(** [GetQuadKey]: the buffer after the call. *)
Definition GetQuadKey (lon lat : float64) (level : Z) (buffer : list ascii)
  : option (list ascii) :=
  (* 85.05112878 as a double is 5984941123141376 * 2^-46 *)
  let lat := std_max (double_lit (- 5984941123141376) (-46))
               (std_min (double_lit 5984941123141376 (-46)) lat) in
  let lon := std_max (double_lit (- 180) 0) (std_min (double_lit 180 0) lon) in
  match int32_shl1 level with
  | None => None
  | Some tiles =>
      match double_to_int32
              (double_mul (double_div (double_add lon (double_lit 180 0))
                             (double_lit 360 0))
                 (int32_to_double tiles)),
            double_to_int32 (latitude_row lat level) with
      | Some x, Some y => write_digits (Z.to_nat level) x y level buffer
      | _, _ => None
      end
  end.

(** The lambda of [ExecuteLonLat] on one row; [buffer] is the content of the
    uninitialised [char buffer[64]]. *)
Definition ExecuteLonLat (buffer : list ascii) (lon lat : option float64)
    (level : option Z) : QuadKeyResult :=
  match lon, lat, level with
  | Some lon, Some lat, Some level =>
      if Z.ltb level 1 || Z.ltb 23 level
      then QuadKey_InvalidInputException "ST_QuadKey: Level must be between 1 and 23"
      else
        match GetQuadKey lon lat level buffer with
        | Some buffer' => QuadKey_string (firstn (Z.to_nat level) buffer')
        | None => QuadKey_undefined
        end
  | _, _, _ => QuadKey_NULL
  end.

End GetQuadKey.

End ST_QuadKey.

(* ===================================================================== *)
(** * Vocabulary of the properties, continued *)
(* ===================================================================== *)

(** [scan] is the R-tree index scan that takes the place of [get]: its
    access function is [rtree_index_scan], its bind data is [bind_data], its
    estimated cardinality is the answer of the [cardinality] callback, and
    it reads the same table through the same column ids, with the same
    filters, as [get] did. *)
Definition is_index_scan_of
    (cardinality : RTreeIndexScanBindData.t -> NodeStatistics.t)
    (get : LogicalGet.t) (bind_data : RTreeIndexScanBindData.t)
    (scan : LogicalGet.t) : Prop :=
  TableFunction.name (LogicalGet.function scan) = "rtree_index_scan" /\
  LogicalGet.bind_data scan = RTreeIndexScanBindData_ bind_data /\
  LogicalGet.has_estimated_cardinality scan =
    NodeStatistics.has_estimated_cardinality (cardinality bind_data) /\
  LogicalGet.estimated_cardinality scan =
    NodeStatistics.estimated_cardinality (cardinality bind_data) /\
  LogicalGet.table_index scan = LogicalGet.table_index get /\
  LogicalGet.returned_types scan = LogicalGet.returned_types get /\
  LogicalGet.column_ids scan = LogicalGet.column_ids get /\
  LogicalGet.table_filters scan = LogicalGet.table_filters get /\
  LogicalGet.dynamic_filters scan = LogicalGet.dynamic_filters get /\
  LogicalGet.table scan = LogicalGet.table get.

(** The subtree of [plan] that [path] leads to: each entry of the path is
    the position of a child. *)
Fixpoint subtree_at (path : list nat) (plan : LogicalOperator)
  : option LogicalOperator :=
  match path with
  | [] => Some plan
  | i :: rest =>
      match nth_error (children_of plan) i with
      | Some child => subtree_at rest child
      | None => None
      end
  end.

Section Traversal.

Variable Equals : Expression -> Expression -> bool.
Variable ToExpression : TableFilter -> Expression -> Expression.
Variable cardinality : RTreeIndexScanBindData.t -> NodeStatistics.t.

(** No node above the one at [path] is matched by [TryOptimize]: the
    subtree at [path] is not part of a match further up. *)
Fixpoint not_below_a_match (path : list nat) (plan : LogicalOperator) : bool :=
  match path with
  | [] => true
  | i :: rest =>
      match fst (TryOptimize Equals ToExpression cardinality plan) with
      | Return false =>
          match nth_error (children_of plan) i with
          | Some child => not_below_a_match rest child
          | None => false
          end
      | _ => false
      end
  end.

End Traversal.

(** The pair of the bounding box that the blob of the geometry caches
    (NULL when there is no geometry or the blob caches none) and the row
    id. *)
Definition bounds_row (r : key_row) : Row :=
  [match fst r with
   | Some g =>
       match geometry_t.cached_bounds g with
       | Some bbox => D_BOX_2DF bbox
       | None => D_NULL
       end
   | None => D_NULL
   end;
   D_BIGINT (snd r)].

(** ** The functions behind the names of the allow-list *)









(* ===================================================================== *)
(** * Further sample data *)
(* ===================================================================== *)

Module Fixtures.

(** A table [u(id BIGINT, geom GEOMETRY, price INTEGER)] whose only index
    is an ART index on [id]. *)
Definition art_index : Index.t :=
  Index.mk "ART" [BoundColumnRefExpression BIGINT (ColumnBinding.mk 0 0)] [0].

Definition u : TableCatalogEntry.t := TableCatalogEntry.mk true [art_index].

(** [Projection -> Filter(ST_Intersects(geom, query)) -> Scan(u)] *)
Definition scan_u : LogicalGet.t :=
  LogicalGet.mk 0 (TableFunction.mk "seq_scan") TableScanBindData
    [BIGINT; GEOMETRY; INTEGER] [1; 2] [] [Sample.price_gt_10] None (Some u) true 1000.

Definition plan_over_u : LogicalOperator :=
  LOGICAL_OPERATOR LOGICAL_PROJECTION_ []
    [LOGICAL_FILTER (LogicalFilter.mk [Sample.intersects Sample.query] [])
       [LOGICAL_GET scan_u []]].

(** [Projection -> Filter(ST_Intersects(geom, query)) -> Scan(t)], with
    [price > 10] pushed into the scan. *)
Definition plan_over_t : LogicalOperator :=
  LOGICAL_OPERATOR LOGICAL_PROJECTION_ []
    [Sample.filter_over_scan Sample.query [Sample.price_gt_10]].

(** A table with the ART index before the R-tree index. *)
Definition v : TableCatalogEntry.t :=
  TableCatalogEntry.mk true [art_index; Sample.rtree_index].

Definition scan_v : LogicalGet.t :=
  LogicalGet.mk 0 (TableFunction.mk "seq_scan") TableScanBindData
    [BIGINT; GEOMETRY; INTEGER] [1; 2] [] [] None (Some v) true 1000.

(** A scan of [t] that reads [geom] and [price] and hands on [price], then
    [geom], with [price > 10] pushed into it; the filter above it hands on
    both of its input columns. *)
Definition projecting_scan : LogicalGet.t :=
  LogicalGet.mk 0 (TableFunction.mk "seq_scan") TableScanBindData
    [BIGINT; GEOMETRY; INTEGER] [1; 2] [1; 0] [Sample.price_gt_10] None
    (Some Sample.t) true 1000.

Definition projecting_filter : LogicalFilter.t :=
  LogicalFilter.mk [Sample.intersects Sample.query] [0; 1].

(** A table [g(geom GEOMETRY, name VARCHAR)] with an R-tree index on its
    first column, and a scan of it into which the predicate
    [ST_Intersects(geom, query)] has been pushed. *)
Definition g_index : Index.t :=
  Index.mk "RTREE" [BoundColumnRefExpression GEOMETRY (ColumnBinding.mk 0 0)] [0].

Definition g : TableCatalogEntry.t := TableCatalogEntry.mk true [g_index].

Definition pushed_predicate : Expression :=
  BoundFunctionExpression BOOLEAN Sample.ST_Intersects
    [BoundReferenceExpression GEOMETRY 0; BoundConstantExpression Sample.query].

Definition scan_g : LogicalGet.t :=
  LogicalGet.mk 0 (TableFunction.mk "seq_scan") TableScanBindData
    [GEOMETRY; VARCHAR] [0; 1] [] [(0, ExpressionFilter pushed_predicate)] None
    (Some g) true 1000.

(** [Union(Filter(ST_Intersects(geom, query)) -> Scan(t),
          Projection -> Filter(ST_Area(geom)) -> Scan(t))]: the root does not
    match, its first child does, its second child holds no match. *)
Definition union_plan : LogicalOperator :=
  LOGICAL_OPERATOR LOGICAL_UNION_ []
    [Sample.filter_over_scan Sample.query [Sample.price_gt_10];
     Sample.no_spatial_predicate].

(** The dependencies of a planner as the list of the tables added, the
    latest first, and a planner that answers with the scan of the sample
    table. *)
Definition AddDependency (dependencies : list TableCatalogEntry.t)
    (table : TableCatalogEntry.t) : list TableCatalogEntry.t :=
  table :: dependencies.

Definition planner_CreatePlan (child : LogicalOperator)
    (dependencies : list TableCatalogEntry.t)
  : result PhysicalOperator * list TableCatalogEntry.t :=
  (Return (PhysicalTableScan Sample.table_rows), dependencies).

(** A closed triangle. *)
Definition d (n : Z) : float64 := double_lit n 0.
Definition triangle : list vertex :=
  [(d 2, d 0); (d 5, d 1); (d 1, d 4); (d 2, d 0)].

(** The content of a buffer of 64 characters before it is written. *)
Definition buffer : list ascii := repeat "?"%char 64.

(** A stand-in for the row that the C library computes: the row of the
    equator, [2 ^ (level - 1)], whatever the latitude. *)
Definition latitude_row (lat : float64) (level : Z) : float64 :=
  int32_to_double (Z.shiftl 1 (level - 1)).

End Fixtures.

(** Case analysis on the scrutinee of the innermost [match] of the goal. *)
Ltac break_match :=
  match goal with
  | |- context [match ?x with _ => _ end] =>
      lazymatch x with
      | context [match _ with _ => _ end] => fail
      | _ => destruct x eqn:?
      end
  end.

(* ===================================================================== *)
(** * Facts about the plan rewriter *)
(* ===================================================================== *)

Section RewriterFacts.

Variable Equals : Expression -> Expression -> bool.
Variable ToExpression : TableFilter -> Expression -> Expression.
Variable cardinality : RTreeIndexScanBindData.t -> NodeStatistics.t.

Local Abbreviation TryOptimizeGet := (TryOptimizeGet Equals ToExpression cardinality).
Local Abbreviation TryOptimize := (TryOptimize Equals ToExpression cardinality).
Local Abbreviation OptimizeRecursive := (OptimizeRecursive Equals ToExpression cardinality).
Local Abbreviation try_expression_filters :=
  (try_expression_filters Equals ToExpression cardinality).
Local Abbreviation no_match := (no_match Equals ToExpression cardinality).
Local Abbreviation index_callback := (index_callback Equals).
Local Abbreviation pullup_filters := (pullup_filters ToExpression).
Local Abbreviation index_scan := (index_scan cardinality).
Local Abbreviation residual_predicate := (residual_predicate ToExpression).
Local Abbreviation rewritten_scan := (rewritten_scan ToExpression cardinality).
Local Abbreviation FunctionExpressionMatcher_Match := (FunctionExpressionMatcher_Match Equals).

(** ** A rewrite that reports no match leaves the plan as it was *)

Lemma TryOptimizeGet_false_unchanged :
  forall st idx e st',
    TryOptimizeGet st idx e = (Return false, st') -> st' = st.
Proof.
  intros st idx e st'. unfold TryOptimizeGet.
  repeat break_match; intros H; inversion H; subst; try reflexivity.
Qed.

Lemma try_expression_filters_false_unchanged :
  forall filters st st',
    try_expression_filters st filters = (Return false, st') -> st' = st.
Proof.
  induction filters as [|entry rest IH]; simpl; intros st st' H.
  - inversion H; reflexivity.
  - destruct (snd entry); try (apply IH; assumption).
    destruct (TryOptimizeGet st (Some (fst entry)) expr) as [[[|]|] st1] eqn:E;
      try discriminate.
    apply TryOptimizeGet_false_unchanged in E. subst st1. apply IH; assumption.
Qed.

Lemma TryOptimize_false_unchanged :
  forall plan plan',
    TryOptimize plan = (Return false, plan') -> plan' = plan.
Proof.
  intros plan plan'. destruct plan as [get cs|filter cs|t es cs]; simpl.
  - destruct (try_expression_filters _ _) as [r st1] eqn:E. simpl.
    intros H. inversion H; subst.
    apply try_expression_filters_false_unchanged in E. subst. reflexivity.
  - destruct (LogicalFilter.expressions filter) as [|e [|]];
      try (intros H; inversion H; reflexivity).
    destruct cs as [|[get gc| |] siblings]; try (intros H; inversion H; reflexivity).
    destruct (TryOptimizeGet _ _ _) as [r st1] eqn:E. simpl.
    intros H. inversion H; subst.
    apply TryOptimizeGet_false_unchanged in E. subst. reflexivity.
  - intros H; inversion H; reflexivity.
Qed.

(** ** The traversal *)

Lemma height_children :
  forall plan n, height plan <= S n ->
    Forall (fun c => height c <= n) (children_of plan).
Proof.
  intros plan n H.
  assert (G : list_max (map height (children_of plan)) <= n)
    by (destruct plan; simpl in *; lia).
  apply list_max_le in G. rewrite Forall_map in G. exact G.
Qed.

Lemma set_children_children_of :
  forall plan, set_children plan (children_of plan) = plan.
Proof. destruct plan; reflexivity. Qed.

Lemma no_match_unfold :
  forall plan,
    no_match plan =
    match fst (TryOptimize plan) with
    | Return false => forallb no_match (children_of plan)
    | _ => false
    end.
Proof. destruct plan; reflexivity. Qed.

Lemma no_match_inv :
  forall plan, no_match plan = true ->
    fst (TryOptimize plan) = Return false /\
    forallb no_match (children_of plan) = true.
Proof.
  intros plan H. rewrite no_match_unfold in H.
  destruct (fst (TryOptimize plan)) as [[|]|]; try discriminate.
  split; [reflexivity | exact H].
Qed.

Lemma optimize_children_fixed :
  forall rec cs,
    Forall (fun c => rec c = Some (Return tt, c)) cs ->
    optimize_children rec cs = Some (Return tt, cs).
Proof.
  intros rec cs H. induction H as [|c cs Hc _ IH]; simpl.
  - reflexivity.
  - rewrite Hc, IH. reflexivity.
Qed.

Lemma optimize_children_total :
  forall rec cs,
    Forall (fun c => exists r, rec c = Some r) cs ->
    exists r, optimize_children rec cs = Some r.
Proof.
  intros rec cs H. induction H as [|c cs [[r c'] Hc] _ [[r' cs'] IH]]; simpl.
  - eexists; reflexivity.
  - rewrite Hc, IH. destruct r as [[]|e]; eexists; reflexivity.
Qed.

Lemma OptimizeRecursive_S :
  forall fuel plan,
    OptimizeRecursive (S fuel) plan =
    match TryOptimize plan with
    | (Return true, plan') => Some (Return tt, plan')
    | (Throw e, plan') => Some (Throw e, plan')
    | (Return false, plan') =>
        match optimize_children (OptimizeRecursive fuel) (children_of plan') with
        | None => None
        | Some (r, children') => Some (r, set_children plan' children')
        end
    end.
Proof. reflexivity. Qed.

Lemma OptimizeRecursive_no_match :
  forall fuel plan,
    height plan <= fuel -> no_match plan = true ->
    OptimizeRecursive fuel plan = Some (Return tt, plan).
Proof.
  induction fuel as [|fuel IH]; intros plan Hh Hn.
  - destruct plan; simpl in Hh; lia.
  - apply no_match_inv in Hn. destruct Hn as [Hr Hc].
    simpl. destruct (TryOptimize plan) as [r plan'] eqn:E.
    simpl in Hr. subst r.
    apply TryOptimize_false_unchanged in E. subst plan'.
    rewrite optimize_children_fixed.
    + rewrite set_children_children_of. reflexivity.
    + apply height_children in Hh. rewrite forallb_forall in Hc.
      rewrite Forall_forall in *. intros c Hin. apply IH; auto.
Qed.

Lemma OptimizeRecursive_total :
  forall fuel plan,
    height plan <= fuel -> exists r, OptimizeRecursive fuel plan = Some r.
Proof.
  induction fuel as [|fuel IH]; intros plan Hh.
  - destruct plan; simpl in Hh; lia.
  - simpl. destruct (TryOptimize plan) as [[[|]|e] plan'] eqn:E;
      try (eexists; reflexivity).
    apply TryOptimize_false_unchanged in E. subst plan'.
    destruct (@optimize_children_total (OptimizeRecursive fuel) (children_of plan))
      as [[r cs] Hr].
    + apply height_children in Hh. rewrite Forall_forall in *.
      intros c Hin. apply IH; auto.
    + rewrite Hr. eexists; reflexivity.
Qed.



(** ** The pull-up of the pushed-down filters *)

Lemma find_column_spec :
  forall column_ids column k i,
    find_column column_ids column k = Some i ->
    k <= i /\
    nth_error column_ids (i - k) = Some column /\
    (forall j, j < i - k -> nth_error column_ids j <> Some column).
Proof.
  induction column_ids as [|c rest IH]; simpl; intros column k i H.
  - discriminate.
  - destruct (Nat.eqb c column) eqn:E.
    + inversion H; subst. apply Nat.eqb_eq in E. subst.
      rewrite Nat.sub_diag. simpl. repeat split; auto. intros j Hj. lia.
    + apply IH in H. destruct H as (Hle & Hn & Hf).
      apply Nat.eqb_neq in E.
      replace (i - k) with (S (i - S k)) by lia. simpl.
      repeat split; try lia; auto.
      intros [|j] Hj; simpl.
      * congruence.
      * apply Hf. lia.
Qed.

Lemma find_column_none :
  forall column_ids column k,
    find_column column_ids column k = None -> ~ In column column_ids.
Proof.
  induction column_ids as [|c rest IH]; simpl; intros column k H.
  - tauto.
  - destruct (Nat.eqb c column) eqn:E; try discriminate.
    apply Nat.eqb_neq in E. intros [Hc|Hin]; [congruence|].
    eapply IH; eauto.
Qed.

Lemma pullup_filters_residual :
  forall get filters predicates,
    pullup_filters get filters = Return predicates ->
    Forall2 (residual_predicate get) filters predicates.
Proof.
  intros get. induction filters as [|entry rest IH]; simpl; intros predicates H.
  - inversion H. constructor.
  - unfold vector_at in H.
    destruct (nth_error (LogicalGet.returned_types get) (fst entry)) as [type|] eqn:Et;
      simpl in H; try discriminate.
    destruct (find_column (LogicalGet.column_ids get) (fst entry) 0) as [i|] eqn:Ef;
      try discriminate.
    destruct (pullup_filters get rest) as [ps|] eqn:Er; simpl in H; try discriminate.
    inversion H; subst. constructor.
    + apply find_column_spec in Ef. destruct Ef as (_ & Hn & Hf).
      rewrite Nat.sub_0_r in *.
      exists type, i. repeat split; auto.
    + apply IH. reflexivity.
Qed.

Lemma pullup_filters_same_columns :
  forall get get' filters,
    LogicalGet.returned_types get' = LogicalGet.returned_types get ->
    LogicalGet.column_ids get' = LogicalGet.column_ids get ->
    LogicalGet.table_index get' = LogicalGet.table_index get ->
    pullup_filters get' filters = pullup_filters get filters.
Proof.
  intros get get' filters Ht Hc Hi. induction filters as [|entry rest IH]; simpl.
  - reflexivity.
  - rewrite Ht, Hc, Hi, IH. reflexivity.
Qed.

Lemma residual_predicate_same_columns :
  forall get get' entry e,
    LogicalGet.returned_types get' = LogicalGet.returned_types get ->
    LogicalGet.column_ids get' = LogicalGet.column_ids get ->
    LogicalGet.table_index get' = LogicalGet.table_index get ->
    residual_predicate get' entry e -> residual_predicate get entry e.
Proof.
  intros get get' entry e Ht Hc Hi (type & i & H1 & H2 & H3 & H4).
  exists type, i. rewrite <- Ht, <- Hc, <- Hi. auto.
Qed.

Lemma remap_filter_expressions :
  forall projection_ids filter,
    option_map LogicalFilter.expressions (snd (remap_filter projection_ids filter)) =
    option_map LogicalFilter.expressions filter.
Proof.
  intros [|p ps] [f|]; reflexivity.
Qed.

(** ** What a successful rewrite of a scan looks like *)

Lemma TryOptimizeGet_true :
  forall st idx e st',
    TryOptimizeGet st idx e = (Return true, st') ->
    exists get gc table bind_data,
      RewriteState.get_ptr st = LOGICAL_GET get gc /\
      plain_scan_of get table /\
      BindAndScan (TableCatalogEntry.indexes table) (index_callback table get idx e)
        = Return (Some bind_data) /\
      rewritten_scan get gc bind_data (RewriteState.get_ptr st') /\
      option_map LogicalFilter.expressions (RewriteState.filter st') =
      option_map LogicalFilter.expressions (RewriteState.filter st).
Proof.
  intros st idx e st'. unfold TryOptimizeGet.
  destruct (RewriteState.get_ptr st) as [get gc| |] eqn:Eg; try discriminate.
  destruct (negb (String.eqb _ _)) eqn:En; try discriminate.
  destruct (match LogicalGet.dynamic_filters get with Some b => b | None => false end)
    eqn:Ed; try discriminate.
  destruct (LogicalGet.table get) as [table|] eqn:Et; try discriminate.
  destruct (negb (TableCatalogEntry.IsDuckTable table)) eqn:Ek; try discriminate.
  destruct (BindAndScan _ _) as [[bd|]|] eqn:Eb; try discriminate.
  assert (Hplain : plain_scan_of get table).
  { unfold plain_scan_of. apply negb_false_iff in En, Ek.
    apply String.eqb_eq in En. repeat split; auto.
    intros Hd. rewrite Hd in Ed. discriminate. }
  change (LogicalGet.table_filters (index_scan get bd))
    with (LogicalGet.table_filters get).
  destruct (LogicalGet.table_filters get) as [|entry rest] eqn:Ef.
  - intros H. inversion H; subst. simpl.
    exists get, gc, table, bd.
    split; [reflexivity|]. split; [exact Hplain|]. split; [exact Eb|].
    split; [|reflexivity].
    unfold rewritten_scan. rewrite Ef. reflexivity.
  - destruct (remap_filter _ _) as [r filter'] eqn:Er. simpl.
    destruct r as [[]|]; try discriminate.
    change (LogicalGet.table_filters
              (LogicalGet.clear_projection_ids (index_scan get bd)))
      with (LogicalGet.table_filters get).
    rewrite Ef.
    destruct (pullup_filters _ _) as [predicates|] eqn:Ep; try discriminate.
    intros H. inversion H; subst. simpl.
    exists get, gc, table, bd.
    split; [reflexivity|]. split; [exact Hplain|]. split; [exact Eb|].
    split.
    + unfold rewritten_scan. rewrite Ef.
      exists predicates. split; [|reflexivity].
      apply pullup_filters_residual in Ep.
      eapply Forall2_impl; [|exact Ep].
      intros a b. apply residual_predicate_same_columns; reflexivity.
    + pose proof (remap_filter_expressions
                    (LogicalGet.projection_ids (index_scan get bd))
                    (RewriteState.filter st)) as Hx.
      rewrite Er in Hx. exact Hx.
Qed.

Lemma try_expression_filters_true :
  forall filters st st',
    try_expression_filters st filters = (Return true, st') ->
    exists column expr,
      In (column, ExpressionFilter expr) filters /\
      TryOptimizeGet st (Some column) expr = (Return true, st').
Proof.
  induction filters as [|[column f] rest IH]; simpl; intros st st' H.
  - discriminate.
  - destruct f as [| | |expr];
      try (destruct (IH _ _ H) as (c & x & Hin & Ht); exists c, x; auto).
    destruct (TryOptimizeGet st (Some column) expr) as [[[|]|] st1] eqn:E;
      try discriminate.
    + inversion H; subst. exists column, expr. auto.
    + apply TryOptimizeGet_false_unchanged in E. subst st1.
      destruct (IH _ _ H) as (c & x & Hin & Ht). exists c, x. auto.
Qed.

(** ** After a match *)

Lemma TryOptimizeGet_after_match :
  forall st idx e get gc table bind_data,
    RewriteState.get_ptr st = LOGICAL_GET get gc ->
    plain_scan_of get table ->
    BindAndScan (TableCatalogEntry.indexes table) (index_callback table get idx e)
      = Return (Some bind_data) ->
    TryOptimizeGet st idx e =
    match LogicalGet.table_filters get with
    | [] =>
        (Return true,
         RewriteState.mk (LOGICAL_GET (index_scan get bind_data) gc)
           (RewriteState.filter st))
    | _ :: _ =>
        let remapped :=
          remap_filter (LogicalGet.projection_ids get) (RewriteState.filter st) in
        let get2 := LogicalGet.clear_projection_ids (index_scan get bind_data) in
        match fst remapped with
        | Throw ex =>
            (Throw ex,
             RewriteState.mk (LOGICAL_GET (index_scan get bind_data) gc) (snd remapped))
        | Return _ =>
            match pullup_filters get (LogicalGet.table_filters get) with
            | Throw ex => (Throw ex, RewriteState.mk (LOGICAL_GET get2 gc) (snd remapped))
            | Return expressions =>
                (Return true,
                 RewriteState.mk
                   (LOGICAL_FILTER (LogicalFilter.mk expressions [])
                      [LOGICAL_GET get2 gc])
                   (snd remapped))
            end
        end
    end.
Proof.
  intros st idx e get gc table bd Hg (Hn & Hd & Ht & Hk) Hb.
  unfold TryOptimizeGet. rewrite Hg, Hn, Ht, Hk, Hb. simpl.
  replace (match LogicalGet.dynamic_filters get with
           | Some HasFilters => HasFilters
           | None => false
           end) with false
    by (destruct (LogicalGet.dynamic_filters get) as [[|]|]; congruence).
  destruct (LogicalGet.table_filters get) as [|entry rest] eqn:Ef; [reflexivity|].
  simpl.
  destruct (fst (remap_filter (LogicalGet.projection_ids get) (RewriteState.filter st)));
    [|reflexivity].
  rewrite (@pullup_filters_same_columns get
             (LogicalGet.clear_projection_ids (index_scan get bd)))
    by reflexivity.
  reflexivity.
Qed.

Lemma find_column_some :
  forall column_ids column k,
    In column column_ids -> exists i, find_column column_ids column k = Some i.
Proof.
  intros column_ids column k H.
  destruct (find_column column_ids column k) as [i|] eqn:E.
  - exists i. reflexivity.
  - apply find_column_none in E. contradiction.
Qed.

(** Every pushed-down filter is on a column the scan reads and knows the
    type of. *)
Lemma pullup_filters_returns :
  forall get filters,
    Forall (fun entry =>
              In (fst entry) (LogicalGet.column_ids get) /\
              fst entry < List.length (LogicalGet.returned_types get)) filters ->
    exists predicates, pullup_filters get filters = Return predicates.
Proof.
  intros get filters H. induction H as [|entry rest [Hin Hlt] _ [ps IH]]; simpl.
  - eexists. reflexivity.
  - unfold vector_at.
    destruct (nth_error (LogicalGet.returned_types get) (fst entry)) as [type|] eqn:Et.
    + destruct (@find_column_some (LogicalGet.column_ids get) (fst entry) 0 Hin)
        as [i Hi].
      simpl. rewrite Hi, IH. eexists. reflexivity.
    + apply nth_error_None in Et. lia.
Qed.


(** C1: whenever [TryOptimize] matches a plan node, the scan is replaced
    in its place as follows.  With filters pushed into the scan, by one new
    filter, with an empty projection map, over the scan turned into the
    R-tree index scan (access function, bind data and cardinality of the
    index scan; table, column ids and pushed-down filters as before) with
    its projection ids cleared, so that its output columns are its column
    ids; the new filter carries, in order, the residual predicate of every
    pushed-down filter, each over the position of its column among the
    column ids of that scan.  Without pushed-down filters, by the index scan
    alone, projection ids untouched and no filter added.  And the rewrite of
    a plain scan does match once an index is found, provided every
    pushed-down filter is on a column the scan reads (and the projection map
    of the parent filter is in range). *)
Theorem TryOptimize_wraps_residual_filters :
  forall plan,
    (forall plan',
        TryOptimize plan = (Return true, plan') ->
        exists get gc table bind_data new,
          plain_scan_of get table /\
          (exists idx e,
              BindAndScan (TableCatalogEntry.indexes table)
                (index_callback table get idx e) = Return (Some bind_data)) /\
          match LogicalGet.table_filters get with
          | [] =>
              exists scan,
                new = LOGICAL_GET scan gc /\
                is_index_scan_of cardinality get bind_data scan /\
                LogicalGet.projection_ids scan = LogicalGet.projection_ids get
          | _ :: _ =>
              exists predicates scan,
                new = LOGICAL_FILTER (LogicalFilter.mk predicates [])
                        [LOGICAL_GET scan gc] /\
                is_index_scan_of cardinality get bind_data scan /\
                LogicalGet.projection_ids scan = [] /\
                Forall2 (residual_predicate scan) (LogicalGet.table_filters scan)
                  predicates
          end /\
          ((plan = LOGICAL_GET get gc /\ plan' = new) \/
           (exists filter filter' siblings,
               plan = LOGICAL_FILTER filter (LOGICAL_GET get gc :: siblings) /\
               plan' = LOGICAL_FILTER filter' (new :: siblings) /\
               LogicalFilter.expressions filter' = LogicalFilter.expressions filter))) /\
    (forall filter e get gc siblings table bind_data,
        plan = LOGICAL_FILTER filter (LOGICAL_GET get gc :: siblings) ->
        LogicalFilter.expressions filter = [e] ->
        plain_scan_of get table ->
        BindAndScan (TableCatalogEntry.indexes table)
          (index_callback table get None e) = Return (Some bind_data) ->
        fst (remap_filter (LogicalGet.projection_ids get) (Some filter)) = Return tt ->
        Forall (fun entry =>
                  In (fst entry) (LogicalGet.column_ids get) /\
                  fst entry < List.length (LogicalGet.returned_types get))
               (LogicalGet.table_filters get) ->
        fst (TryOptimize plan) = Return true).
Proof.
  assert (Hscan : forall get gc bd new,
            rewritten_scan get gc bd new ->
            match LogicalGet.table_filters get with
            | [] =>
                exists scan,
                  new = LOGICAL_GET scan gc /\
                  is_index_scan_of cardinality get bd scan /\
                  LogicalGet.projection_ids scan = LogicalGet.projection_ids get
            | _ :: _ =>
                exists predicates scan,
                  new = LOGICAL_FILTER (LogicalFilter.mk predicates [])
                          [LOGICAL_GET scan gc] /\
                  is_index_scan_of cardinality get bd scan /\
                  LogicalGet.projection_ids scan = [] /\
                  Forall2 (residual_predicate scan) (LogicalGet.table_filters scan)
                    predicates
            end).
  { intros get gc bd new Hr. unfold rewritten_scan in Hr.
    destruct (LogicalGet.table_filters get) as [|entry rest] eqn:Ef.
    - exists (index_scan get bd). split; [exact Hr|]. split; [|reflexivity].
      unfold is_index_scan_of. simpl. repeat split; reflexivity.
    - destruct Hr as (predicates & Hres & Hnew).
      exists predicates, (LogicalGet.clear_projection_ids (index_scan get bd)).
      split; [exact Hnew|]. split; [|split; [reflexivity|]].
      + unfold is_index_scan_of. simpl. repeat split; reflexivity.
      + change (LogicalGet.table_filters
                  (LogicalGet.clear_projection_ids (index_scan get bd)))
          with (LogicalGet.table_filters get).
        rewrite Ef. eapply Forall2_impl; [|exact Hres].
        intros a b. apply residual_predicate_same_columns; reflexivity. }
  intros plan. split.
  - intros plan' H. destruct plan as [get gc|filter cs|t es cs]; simpl in H.
    + destruct (try_expression_filters _ _) as [r st1] eqn:E. simpl in H.
      inversion H; subst.
      apply try_expression_filters_true in E. destruct E as (column & expr & _ & E).
      apply TryOptimizeGet_true in E.
      destruct E as (get' & gc' & table & bd & Hg & Hp & Hb & Hr & _).
      simpl in Hg. inversion Hg; subst get' gc'.
      exists get, gc, table, bd, (RewriteState.get_ptr st1).
      split; [exact Hp|]. split; [exists (Some column), expr; exact Hb|].
      split; [apply Hscan; exact Hr|]. left. auto.
    + destruct (LogicalFilter.expressions filter) as [|e [|]] eqn:Ee; try discriminate.
      destruct cs as [|[get gc| |] siblings]; try discriminate.
      destruct (TryOptimizeGet _ _ _) as [r st1] eqn:E. simpl in H.
      inversion H; subst.
      apply TryOptimizeGet_true in E.
      destruct E as (get' & gc' & table & bd & Hg & Hp & Hb & Hr & Hf).
      simpl in Hg. inversion Hg; subst get' gc'.
      exists get, gc, table, bd, (RewriteState.get_ptr st1).
      split; [exact Hp|]. split; [exists None, e; exact Hb|].
      split; [apply Hscan; exact Hr|]. right.
      eexists filter, _, siblings. split; [reflexivity|]. split; [reflexivity|].
      simpl in Hf. destruct (RewriteState.filter st1) as [f'|]; simpl in Hf.
      * congruence.
      * discriminate.
    + discriminate.
  - intros filter e get gc siblings table bd -> He Hp Hb Hr Hcols.
    unfold TryOptimize. rewrite He.
    rewrite (@TryOptimizeGet_after_match _ None e get gc table bd);
      [|reflexivity|exact Hp|exact Hb].
    cbn [RewriteState.filter].
    destruct (LogicalGet.table_filters get) as [|entry rest] eqn:Ef; [reflexivity|].
    cbv zeta. rewrite Hr.
    destruct (@pullup_filters_returns get (entry :: rest) Hcols) as [ps Hps].
    rewrite Hps. reflexivity.
Qed.

(** C3: a filter with one predicate over a plain scan of a table that has
    an index for the predicate, with nothing pushed into the scan, is
    rewritten in place.  The scan becomes the R-tree index scan: its access
    function is [rtree_index_scan], its bind data is the bind data of the
    index found, its cardinality is the estimate of the index scan, and its
    other fields are those of the scan; the filter stays as it was and no
    filter is added to the plan. *)
Theorem TryOptimize_filter_over_scan_adds_no_filter :
  forall filter_expr projection_map get gc siblings table bind_data,
    plain_scan_of get table ->
    BindAndScan (TableCatalogEntry.indexes table)
      (index_callback table get None filter_expr) = Return (Some bind_data) ->
    LogicalGet.table_filters get = [] ->
    TryOptimize
      (LOGICAL_FILTER (LogicalFilter.mk [filter_expr] projection_map)
         (LOGICAL_GET get gc :: siblings)) =
    (Return true,
     LOGICAL_FILTER (LogicalFilter.mk [filter_expr] projection_map)
       (LOGICAL_GET
          (LogicalGet.mk
             (LogicalGet.table_index get)
             (TableFunction.mk "rtree_index_scan")
             (RTreeIndexScanBindData_ bind_data)
             (LogicalGet.returned_types get)
             (LogicalGet.column_ids get)
             (LogicalGet.projection_ids get)
             []
             (LogicalGet.dynamic_filters get)
             (LogicalGet.table get)
             (NodeStatistics.has_estimated_cardinality (cardinality bind_data))
             (NodeStatistics.estimated_cardinality (cardinality bind_data)))
          gc :: siblings)).
Proof.
  intros filter_expr pm get gc siblings table bd Hp Hb Hf.
  unfold TryOptimize. cbn [LogicalFilter.expressions].
  rewrite (@TryOptimizeGet_after_match _ None filter_expr get gc table bd);
    [|reflexivity|exact Hp|exact Hb].
  rewrite Hf. cbn [fst snd RewriteState.get_ptr RewriteState.filter].
  unfold index_scan, LogicalGet.replace_scan, RTreeIndexScanFunction_GetFunction.
  rewrite Hf. reflexivity.
Qed.

Lemma pullup_filters_missing_column :
  forall get before column f after predicates type,
    pullup_filters get before = Return predicates ->
    nth_error (LogicalGet.returned_types get) column = Some type ->
    find_column (LogicalGet.column_ids get) column 0 = None ->
    pullup_filters get (before ++ (column, f) :: after)%list =
    Throw (InternalException "Could not find column id for filter").
Proof.
  intros get. induction before as [|entry rest IH];
    simpl; intros column f after predicates type Hb Ht Hf.
  - unfold vector_at. rewrite Ht. simpl. rewrite Hf. reflexivity.
  - destruct (vector_at (LogicalGet.returned_types get) (fst entry)); simpl in *;
      try discriminate.
    destruct (find_column (LogicalGet.column_ids get) (fst entry) 0); try discriminate.
    destruct (pullup_filters get rest) eqn:Er; simpl in Hb; try discriminate.
    erewrite IH; eauto.
Qed.

(** C9: once an index has been found, the scan is switched to the index
    scan before the pushed-down filters are pulled up.  When a pushed-down
    filter is on a column that is not among the column ids of the scan (the
    filters before it being pulled up without error), [TryOptimizeGet] throws
    an [InternalException] and leaves the scan with the new access function,
    the new cardinality estimate, the new bind data and cleared projection
    ids, not wrapped in a filter and still holding its table filters; the
    traversal of a filter over that scan ends with the same exception and
    the half-rewritten plan. *)
Theorem TryOptimizeGet_throws_after_switching_the_scan :
  forall st idx e get gc table bind_data before column f after predicates type,
    RewriteState.get_ptr st = LOGICAL_GET get gc ->
    plain_scan_of get table ->
    BindAndScan (TableCatalogEntry.indexes table) (index_callback table get idx e)
      = Return (Some bind_data) ->
    fst (remap_filter (LogicalGet.projection_ids get) (RewriteState.filter st))
      = Return tt ->
    LogicalGet.table_filters get = (before ++ (column, f) :: after)%list ->
    pullup_filters get before = Return predicates ->
    nth_error (LogicalGet.returned_types get) column = Some type ->
    ~ In column (LogicalGet.column_ids get) ->
    exists get',
      TryOptimizeGet st idx e =
      (Throw (InternalException "Could not find column id for filter"),
       RewriteState.mk (LOGICAL_GET get' gc)
         (snd (remap_filter (LogicalGet.projection_ids get) (RewriteState.filter st)))) /\
      get' = LogicalGet.clear_projection_ids (index_scan get bind_data) /\
      LogicalGet.function get' = RTreeIndexScanFunction_GetFunction /\
      LogicalGet.bind_data get' = RTreeIndexScanBindData_ bind_data /\
      LogicalGet.has_estimated_cardinality get' =
        NodeStatistics.has_estimated_cardinality (cardinality bind_data) /\
      LogicalGet.estimated_cardinality get' =
        NodeStatistics.estimated_cardinality (cardinality bind_data) /\
      LogicalGet.projection_ids get' = [] /\
      LogicalGet.table_filters get' = LogicalGet.table_filters get /\
      (idx = None ->
       forall filter siblings fuel,
         RewriteState.filter st = Some filter ->
         LogicalFilter.expressions filter = [e] ->
         exists filter',
           OptimizeRecursive (S fuel)
             (LOGICAL_FILTER filter (LOGICAL_GET get gc :: siblings)) =
           Some (Throw (InternalException "Could not find column id for filter"),
                 LOGICAL_FILTER filter' (LOGICAL_GET get' gc :: siblings))).
Proof.
  intros st idx e get gc table bd before column f after predicates type
         Hg Hp Hb Hr Hf Hpre Ht Hin.
  exists (LogicalGet.clear_projection_ids (index_scan get bd)).
  assert (Hthrow :
            TryOptimizeGet st idx e =
            (Throw (InternalException "Could not find column id for filter"),
             RewriteState.mk
               (LOGICAL_GET (LogicalGet.clear_projection_ids (index_scan get bd)) gc)
               (snd (remap_filter (LogicalGet.projection_ids get)
                       (RewriteState.filter st))))).
  { rewrite (@TryOptimizeGet_after_match st idx e get gc table bd Hg Hp Hb).
    rewrite Hf.
    destruct (before ++ (column, f) :: after)%list as [|x xs] eqn:El.
    - destruct before; discriminate.
    - cbv zeta. rewrite Hr. rewrite <- El.
      rewrite (@pullup_filters_missing_column get before column f after predicates
                 type); auto.
      destruct (find_column (LogicalGet.column_ids get) column 0) as [i|] eqn:Efc;
        auto.
      apply find_column_spec in Efc. destruct Efc as (_ & Hn & _).
      apply nth_error_In in Hn. contradiction. }
  split; [exact Hthrow|].
  do 7 (split; [reflexivity|]).
  intros -> filter siblings fuel Hfl He.
  destruct st as [get_ptr st_filter]. simpl in Hg, Hfl. subst get_ptr st_filter.
  rewrite OptimizeRecursive_S. unfold TryOptimize. rewrite He.
  rewrite Hthrow. cbn [fst snd RewriteState.get_ptr RewriteState.filter].
  eexists. reflexivity.
Qed.

(** ** What the matcher accepts *)

Lemma FunctionExpressionMatcher_Match_shape :
  forall index_expr filter_expr bindings,
    FunctionExpressionMatcher_Match spatial_predicates
      [ExpressionEqualityMatcher index_expr; ConstantExpressionMatcher] filter_expr
      = Some bindings ->
    exists return_type f key value,
      set_contains spatial_predicates (ScalarFunction.name f) = true /\
      Equals index_expr key = true /\
      (filter_expr =
         BoundFunctionExpression return_type f [key; BoundConstantExpression value] \/
       filter_expr =
         BoundFunctionExpression return_type f [BoundConstantExpression value; key]) /\
      bindings = [filter_expr; key; BoundConstantExpression value].
Proof.
  intros index_expr filter_expr bindings H.
  destruct filter_expr as [| | |return_type f children| |]; try discriminate.
  unfold FunctionExpressionMatcher_Match in H.
  destruct (set_contains spatial_predicates (ScalarFunction.name f)) eqn:En;
    try discriminate.
  destruct children as [|a [|b [|c rest]]]; try discriminate.
  unfold SetMatcher_Match in H. simpl in H.
  destruct (Equals index_expr a) eqn:Ea.
  - destruct b as [| |vb| | |];
      try (match type of H with
           | context [Equals index_expr ?x] =>
               destruct (Equals index_expr x) eqn:Eb; [|discriminate]
           end;
           destruct a as [| |va| | |]; try discriminate;
           inversion H; subst;
           eexists _, f, _, va; split; [exact En|]; split; [exact Eb|];
           split; [right; reflexivity|reflexivity]).
    inversion H; subst. exists return_type, f, a, vb. repeat split; auto.
  - destruct (Equals index_expr b) eqn:Eb; try discriminate.
    destruct a as [| |va| | |]; try discriminate.
    inversion H; subst. exists return_type, f, b, va. repeat split; auto.
Qed.

Lemma index_callback_some :
  forall table get idx filter_expr index bind_data,
    index_callback table get idx filter_expr index = Return (Some bind_data) ->
    exists value,
      In (BoundConstantExpression value) (operands filter_expr) /\
      TryGetBoundingBox value = Some (RTreeIndexScanBindData.bbox bind_data).
Proof.
  intros table get idx filter_expr index bd. unfold index_callback.
  destruct (vector_at (Index.unbound_expressions index) 0) as [key|];
    simpl; try discriminate.
  match goal with
  | |- bind ?r _ = _ -> _ => destruct r as [[index_expr possible]|]
  end; simpl; try discriminate.
  destruct possible; simpl; try discriminate.
  destruct (FunctionExpressionMatcher_Match _ _ _) as [bindings|] eqn:Em;
    try discriminate.
  apply FunctionExpressionMatcher_Match_shape in Em.
  destruct Em as (return_type & f & k & value & _ & _ & Hshape & Hb). subst bindings.
  simpl. destruct (TryGetBoundingBox value) as [bbox|] eqn:Eb; try discriminate.
  intros H. inversion H; subst. simpl.
  exists value. split; [|exact Eb].
  destruct Hshape as [->| ->]; simpl; auto.
Qed.

Lemma index_callback_returns :
  forall table get idx filter_expr index,
    index_key_rewritable get idx index ->
    exists r, index_callback table get idx filter_expr index = Return r.
Proof.
  intros table get idx filter_expr index (key & Hk & Hr). unfold index_callback.
  unfold vector_at at 1. rewrite Hk. simpl.
  assert (Hrw : exists r,
             match idx with
             | Some filter_idx =>
                 Return (RewriteIndexExpressionForFilter key filter_idx true)
             | None => RewriteIndexExpression index get key true
             end = Return r).
  { destruct idx as [i|]; [eexists; reflexivity|]. apply Hr. reflexivity. }
  destruct Hrw as [[index_expr possible] Hrw]. rewrite Hrw. simpl.
  destruct possible; simpl; [|eexists; reflexivity].
  destruct (FunctionExpressionMatcher_Match _ _ _) as [bindings|] eqn:Em;
    [|eexists; reflexivity].
  apply FunctionExpressionMatcher_Match_shape in Em.
  destruct Em as (return_type & f & k & value & _ & _ & _ & Hb). subst bindings.
  simpl. destruct (TryGetBoundingBox value); eexists; reflexivity.
Qed.

Lemma index_callback_ignores_declared_types :
  forall table get idx index return_type return_type' f f' children,
    ScalarFunction.name f = ScalarFunction.name f' ->
    index_callback table get idx (BoundFunctionExpression return_type f children) index =
    index_callback table get idx (BoundFunctionExpression return_type' f' children) index.
Proof.
  intros table get idx index return_type return_type' f f' children Hn.
  unfold index_callback.
  destruct (vector_at (Index.unbound_expressions index) 0) as [key|]; [|reflexivity].
  cbn [bind].
  match goal with
  | |- bind ?r _ = _ => destruct r as [[index_expr possible]|]
  end; [|reflexivity].
  cbn [bind fst snd]. destruct possible; [|reflexivity]. cbn [negb].
  unfold FunctionExpressionMatcher_Match. rewrite Hn.
  destruct (negb (set_contains spatial_predicates (ScalarFunction.name f')));
    [reflexivity|].
  destruct (SetMatcher_Match Equals _ children) as [[|b [|c bindings]]|]; reflexivity.
Qed.

Lemma BindAndScan_none :
  forall indexes callback,
    Forall (fun index =>
              Index.index_type index = RTreeIndex_TYPE_NAME ->
              exists r, callback index = Return r /\
                        forall bind_data, r <> Some bind_data) indexes ->
    BindAndScan indexes callback = Return None.
Proof.
  intros indexes callback H.
  induction H as [|index rest Hi _ IH]; simpl.
  - reflexivity.
  - destruct (String.eqb _ _) eqn:Et; [|exact IH].
    apply String.eqb_eq in Et. destruct (Hi Et) as (r & Hc & Hn).
    rewrite Hc. simpl. destruct r as [bd|]; [|exact IH].
    exfalso. apply (Hn bd). reflexivity.
Qed.

Lemma TryOptimizeGet_no_bounds :
  forall st idx filter_expr get gc table,
    RewriteState.get_ptr st = LOGICAL_GET get gc ->
    LogicalGet.table get = Some table ->
    Forall (fun index =>
              Index.index_type index = RTreeIndex_TYPE_NAME ->
              index_key_rewritable get idx index)
           (TableCatalogEntry.indexes table) ->
    (forall value,
        In (BoundConstantExpression value) (operands filter_expr) ->
        TryGetBoundingBox value = None) ->
    TryOptimizeGet st idx filter_expr = (Return false, st).
Proof.
  intros st idx filter_expr get gc table Hg Ht Hi Hv.
  unfold TryOptimizeGet. rewrite Hg, Ht.
  destruct (negb (String.eqb _ _)); [reflexivity|].
  destruct (match LogicalGet.dynamic_filters get with
            | Some b => b | None => false end); [reflexivity|].
  destruct (negb (TableCatalogEntry.IsDuckTable table)); [reflexivity|].
  rewrite BindAndScan_none; [reflexivity|].
  rewrite Forall_forall in *. intros index Hin Hty.
  destruct (@index_callback_returns table get idx filter_expr index (Hi index Hin Hty))
    as [r Hr].
  exists r. split; [exact Hr|].
  intros bd Hbd. subst r.
  apply index_callback_some in Hr. destruct Hr as (value & Hop & Hb).
  rewrite (Hv value Hop) in Hb. discriminate.
Qed.

(** C6: when no constant operand of the predicate has cached bounds,
    [TryOptimizeGet] reports ineligibility: it returns false, throws
    nothing, and the plan is as it was (the keys of the R-tree indexes being
    rewritable without a container access out of range); a filter with that
    predicate over the scan keeps its sequential scan. *)
Theorem TryOptimizeGet_without_bounds_is_ineligible :
  forall st idx filter_expr get gc table,
    RewriteState.get_ptr st = LOGICAL_GET get gc ->
    LogicalGet.table get = Some table ->
    Forall (fun index =>
              Index.index_type index = RTreeIndex_TYPE_NAME ->
              index_key_rewritable get idx index)
           (TableCatalogEntry.indexes table) ->
    (forall value,
        In (BoundConstantExpression value) (operands filter_expr) ->
        TryGetBoundingBox value = None) ->
    TryOptimizeGet st idx filter_expr = (Return false, st) /\
    (idx = None ->
     forall projection_map siblings,
       TryOptimize
         (LOGICAL_FILTER (LogicalFilter.mk [filter_expr] projection_map)
            (LOGICAL_GET get gc :: siblings)) =
       (Return false,
        LOGICAL_FILTER (LogicalFilter.mk [filter_expr] projection_map)
          (LOGICAL_GET get gc :: siblings))).
Proof.
  intros st idx filter_expr get gc table Hg Ht Hi Hv. split.
  - apply (TryOptimizeGet_no_bounds _ _ Hg Ht Hi Hv).
  - intros -> projection_map siblings.
    unfold TryOptimize. cbn [LogicalFilter.expressions].
    rewrite (@TryOptimizeGet_no_bounds _ None filter_expr get gc table);
      auto.
Qed.

End RewriterFacts.

(** ** The rewriter on the sample plans *)

(** C1 at [Filter(ST_Intersects(geom, box))] over a scan of [t] that hands
    on [price], then [geom] (projection ids [1; 0]), with [price > 10]
    pushed into the scan: the new filter carries [price > 10] over column 1
    of the index scan, whose projection ids are cleared. *)
Lemma TryOptimize_wraps_residual_filters_witness :
  exists filter' scan,
    TryOptimize Expression_eqb Sample.ToExpression Sample.cardinality
      (LOGICAL_FILTER Fixtures.projecting_filter
         [LOGICAL_GET Fixtures.projecting_scan []]) =
    (Return true,
     LOGICAL_FILTER filter'
       [LOGICAL_FILTER
          (LogicalFilter.mk
             [Sample.ToExpression (snd Sample.price_gt_10)
                (BoundColumnRefExpression INTEGER (ColumnBinding.mk 0 1))] [])
          [LOGICAL_GET scan []]]) /\
    LogicalFilter.expressions filter' = [Sample.intersects Sample.query] /\
    is_index_scan_of Sample.cardinality Fixtures.projecting_scan Sample.bind_data scan /\
    LogicalGet.projection_ids scan = [] /\
    Forall2 (residual_predicate Sample.ToExpression scan) [Sample.price_gt_10]
      [Sample.ToExpression (snd Sample.price_gt_10)
         (BoundColumnRefExpression INTEGER (ColumnBinding.mk 0 1))].
Proof.
  destruct (@TryOptimize_wraps_residual_filters Expression_eqb Sample.ToExpression
              Sample.cardinality
              (LOGICAL_FILTER Fixtures.projecting_filter
                 [LOGICAL_GET Fixtures.projecting_scan []]))
    as [Hshape Hmatch].
  assert (Hfst : fst (TryOptimize Expression_eqb Sample.ToExpression Sample.cardinality
                        (LOGICAL_FILTER Fixtures.projecting_filter
                           [LOGICAL_GET Fixtures.projecting_scan []])) = Return true).
  { apply (Hmatch Fixtures.projecting_filter (Sample.intersects Sample.query)
             Fixtures.projecting_scan [] [] Sample.t Sample.bind_data).
    - reflexivity.
    - reflexivity.
    - unfold plain_scan_of. simpl. repeat split; try reflexivity. discriminate.
    - vm_compute. reflexivity.
    - reflexivity.
    - constructor; [|constructor]. simpl. split; [auto|lia]. }
  destruct (TryOptimize Expression_eqb Sample.ToExpression Sample.cardinality
              (LOGICAL_FILTER Fixtures.projecting_filter
                 [LOGICAL_GET Fixtures.projecting_scan []])) as [r plan'] eqn:E.
  simpl in Hfst. subst r.
  destruct (Hshape plan' eq_refl)
    as (get & gc & table & bd & new & _ & _ & Hnew & [[Hplan _]|Hplan]);
    [discriminate Hplan|].
  destruct Hplan as (filter & filter' & siblings & Hplan & Hplan' & Hexpr).
  inversion Hplan; subst filter get gc siblings. simpl in Hnew.
  destruct Hnew as (predicates & scan & Hn & Hscan & Hids & Hres).
  subst new plan'.
  assert (Hbd : bd = Sample.bind_data /\
                predicates = [Sample.ToExpression (snd Sample.price_gt_10)
                                (BoundColumnRefExpression INTEGER
                                   (ColumnBinding.mk 0 1))]).
  { vm_compute in E. inversion E as [[Hf Hp Hs]].
    destruct Hscan as (_ & Hb & _). rewrite <- Hs in Hb. simpl in Hb.
    inversion Hb. split; reflexivity. }
  destruct Hbd as [-> ->].
  exists filter', scan. split; [reflexivity|]. split; [exact Hexpr|].
  split; [exact Hscan|]. split; [exact Hids|].
  destruct Hscan as (_ & _ & _ & _ & _ & _ & _ & Hfilters & _).
  rewrite Hfilters in Hres. exact Hres.
Defined.

(** C3 at [Filter(ST_Intersects(geom, box)) -> Scan(t)]. *)
Lemma TryOptimize_filter_over_scan_adds_no_filter_witness :
  TryOptimize Expression_eqb Sample.ToExpression Sample.cardinality
    (Sample.filter_over_scan Sample.query []) =
  (Return true,
   LOGICAL_FILTER (LogicalFilter.mk [Sample.intersects Sample.query] [])
     [LOGICAL_GET
        (LogicalGet.mk 0 (TableFunction.mk "rtree_index_scan")
           (RTreeIndexScanBindData_ Sample.bind_data) [BIGINT; GEOMETRY; INTEGER]
           [1; 2] [] [] None (Some Sample.t) true 10) []]).
Proof.
  apply (@TryOptimize_filter_over_scan_adds_no_filter Expression_eqb
           Sample.ToExpression Sample.cardinality
           (Sample.intersects Sample.query) [] (Sample.scan []) [] [] Sample.t
           Sample.bind_data).
  - unfold plain_scan_of. simpl. repeat split; try reflexivity. discriminate.
  - vm_compute. reflexivity.
  - reflexivity.
Defined.


(** C6 at [Filter(ST_Intersects(geom, g)) -> Scan(t)] where [g] has no
    cached bounds. *)
Lemma TryOptimizeGet_without_bounds_is_ineligible_witness :
  TryOptimizeGet Expression_eqb Sample.ToExpression Sample.cardinality
    (RewriteState.mk (LOGICAL_GET (Sample.scan [Sample.price_gt_10]) []) None) None
    (Sample.intersects Sample.query_without_bounds) =
  (Return false,
   RewriteState.mk (LOGICAL_GET (Sample.scan [Sample.price_gt_10]) []) None) /\
  TryOptimize Expression_eqb Sample.ToExpression Sample.cardinality
    (Sample.filter_over_scan Sample.query_without_bounds [Sample.price_gt_10]) =
  (Return false,
   Sample.filter_over_scan Sample.query_without_bounds [Sample.price_gt_10]).
Proof.
  assert (H := @TryOptimizeGet_without_bounds_is_ineligible Expression_eqb
                 Sample.ToExpression Sample.cardinality
                 (RewriteState.mk
                    (LOGICAL_GET (Sample.scan [Sample.price_gt_10]) []) None)
                 None (Sample.intersects Sample.query_without_bounds)
                 (Sample.scan [Sample.price_gt_10]) [] Sample.t).
  destruct H as [H1 H2].
  - reflexivity.
  - reflexivity.
  - constructor; [|constructor]. intros _.
    eexists. split; [reflexivity|]. intros _. eexists. vm_compute. reflexivity.
  - intros value [H|[H|[]]].
    + discriminate.
    + inversion H. reflexivity.
  - split; [exact H1|]. apply (H2 eq_refl [] []).
Defined.


(** C9 at [Filter(ST_Intersects(geom, box))] over a scan that reads [geom]
    and [price] and carries filters on [price] and on [id]. *)
Lemma TryOptimizeGet_throws_after_switching_the_scan_witness :
  exists filter' get',
    OptimizeRecursive Expression_eqb Sample.ToExpression Sample.cardinality 1
      (Sample.filter_over_scan Sample.query
         [Sample.price_gt_10; Sample.id_is_not_null]) =
    Some (Throw (InternalException "Could not find column id for filter"),
          LOGICAL_FILTER filter' [LOGICAL_GET get' []]) /\
    LogicalGet.function get' = RTreeIndexScanFunction_GetFunction /\
    LogicalGet.bind_data get' = RTreeIndexScanBindData_ Sample.bind_data /\
    LogicalGet.table_filters get' = [Sample.price_gt_10; Sample.id_is_not_null].
Proof.
  destruct (@TryOptimizeGet_throws_after_switching_the_scan Expression_eqb
              Sample.ToExpression Sample.cardinality
              (RewriteState.mk
                 (LOGICAL_GET
                    (Sample.scan [Sample.price_gt_10; Sample.id_is_not_null]) [])
                 (Some (LogicalFilter.mk [Sample.intersects Sample.query] [])))
              None (Sample.intersects Sample.query)
              (Sample.scan [Sample.price_gt_10; Sample.id_is_not_null]) [] Sample.t
              Sample.bind_data [Sample.price_gt_10] 0 IsNotNullFilter []
              [Sample.ToExpression (snd Sample.price_gt_10)
                 (BoundColumnRefExpression INTEGER (ColumnBinding.mk 0 1))]
              BIGINT)
    as (get' & _ & _ & Hfun & Hbind & _ & _ & _ & Hfilters & Hplan).
  - reflexivity.
  - unfold plain_scan_of. simpl. repeat split; try reflexivity. discriminate.
  - vm_compute. reflexivity.
  - reflexivity.
  - reflexivity.
  - reflexivity.
  - reflexivity.
  - simpl. intros [H|[H|[]]]; discriminate.
  - destruct (Hplan eq_refl (LogicalFilter.mk [Sample.intersects Sample.query] [])
                [] 0 eq_refl eq_refl) as [filter' Hrun].
    exists filter', get'. split; [exact Hrun|]. split; [exact Hfun|].
    split; [exact Hbind|exact Hfilters].
Defined.

(* ===================================================================== *)
(** * Facts about the index-build plan *)
(* ===================================================================== *)

(** ** The plan that [CreatePlan] returns *)

Lemma LogicalType_eqb_eq :
  forall a b, LogicalType_eqb a b = true <-> a = b.
Proof.
  intros a b. split.
  - destruct a, b; simpl; intros H; try discriminate; reflexivity.
  - intros ->. destruct b; reflexivity.
Qed.

Lemma CreateNullFilter_plan :
  forall op type0 type1,
    CreateNullFilter op [type0; type1] =
    Return (PhysicalFilter [type0; type1] [and_expr type0]
              (LogicalCreateRTreeIndex.estimated_cardinality op) []).
Proof. reflexivity. Qed.

Lemma CreateBoundingBoxProjection_plan :
  forall op types,
    CreateBoundingBoxProjection op types =
    Return (PhysicalProjection types [bbox_expr; BoundReferenceExpression ROW_TYPE 1]
              (LogicalCreateRTreeIndex.estimated_cardinality op) []).
Proof. reflexivity. Qed.

Lemma CreateOrderByMinX_plan :
  forall op types,
    CreateOrderByMinX op types =
    Return (PhysicalOrder types [BoundOrderByNode.mk ASCENDING NULLS_FIRST xmin_expr]
              [0; 1] (LogicalCreateRTreeIndex.estimated_cardinality op) []).
Proof. reflexivity. Qed.

Lemma CreatePlan_valid :
  forall op table_scan key geom_expr,
    LogicalCreateRTreeIndex.unbound_expressions op = [key] ->
    Expression_return_type key = GEOMETRY ->
    IsConsistent key = true ->
    nth_error (LogicalCreateRTreeIndex.expressions op) 0 = Some geom_expr ->
    CreatePlan op table_scan = Return (index_build_plan op geom_expr table_scan).
Proof.
  intros op table_scan key geom_expr Hu Ht Hc Hg.
  unfold CreatePlan. rewrite Hu.
  change (vector_at [key] 0) with (Return key).
  cbn [bind negb Nat.eqb List.length].
  rewrite Ht, Hc. unfold vector_at. rewrite Hg.
  cbn [bind negb LogicalType_eqb].
  rewrite CreateNullFilter_plan, CreateBoundingBoxProjection_plan,
    CreateOrderByMinX_plan.
  unfold index_build_plan. rewrite Hu. reflexivity.
Qed.

Lemma CreatePlan_rejected :
  forall op table_scan,
    is_validation_error (CreatePlan op table_scan) <->
    rejected_by_code (LogicalCreateRTreeIndex.unbound_expressions op).
Proof.
  intros op table_scan. unfold is_validation_error, rejected_by_code, CreatePlan.
  destruct (LogicalCreateRTreeIndex.unbound_expressions op) as [|key [|key' rest]];
    simpl.
  - split; [intros _; left; discriminate | intros _; eexists; reflexivity].
  - destruct (LogicalType_eqb (Expression_return_type key) GEOMETRY) eqn:Et; simpl.
    + apply LogicalType_eqb_eq in Et.
      destruct (IsConsistent key) eqn:Ec; simpl.
      * split.
        -- intros [msg H]. exfalso.
           unfold vector_at in H.
           destruct (nth_error (LogicalCreateRTreeIndex.expressions op) 0);
             simpl in H; discriminate.
        -- intros [H|(k & Hk & [H|H])]; [congruence| |];
             inversion Hk; subst; congruence.
      * split; [|intros _; eexists; reflexivity].
        intros _. right. exists key. auto.
    + split; [|intros _; eexists; reflexivity].
      intros _. right. exists key. split; [reflexivity|]. left.
      intros H. apply LogicalType_eqb_eq in H. congruence.
  - split; [intros _; left; discriminate | intros _; eexists; reflexivity].
Qed.

Lemma rejected_by_spec_code :
  forall keys,
    keys <> [] -> (rejected_by_spec keys <-> rejected_by_code keys).
Proof.
  intros [|key [|key' rest]] Hne; [congruence| |];
    unfold rejected_by_spec, rejected_by_code; simpl.
  - split.
    + intros [H|[(k & Hk & H)|(k & Hk & H)]]; [lia| |];
        inversion Hk; subst k; right; exists key; auto.
    + intros [H|(k & Hk & [H|H])]; [congruence| |]; inversion Hk; subst k.
      * right. left. exists key. auto.
      * right. right. exists key. auto.
  - split; intros _; left; [discriminate|lia].
Qed.

(** C4: for an operator with at least one key expression, whose
    [expressions] are as many as its [unbound_expressions] (the constructor
    copies the one to the other), [CreatePlan] throws a [BinderException]
    exactly when there is more than one key, or the key is not of type
    GEOMETRY, or the key has side effects; in every other case it returns
    the build pipeline over the one key expression. *)
Theorem CreatePlan_validates_then_plans :
  forall op table_scan,
    LogicalCreateRTreeIndex.unbound_expressions op <> [] ->
    List.length (LogicalCreateRTreeIndex.expressions op) =
    List.length (LogicalCreateRTreeIndex.unbound_expressions op) ->
    (is_validation_error (CreatePlan op table_scan) <->
     rejected_by_spec (LogicalCreateRTreeIndex.unbound_expressions op)) /\
    (~ rejected_by_spec (LogicalCreateRTreeIndex.unbound_expressions op) ->
     exists key geom_expr,
       LogicalCreateRTreeIndex.unbound_expressions op = [key] /\
       LogicalCreateRTreeIndex.expressions op = [geom_expr] /\
       CreatePlan op table_scan = Return (index_build_plan op geom_expr table_scan)).
Proof.
  intros op table_scan Hne Hlen.
  split; [rewrite rejected_by_spec_code by exact Hne; apply CreatePlan_rejected|].
  intros Hn. rewrite rejected_by_spec_code in Hn by exact Hne.
  unfold rejected_by_code in Hn.
  destruct (LogicalCreateRTreeIndex.unbound_expressions op) as [|key [|key' rest]] eqn:Hu.
  - congruence.
  - destruct (LogicalCreateRTreeIndex.expressions op) as [|geom_expr [|]] eqn:He;
      try discriminate.
    exists key, geom_expr. split; [reflexivity|]. split; [reflexivity|].
    apply CreatePlan_valid with (key := key); auto.
    + destruct (LogicalType_eqb (Expression_return_type key) GEOMETRY) eqn:Et.
      * apply LogicalType_eqb_eq. exact Et.
      * exfalso. apply Hn. right. exists key. split; [reflexivity|]. left.
        intros H. apply LogicalType_eqb_eq in H. congruence.
    + destruct (IsConsistent key) eqn:Ec; [reflexivity|].
      exfalso. apply Hn. right. exists key. auto.
    + rewrite He. reflexivity.
  - exfalso. apply Hn. left. discriminate.
Qed.

(** ** Executing the plan *)

Lemma map_result_Forall2 :
  forall (A B : Type) (f : A -> result B) l l',
    Forall2 (fun a b => f a = Return b) l l' -> map_result f l = Return l'.
Proof.
  intros A B f l l' H. induction H as [|a b l l' Hab _ IH]; simpl.
  - reflexivity.
  - rewrite Hab. simpl. rewrite IH. reflexivity.
Qed.

Lemma map_result_map :
  forall (A B : Type) (f : A -> result B) (g : A -> B) l,
    (forall a, In a l -> f a = Return (g a)) -> map_result f l = Return (map g l).
Proof.
  intros A B f g l H. apply map_result_Forall2.
  induction l as [|a l IH]; simpl; constructor.
  - apply H. left. reflexivity.
  - apply IH. intros b Hb. apply H. right. exact Hb.
Qed.

Lemma map_result_map_map :
  forall (A B C : Type) (f : B -> result C) (h : A -> B) (g : A -> C) l,
    (forall a, In a l -> f (h a) = Return (g a)) ->
    map_result f (map h l) = Return (map g l).
Proof.
  intros A B C f h g l H. induction l as [|a l IH]; simpl.
  - reflexivity.
  - rewrite H by (left; reflexivity). simpl.
    rewrite IH; [reflexivity|]. intros b Hb. apply H. right. exact Hb.
Qed.

Lemma Execute_and_expr :
  forall type0 k,
    Execute (and_expr type0) (key_row_values k) = Return (D_BOOLEAN (retained k)).
Proof.
  intros type0 [[g|] id]; unfold retained; simpl.
  - destruct (Nat.eqb (geometry_t.vertex_count g) 0); reflexivity.
  - reflexivity.
Qed.

Lemma filter_result_retained :
  forall type0 keys,
    filter_result (Execute (and_expr type0)) (map key_row_values keys) =
    Return (map key_row_values (filter retained keys)).
Proof.
  intros type0. induction keys as [|k keys IH].
  - reflexivity.
  - cbn [map filter_result filter]. rewrite Execute_and_expr. cbn [bind].
    rewrite IH. cbn [bind]. destruct (retained k); reflexivity.
Qed.

Lemma Execute_bbox_projection :
  forall k,
    map_result (fun e => Execute e (key_row_values k))
      [bbox_expr; BoundReferenceExpression ROW_TYPE 1] = Return (emitted k).
Proof. intros [[g|] id]; reflexivity. Qed.

Lemma Execute_xmin_expr :
  forall k,
    (v <- Execute xmin_expr (emitted k) ;; sort_key_of v) =
    Return (centroid_x (bbox_of (emitted k))).
Proof.
  intros [g id]. unfold emitted. simpl fst. simpl snd.
  destruct (ST_Extent_Approx.Execute g) as [b|]; reflexivity.
Qed.

Lemma insert_sorted_map :
  forall (A B : Type) (f : A -> B) (le : A -> A -> bool) (le' : B -> B -> bool),
    (forall a b, le' (f a) (f b) = le a b) ->
    forall x l, insert_sorted le' (f x) (map f l) = map f (insert_sorted le x l).
Proof.
  intros A B f le le' H x l. induction l as [|y l IH]; simpl.
  - reflexivity.
  - rewrite H. destruct (le x y); simpl; [reflexivity|]. rewrite IH. reflexivity.
Qed.

Lemma sort_map :
  forall (A B : Type) (f : A -> B) (le : A -> A -> bool) (le' : B -> B -> bool),
    (forall a b, le' (f a) (f b) = le a b) ->
    forall l, sort le' (map f l) = map f (sort le l).
Proof.
  intros A B f le le' H l. induction l as [|x l IH]; simpl.
  - reflexivity.
  - rewrite IH. apply insert_sorted_map. exact H.
Qed.

Lemma insert_sorted_permutation :
  forall (A : Type) (le : A -> A -> bool) x l,
    Permutation (x :: l) (insert_sorted le x l).
Proof.
  intros A le x l. induction l as [|y l IH]; simpl.
  - apply Permutation_refl.
  - destruct (le x y).
    + apply Permutation_refl.
    + eapply perm_trans; [apply perm_swap|]. apply perm_skip. exact IH.
Qed.

Lemma sort_permutation :
  forall (A : Type) (le : A -> A -> bool) l, Permutation l (sort le l).
Proof.
  intros A le l. induction l as [|x l IH]; simpl.
  - apply perm_nil.
  - eapply perm_trans; [apply perm_skip; exact IH|].
    apply insert_sorted_permutation.
Qed.

Lemma insert_sorted_sorted :
  forall (A : Type) (le : A -> A -> bool),
    (forall a b, le a b = true \/ le b a = true) ->
    forall x l,
      Sorted (fun a b => le a b = true) l ->
      Sorted (fun a b => le a b = true) (insert_sorted le x l).
Proof.
  intros A le total x l H. induction H as [|y l Hs IH Hhd]; simpl.
  - constructor; constructor.
  - destruct (le x y) eqn:E.
    + constructor; [constructor; assumption|]. constructor. exact E.
    + constructor; [exact IH|].
      destruct l as [|z l]; simpl.
      * constructor. destruct (total x y); congruence.
      * destruct (le x z).
        -- constructor. destruct (total x y); congruence.
        -- constructor. inversion Hhd; assumption.
Qed.

Lemma sort_sorted :
  forall (A : Type) (le : A -> A -> bool),
    (forall a b, le a b = true \/ le b a = true) ->
    forall l, Sorted (fun a b => le a b = true) (sort le l).
Proof.
  intros A le total l. induction l as [|x l IH]; simpl.
  - constructor.
  - apply insert_sorted_sorted; assumption.
Qed.

Lemma SFcompare_antisym :
  forall a b c, SFcompare a b = Some c -> SFcompare b a = Some (CompOpp c).
Proof.
  intros a b c.
  destruct a as [sa|sa| |sa ma ea], b as [sb|sb| |sb mb eb]; simpl;
    try discriminate;
    try (destruct sa; intros H; inversion H; reflexivity);
    try (destruct sb; intros H; inversion H; reflexivity);
    try (destruct sa, sb; intros H; inversion H; reflexivity).
  destruct sa, sb; intros H; inversion H; subst; try reflexivity;
      rewrite (Z.compare_antisym ea eb);
      change (Pos.compare_cont Eq mb ma) with (Pos.compare mb ma);
      change (Pos.compare_cont Eq ma mb) with (Pos.compare ma mb);
      rewrite (Pos.compare_antisym ma mb);
      destruct (Z.compare ea eb); simpl; try reflexivity;
      destruct (Pos.compare ma mb); reflexivity.
Qed.

Lemma double_le_total :
  forall a b, double_le a b = true \/ double_le b a = true.
Proof.
  intros a b. unfold double_le, SFleb.
  destruct (SFcompare a b) as [c|] eqn:E.
  - apply SFcompare_antisym in E. rewrite E.
    destruct a, b, c; simpl; auto.
  - destruct a, b; simpl in *; try discriminate; auto.
Qed.

Lemma by_centroid_x_total :
  forall r1 r2, by_centroid_x r1 r2 = true \/ by_centroid_x r2 r1 = true.
Proof.
  intros r1 r2. unfold by_centroid_x.
  destruct (centroid_x (bbox_of r1)), (centroid_x (bbox_of r2)); simpl; auto.
  apply double_le_total.
Qed.

Lemma execute_PhysicalProjection :
  forall types select_list cardinality child,
    execute (PhysicalProjection types select_list cardinality [child]) =
    (rows <- execute child ;;
     map_result (fun row => map_result (fun e => Execute e row) select_list) rows).
Proof. reflexivity. Qed.

Lemma execute_PhysicalFilter :
  forall types select_list cardinality child,
    execute (PhysicalFilter types select_list cardinality [child]) =
    (rows <- execute child ;;
     filter_result (Execute (filter_expression select_list)) rows).
Proof. reflexivity. Qed.

Lemma execute_PhysicalOrder :
  forall types orders projections cardinality child,
    execute (PhysicalOrder types orders projections cardinality [child]) =
    (rows <- execute child ;;
     keyed <- map_result
                (fun row =>
                   keys <- map_result
                             (fun o =>
                                v <- Execute (BoundOrderByNode.expression o) row ;;
                                sort_key_of v)
                             orders ;;
                   Return (keys, row))
                rows ;;
     map_result (fun kr => map_result (vector_at (snd kr)) projections)
       (sort (fun a b => keys_le orders (fst a) (fst b)) keyed)).
Proof. reflexivity. Qed.

Lemma execute_PhysicalCreateRTreeIndex :
  forall column_ids unbound_expressions cardinality child,
    execute (PhysicalCreateRTreeIndex column_ids unbound_expressions cardinality [child]) =
    execute child.
Proof. reflexivity. Qed.

Lemma execute_projection_keys :
  forall op geom_expr table_scan table_rows keys,
    nth_error (LogicalCreateRTreeIndex.expressions op) 0 = Some geom_expr ->
    execute table_scan = Return table_rows ->
    Forall2 (key_of_row op) table_rows keys ->
    forall types cardinality,
      execute
        (PhysicalProjection types
           [geom_expr;
            BoundReferenceExpression ROW_TYPE
              (idx_t_pred (List.length (LogicalCreateRTreeIndex.scan_types op)))]
           cardinality [table_scan]) = Return (map key_row_values keys).
Proof.
  intros op geom_expr table_scan table_rows keys Hg Ht Hk types cardinality.
  rewrite execute_PhysicalProjection, Ht. cbn [bind].
  apply map_result_Forall2. clear Ht.
  induction Hk as [|row k rows ks (e & He & Hx & Hid) _ IH]; cbn [map].
  - constructor.
  - constructor; [|exact IH].
    rewrite Hg in He. inversion He; subst e.
    cbn [map_result Execute]. rewrite Hx. unfold vector_at. rewrite Hid.
    reflexivity.
Qed.

Lemma execute_sorter_input :
  forall op geom_expr table_scan table_rows keys,
    nth_error (LogicalCreateRTreeIndex.expressions op) 0 = Some geom_expr ->
    execute table_scan = Return table_rows ->
    Forall2 (key_of_row op) table_rows keys ->
    exists below,
      sorter_input (index_build_plan op geom_expr table_scan) = Some below /\
      execute below = Return (map emitted (filter retained keys)).
Proof.
  intros op geom_expr table_scan table_rows keys Hg Ht Hk.
  eexists. split; [reflexivity|].
  rewrite execute_PhysicalProjection, execute_PhysicalFilter.
  rewrite (execute_projection_keys _ Hg Ht Hk). cbn [bind filter_expression].
  rewrite filter_result_retained. cbn [bind].
  apply map_result_map_map. intros k _. apply Execute_bbox_projection.
Qed.

Lemma execute_index_build_plan :
  forall op geom_expr table_scan table_rows keys,
    nth_error (LogicalCreateRTreeIndex.expressions op) 0 = Some geom_expr ->
    execute table_scan = Return table_rows ->
    Forall2 (key_of_row op) table_rows keys ->
    execute (index_build_plan op geom_expr table_scan) =
    Return (sort by_centroid_x (map emitted (filter retained keys))).
Proof.
  intros op geom_expr table_scan table_rows keys Hg Ht Hk.
  destruct (execute_sorter_input _ Hg Ht Hk) as (below & Hb & He).
  unfold index_build_plan in *. cbv zeta in *. cbn [sorter_input] in Hb.
  inversion Hb; subst below; clear Hb.
  rewrite execute_PhysicalCreateRTreeIndex, execute_PhysicalOrder.
  rewrite He. cbn [bind].
  set (rows := map emitted (filter retained keys)).
  rewrite (@map_result_map _ _ _
             (fun row => ([centroid_x (bbox_of row)], row)) rows).
  - cbn [bind].
    rewrite (@sort_map _ _ (fun row => ([centroid_x (bbox_of row)], row))
               by_centroid_x).
    + transitivity (Return (map (fun row : Row => row) (sort by_centroid_x rows)));
        [|rewrite map_id; reflexivity].
      apply map_result_map_map. intros row Hin.
      apply (Permutation_in _ (Permutation_sym (sort_permutation by_centroid_x rows)))
        in Hin.
      apply in_map_iff in Hin. destruct Hin as (k & <- & _). reflexivity.
    + intros a b. cbn [keys_le fst BoundOrderByNode.type BoundOrderByNode.null_order].
      unfold by_centroid_x.
      destruct (order_le ASCENDING NULLS_FIRST (centroid_x (bbox_of a))
                  (centroid_x (bbox_of b)));
        [destruct (order_le _ _ _ _)|]; reflexivity.
  - intros row Hin. apply in_map_iff in Hin. destruct Hin as (k & <- & _).
    cbn [map_result BoundOrderByNode.expression].
    rewrite Execute_xmin_expr. reflexivity.
Qed.

Lemma CreatePlan_inv :
  forall op table_scan plan,
    CreatePlan op table_scan = Return plan ->
    exists geom_expr,
      nth_error (LogicalCreateRTreeIndex.expressions op) 0 = Some geom_expr /\
      plan = index_build_plan op geom_expr table_scan.
Proof.
  intros op table_scan plan H0. pose proof H0 as H.
  destruct (LogicalCreateRTreeIndex.unbound_expressions op) as [|key [|key' rest]] eqn:Hu;
    try (unfold CreatePlan in H; rewrite Hu in H; discriminate).
  unfold CreatePlan in H. rewrite Hu in H.
  change (vector_at [key] 0) with (Return key) in H.
  cbn [bind negb Nat.eqb List.length] in H.
  destruct (LogicalType_eqb (Expression_return_type key) GEOMETRY) eqn:Et;
    cbn [negb] in H; try discriminate.
  destruct (IsConsistent key) eqn:Ec; cbn [negb] in H; try discriminate.
  destruct (nth_error (LogicalCreateRTreeIndex.expressions op) 0) as [geom_expr|] eqn:Hg.
  - exists geom_expr. split; [reflexivity|].
    apply LogicalType_eqb_eq in Et.
    rewrite (@CreatePlan_valid op table_scan key geom_expr Hu Et Ec Hg) in H0.
    inversion H0. reflexivity.
  - unfold vector_at in H. rewrite Hg in H. discriminate.
Qed.

(** ** Properties of the index-build plan *)

Lemma retained_spec :
  forall k,
    retained k = true <->
    exists g, fst k = Some g /\ geometry_t.vertex_count g <> 0.
Proof.
  intros [[g|] id]; unfold retained; simpl.
  - rewrite negb_true_iff, Nat.eqb_neq. split.
    + intros H. exists g. auto.
    + intros (g' & Hg & H). inversion Hg; subst. exact H.
  - split; [discriminate|]. intros (g & Hg & _). discriminate.
Qed.

Lemma emitted_bounds_row :
  forall r, emitted r = bounds_row r.
Proof.
  intros [[g|] id]; unfold emitted, bounds_row, ST_Extent_Approx.Execute,
    TryGetCachedBounds; simpl; [|reflexivity].
  destruct (geometry_t.cached_bounds g) as [[[x0 y0] [x1 y1]]|]; reflexivity.
Qed.

(** C8: the rows that reach the sorter are, in table order, one row for
    every table row whose geometry is neither NULL nor empty (has a vertex
    count other than zero) and for no other: the pair of the bounding box
    that the blob of that geometry caches and of its row id (for a blob that
    caches no box, NULL and the row id, see C10); the rows that reach the
    index are a permutation of them. *)
Theorem index_build_retains_nonnull_nonempty :
  forall op table_scan plan table_rows keys,
    CreatePlan op table_scan = Return plan ->
    execute table_scan = Return table_rows ->
    Forall2 (key_of_row op) table_rows keys ->
    exists below sorted,
      sorter_input plan = Some below /\
      execute below = Return (map bounds_row (filter retained keys)) /\
      execute plan = Return sorted /\
      Permutation (map bounds_row (filter retained keys)) sorted /\
      (forall k, In k (filter retained keys) <->
                 In k keys /\
                 exists g, fst k = Some g /\ geometry_t.vertex_count g <> 0) /\
      (forall k g bbox,
          In k (filter retained keys) ->
          fst k = Some g -> geometry_t.cached_bounds g = Some bbox ->
          In [D_BOX_2DF bbox; D_BIGINT (snd k)] sorted).
Proof.
  intros op table_scan plan table_rows keys Hc Ht Hk.
  apply CreatePlan_inv in Hc. destruct Hc as (geom_expr & Hg & ->).
  destruct (execute_sorter_input _ Hg Ht Hk) as (below & Hb & He).
  assert (Hmap : map emitted (filter retained keys)
                 = map bounds_row (filter retained keys)).
  { apply map_ext. exact emitted_bounds_row. }
  rewrite Hmap in He.
  exists below, (sort by_centroid_x (map bounds_row (filter retained keys))).
  split; [exact Hb|]. split; [exact He|].
  split; [rewrite <- Hmap; apply (execute_index_build_plan _ Hg Ht Hk)|].
  split; [apply sort_permutation|].
  split; [intros k; rewrite filter_In, retained_spec; reflexivity|].
  intros k g bbox Hin Hfst Hbox.
  eapply Permutation_in; [apply sort_permutation|].
  apply in_map_iff. exists k. split; [|exact Hin].
  unfold bounds_row. rewrite Hfst, Hbox. reflexivity.
Qed.

Lemma sorted_by_centroid_x :
  forall rows, ascending_by centroid_x (sort by_centroid_x rows).
Proof.
  intros rows. unfold ascending_by.
  apply (sort_sorted by_centroid_x by_centroid_x_total).
Qed.

(** C2, as the code has it: the rows that reach the index are the rows that
    reach the sorter, in ascending order of the x coordinate of the centre of
    the bounding box, [(min_x + max_x) * 0.5] with the sum in single and the
    product in double precision, rows with a NULL bounding box first. *)
Theorem index_build_sorts_by_centroid_x :
  forall op table_scan plan table_rows keys,
    CreatePlan op table_scan = Return plan ->
    execute table_scan = Return table_rows ->
    Forall2 (key_of_row op) table_rows keys ->
    exists below rows sorted,
      sorter_input plan = Some below /\
      execute below = Return rows /\
      execute plan = Return sorted /\
      Permutation rows sorted /\
      ascending_by centroid_x sorted /\
      (forall b,
          centroid_x (Some b) =
          Some (double_mul
                  (float_to_double
                     (float_add (Vec.x (Box2D.min b)) (Vec.x (Box2D.max b))))
                  double_half)) /\
      centroid_x None = None.
Proof.
  intros op table_scan plan table_rows keys Hc Ht Hk.
  apply CreatePlan_inv in Hc. destruct Hc as (geom_expr & Hg & ->).
  destruct (execute_sorter_input _ Hg Ht Hk) as (below & Hb & He).
  exists below, (map emitted (filter retained keys)),
    (sort by_centroid_x (map emitted (filter retained keys))).
  split; [exact Hb|]. split; [exact He|].
  split; [apply (execute_index_build_plan _ Hg Ht Hk)|].
  split; [apply sort_permutation|].
  split; [apply sorted_by_centroid_x|].
  split; reflexivity.
Qed.

(** C2, as the specification words it, fails on the sample table: the box
    [(0,0)-(10,0)] of row 1 has the smaller [min_x] and the box [(1,0)-(2,0)]
    of row 2 the smaller centre, and row 2 reaches the index before row 1. *)
Lemma index_build_does_not_sort_by_min_x :
  exists sorted,
    CreatePlan (Sample.create_index [Sample.key_expr])
      (PhysicalTableScan Sample.table_rows) = Return Sample.build_plan /\
    execute Sample.build_plan = Return sorted /\
    ~ ascending_by min_x sorted.
Proof.
  eexists. split; [reflexivity|]. split; [vm_compute; reflexivity|].
  unfold ascending_by. intros H.
  inversion H as [|r1 l1 H1 _]; subst.
  inversion H1 as [|r2 l2 _ Hhd]; subst.
  inversion Hhd as [|r3 l3 Hle]; subst.
  vm_compute in Hle. discriminate.
Qed.

Lemma index_build_sorts_by_centroid_x_witness :
  exists below rows sorted,
    sorter_input Sample.build_plan = Some below /\
    execute below = Return rows /\
    execute Sample.build_plan = Return sorted /\
    Permutation rows sorted /\
    ascending_by centroid_x sorted /\
    (forall b,
        centroid_x (Some b) =
        Some (double_mul
                (float_to_double
                   (float_add (Vec.x (Box2D.min b)) (Vec.x (Box2D.max b))))
                double_half)) /\
    centroid_x None = None.
Proof.
  apply (@index_build_sorts_by_centroid_x (Sample.create_index [Sample.key_expr])
           (PhysicalTableScan Sample.table_rows) Sample.build_plan
           Sample.table_rows Sample.keys).
  - reflexivity.
  - reflexivity.
  - repeat (constructor; [exists Sample.key_expr; repeat split; reflexivity|]).
    constructor.
Defined.

Lemma index_build_retains_nonnull_nonempty_witness :
  exists below,
    sorter_input Sample.build_plan = Some below /\
    execute below =
    Return [[D_BOX_2DF (box (Sample.f32 0) (Sample.f32 0) (Sample.f32 10) (Sample.f32 0));
             D_BIGINT 1%Z];
            [D_BOX_2DF (box (Sample.f32 1) (Sample.f32 0) (Sample.f32 2) (Sample.f32 0));
             D_BIGINT 2%Z];
            [D_NULL; D_BIGINT 5%Z]] /\
    exists sorted,
      execute Sample.build_plan = Return sorted /\
      In [D_BOX_2DF (box (Sample.f32 0) (Sample.f32 0) (Sample.f32 10) (Sample.f32 0));
          D_BIGINT 1%Z] sorted /\
      In [D_BOX_2DF (box (Sample.f32 1) (Sample.f32 0) (Sample.f32 2) (Sample.f32 0));
          D_BIGINT 2%Z] sorted.
Proof.
  destruct (@index_build_retains_nonnull_nonempty (Sample.create_index [Sample.key_expr])
              (PhysicalTableScan Sample.table_rows) Sample.build_plan
              Sample.table_rows Sample.keys)
    as (below & sorted & Hb & He & Hs & _ & _ & Hin).
  - reflexivity.
  - reflexivity.
  - repeat (constructor; [exists Sample.key_expr; repeat split; reflexivity|]).
    constructor.
  - exists below. split; [exact Hb|]. split; [exact He|].
    exists sorted. split; [exact Hs|]. split.
    + apply (Hin (Some Sample.wide, 1%Z) Sample.wide
               (box (Sample.f32 0) (Sample.f32 0) (Sample.f32 10) (Sample.f32 0))).
      * simpl. auto.
      * reflexivity.
      * reflexivity.
    + apply (Hin (Some Sample.narrow, 2%Z) Sample.narrow
               (box (Sample.f32 1) (Sample.f32 0) (Sample.f32 2) (Sample.f32 0))).
      * simpl. auto.
      * reflexivity.
      * reflexivity.
Defined.

(** C10: [ST_Extent_Approx] is total: it answers NULL for a NULL geometry
    and for a blob without cached bounds, and the cached box otherwise.  So a
    row whose geometry is not NULL, not empty and without cached bounds
    reaches the sorter with a NULL bounding box, its sort key is NULL, and it
    reaches the index. *)
Theorem ST_Extent_Approx_null_without_cached_bounds :
  (forall input,
      ST_Extent_Approx.Execute input =
      match input with
      | Some blob => TryGetCachedBounds blob
      | None => None
      end /\
      execute_function ST_Extent_Approx_Execute [geometry_datum input] =
      Return (box_datum (ST_Extent_Approx.Execute input))) /\
  (forall op table_scan plan table_rows keys g id,
      CreatePlan op table_scan = Return plan ->
      execute table_scan = Return table_rows ->
      Forall2 (key_of_row op) table_rows keys ->
      In (Some g, id) keys ->
      geometry_t.vertex_count g <> 0 ->
      TryGetCachedBounds g = None ->
      exists below rows sorted,
        sorter_input plan = Some below /\
        execute below = Return rows /\
        In [D_NULL; D_BIGINT id] rows /\
        (v <- Execute xmin_expr [D_NULL; D_BIGINT id] ;; sort_key_of v) = Return None /\
        execute plan = Return sorted /\
        In [D_NULL; D_BIGINT id] sorted).
Proof.
  split.
  - intros [blob|]; [|split; reflexivity]. split; [|reflexivity].
    unfold ST_Extent_Approx.Execute.
    destruct (TryGetCachedBounds blob) as [[[x0 y0] [x1 y1]]|]; reflexivity.
  - intros op table_scan plan table_rows keys g id Hc Ht Hk Hin Hv Hb.
    apply CreatePlan_inv in Hc. destruct Hc as (geom_expr & Hg & ->).
    destruct (execute_sorter_input _ Hg Ht Hk) as (below & Hbelow & He).
    assert (Hrow : In [D_NULL; D_BIGINT id] (map emitted (filter retained keys))).
    { apply in_map_iff. exists (Some g, id). split.
      - unfold emitted, ST_Extent_Approx.Execute. simpl. rewrite Hb. reflexivity.
      - apply filter_In. split; [exact Hin|].
        apply retained_spec. exists g. auto. }
    exists below, (map emitted (filter retained keys)),
      (sort by_centroid_x (map emitted (filter retained keys))).
    split; [exact Hbelow|]. split; [exact He|]. split; [exact Hrow|].
    split; [reflexivity|].
    split; [apply (execute_index_build_plan _ Hg Ht Hk)|].
    eapply Permutation_in; [apply sort_permutation|exact Hrow].
Qed.

Lemma ST_Extent_Approx_null_without_cached_bounds_witness :
  exists below rows sorted,
    sorter_input Sample.build_plan = Some below /\
    execute below = Return rows /\
    In [D_NULL; D_BIGINT 5] rows /\
    (v <- Execute xmin_expr [D_NULL; D_BIGINT 5] ;; sort_key_of v) = Return None /\
    execute Sample.build_plan = Return sorted /\
    In [D_NULL; D_BIGINT 5] sorted.
Proof.
  apply (proj2 ST_Extent_Approx_null_without_cached_bounds
           (Sample.create_index [Sample.key_expr])
           (PhysicalTableScan Sample.table_rows) Sample.build_plan
           Sample.table_rows Sample.keys Sample.unbounded 5%Z).
  - reflexivity.
  - reflexivity.
  - repeat (constructor; [exists Sample.key_expr; repeat split; reflexivity|]).
    constructor.
  - simpl. auto 10.
  - discriminate.
  - reflexivity.
Defined.

(** C4 at a single consistent geometry key, which is planned, and at two
    keys, which are rejected. *)
Lemma CreatePlan_validates_then_plans_witness :
  CreatePlan (Sample.create_index [Sample.key_expr])
    (PhysicalTableScan Sample.table_rows) = Return Sample.build_plan /\
  is_validation_error
    (CreatePlan (Sample.create_index [Sample.key_expr; Sample.key_expr])
       (PhysicalTableScan Sample.table_rows)).
Proof.
  split.
  - destruct (proj2 (@CreatePlan_validates_then_plans
                       (Sample.create_index [Sample.key_expr])
                       (PhysicalTableScan Sample.table_rows)
                       ltac:(discriminate) eq_refl))
      as (key & geom_expr & Hk & Hg & Hplan).
    + intros [H|[(key & Hk & H)|(key & Hk & H)]]; simpl in *.
      * lia.
      * inversion Hk; subst. apply H. reflexivity.
      * inversion Hk; subst. discriminate.
    + simpl in Hg. inversion Hg; subst geom_expr. exact Hplan.
  - apply (proj1 (@CreatePlan_validates_then_plans
                    (Sample.create_index [Sample.key_expr; Sample.key_expr])
                    (PhysicalTableScan Sample.table_rows)
                    ltac:(discriminate) eq_refl)).
    left. simpl. lia.
Defined.

(* ===================================================================== *)
(** * Further facts about the plan rewriter *)
(* ===================================================================== *)

(** Induction on expression trees, with the hypothesis for every child. *)
Lemma Expression_ind_children :
  forall P : Expression -> Prop,
    (forall t b, P (BoundColumnRefExpression t b)) ->
    (forall t i, P (BoundReferenceExpression t i)) ->
    (forall v, P (BoundConstantExpression v)) ->
    (forall t f cs, Forall P cs -> P (BoundFunctionExpression t f cs)) ->
    (forall k t cs, Forall P cs -> P (BoundOperatorExpression k t cs)) ->
    (forall k cs, Forall P cs -> P (BoundConjunctionExpression k cs)) ->
    forall e, P e.
Proof.
  intros P Hcol Href Hconst Hfun Hop Hconj.
  fix IH 1. intros e.
  assert (Hall : forall cs, Forall P cs).
  { fix IHl 1. intros [|c cs].
    - constructor.
    - constructor; [apply IH | apply IHl]. }
  destruct e as [t b|t i|v|t f cs|k t cs|k cs].
  - apply Hcol.
  - apply Href.
  - apply Hconst.
  - apply Hfun. apply Hall.
  - apply Hop. apply Hall.
  - apply Hconj. apply Hall.
Qed.

Lemma Forall2_In_right :
  forall (A B : Type) (R : A -> B -> Prop) l l' b,
    Forall2 R l l' -> In b l' -> exists a, In a l /\ R a b.
Proof.
  intros A B R l l' b H. induction H as [|x y l l' Hxy _ IH]; simpl.
  - contradiction.
  - intros [<-|Hin].
    + exists x. auto.
    + destruct (IH Hin) as (a & Ha & Hr). exists a. auto.
Qed.

Section RewriterFurtherFacts.

Variable Equals : Expression -> Expression -> bool.
Variable ToExpression : TableFilter -> Expression -> Expression.
Variable cardinality : RTreeIndexScanBindData.t -> NodeStatistics.t.

Local Abbreviation TryOptimizeGet := (TryOptimizeGet Equals ToExpression cardinality).
Local Abbreviation TryOptimize := (TryOptimize Equals ToExpression cardinality).
Local Abbreviation OptimizeRecursive := (OptimizeRecursive Equals ToExpression cardinality).
Local Abbreviation try_expression_filters :=
  (try_expression_filters Equals ToExpression cardinality).
Local Abbreviation no_match := (no_match Equals ToExpression cardinality).
Local Abbreviation index_callback := (index_callback Equals).
Local Abbreviation pullup_filters := (pullup_filters ToExpression).
Local Abbreviation index_scan := (index_scan cardinality).
Local Abbreviation rewritten_scan := (rewritten_scan ToExpression cardinality).
Local Abbreviation not_below_a_match :=
  (not_below_a_match Equals ToExpression cardinality).

(** ** Scans the rewriter turns away *)

Lemma BindAndScan_no_rtree_index :
  forall table callback,
    no_rtree_index table = true ->
    BindAndScan (TableCatalogEntry.indexes table) callback = Return None.
Proof.
  intros table callback H. unfold no_rtree_index in H.
  induction (TableCatalogEntry.indexes table) as [|index rest IH]; simpl in *.
  - reflexivity.
  - apply andb_true_iff in H. destruct H as [Hi Hr].
    apply negb_true_iff in Hi. rewrite Hi. apply IH. exact Hr.
Qed.

Lemma TryOptimizeGet_ineligible :
  forall st idx e get gc,
    RewriteState.get_ptr st = LOGICAL_GET get gc ->
    ineligible_scan get = true ->
    TryOptimizeGet st idx e = (Return false, st).
Proof.
  intros st idx e get gc Hg Hi. unfold TryOptimizeGet. rewrite Hg.
  unfold ineligible_scan in Hi.
  destruct (negb (String.eqb _ _)); [reflexivity|].
  destruct (match LogicalGet.dynamic_filters get with
            | Some b => b | None => false end); [reflexivity|].
  simpl in Hi.
  destruct (LogicalGet.table get) as [table|]; [|discriminate].
  destruct (negb (TableCatalogEntry.IsDuckTable table)); [reflexivity|].
  simpl in Hi. rewrite BindAndScan_no_rtree_index by exact Hi. reflexivity.
Qed.

Lemma try_expression_filters_ineligible :
  forall filters st get gc,
    RewriteState.get_ptr st = LOGICAL_GET get gc ->
    ineligible_scan get = true ->
    try_expression_filters st filters = (Return false, st).
Proof.
  induction filters as [|entry rest IH]; simpl; intros st get gc Hg Hi.
  - reflexivity.
  - destruct (snd entry); try (eapply IH; eassumption).
    rewrite (@TryOptimizeGet_ineligible st (Some (fst entry)) expr get gc Hg Hi).
    eapply IH; eassumption.
Qed.

Lemma all_scans_children :
  forall P plan,
    all_scans P plan = true -> forallb (all_scans P) (children_of plan) = true.
Proof.
  intros P [get cs|f cs|t es cs]; simpl; intros H; auto.
  apply andb_true_iff in H. tauto.
Qed.

Lemma TryOptimize_ineligible :
  forall plan,
    all_scans ineligible_scan plan = true ->
    TryOptimize plan = (Return false, plan) \/
    TryOptimize plan = (Throw front_of_empty_vector, plan).
Proof.
  intros [get cs|filter cs|t es cs] H; simpl in *.
  - apply andb_true_iff in H. destruct H as [Hi _].
    rewrite (@try_expression_filters_ineligible (LogicalGet.table_filters get)
               (RewriteState.mk (LOGICAL_GET get cs) None) get cs eq_refl Hi).
    left. reflexivity.
  - destruct (LogicalFilter.expressions filter) as [|e [|]]; auto.
    destruct cs as [|[get gc| |] siblings]; auto.
    simpl in H. apply andb_true_iff in H. destruct H as [H _].
    apply andb_true_iff in H. destruct H as [Hi _].
    rewrite (@TryOptimizeGet_ineligible
               (RewriteState.mk (LOGICAL_GET get gc) (Some filter)) None e get gc
               eq_refl Hi).
    left. reflexivity.
  - auto.
Qed.

Lemma optimize_children_unchanged :
  forall rec cs,
    Forall (fun c => exists r, rec c = Some (r, c) /\
                               (r = Return tt \/ r = Throw front_of_empty_vector)) cs ->
    exists r, optimize_children rec cs = Some (r, cs) /\
              (r = Return tt \/ r = Throw front_of_empty_vector).
Proof.
  intros rec cs H. induction H as [|c cs (r & Hc & Hr) _ (r' & IH & Hr')]; simpl.
  - eexists. split; [reflexivity|]. left. reflexivity.
  - rewrite Hc. destruct Hr as [->| ->].
    + rewrite IH. exists r'. split; [reflexivity|exact Hr'].
    + eexists. split; [reflexivity|]. right. reflexivity.
Qed.

Lemma OptimizeRecursive_ineligible :
  forall fuel plan,
    height plan <= fuel ->
    all_scans ineligible_scan plan = true ->
    exists r, OptimizeRecursive fuel plan = Some (r, plan) /\
              (r = Return tt \/ r = Throw front_of_empty_vector).
Proof.
  induction fuel as [|fuel IH]; intros plan Hh Ha.
  - destruct plan; simpl in Hh; lia.
  - rewrite OptimizeRecursive_S.
    destruct (@TryOptimize_ineligible plan Ha) as [E|E]; rewrite E.
    + destruct (@optimize_children_unchanged (OptimizeRecursive fuel) (children_of plan))
        as (r & Hr & Hor).
      * apply height_children in Hh. apply all_scans_children in Ha.
        rewrite forallb_forall in Ha. rewrite Forall_forall in *.
        intros c Hin. apply IH; auto.
      * rewrite Hr, set_children_children_of. exists r. auto.
    + eexists. split; [reflexivity|]. right. reflexivity.
Qed.

(** X1: a plan in which every scan is one that [TryOptimizeGet] turns away
    (another table function than [seq_scan], dynamic filters, a table that is
    not native, or a table without an R-tree index) comes back from the
    traversal exactly as it went in; the traversal ends normally, or with the
    exception of [children.front()] on a filter without input. *)
Theorem OptimizeRecursive_leaves_ineligible_scans_alone :
  forall fuel plan,
    height plan <= fuel ->
    all_scans ineligible_scan plan = true ->
    exists r,
      OptimizeRecursive fuel plan = Some (r, plan) /\
      (r = Return tt \/ r = Throw front_of_empty_vector) /\
      (scans_are_leaves plan = true -> r = Return tt).
Proof.
  intros fuel plan Hh Ha.
  destruct (@OptimizeRecursive_ineligible fuel plan Hh Ha) as (r & Hr & Hor).
  exists r. split; [exact Hr|]. split; [exact Hor|].
  intros Hw. destruct Hor as [-> | ->]; [reflexivity|]. exfalso.
  revert plan Hh Ha Hw Hr. induction fuel as [|fuel IH]; intros plan Hh Ha Hw Hr.
  - discriminate.
  - rewrite OptimizeRecursive_S in Hr.
    destruct (@TryOptimize_ineligible plan Ha) as [E|E]; rewrite E in Hr.
    + apply height_children in Hh. apply all_scans_children in Ha.
      assert (Hwc : forallb scans_are_leaves (children_of plan) = true).
      { destruct plan as [get cs|f cs|t es cs]; simpl in *.
        - destruct cs; [reflexivity|discriminate].
        - destruct cs as [|c [|]]; try discriminate. simpl. rewrite Hw. reflexivity.
        - exact Hw. }
      revert Hr Hh Ha Hwc.
      generalize (children_of plan) as cs. intros cs.
      destruct (optimize_children (OptimizeRecursive fuel) cs) as [[r cs']|] eqn:Ec;
        [|discriminate].
      intros Hr Hh Ha Hwc. inversion Hr; subst r. clear Hr H1.
      revert cs' Ec. induction cs as [|c cs IHc]; simpl; intros cs' Ec.
      * discriminate.
      * simpl in Ha, Hwc. apply andb_true_iff in Ha, Hwc.
        destruct Ha as [Ha1 Ha2]. destruct Hwc as [Hw1 Hw2].
        inversion Hh as [|? ? Hh1 Hh2]; subst.
        destruct (OptimizeRecursive fuel c) as [[[[]|e] c']|] eqn:Er; try discriminate.
        -- destruct (optimize_children (OptimizeRecursive fuel) cs) as [[r2 cs2]|] eqn:E2;
             try discriminate.
           inversion Ec; subst. eapply IHc; eauto.
        -- inversion Ec; subst.
           destruct (@OptimizeRecursive_ineligible fuel c Hh1 Ha1) as (r & Hr & _).
           rewrite Hr in Er. inversion Er; subst.
           eapply IH; eauto.
    + destruct plan as [get cs|f cs|t es cs]; simpl in E.
      * rewrite (@try_expression_filters_ineligible (LogicalGet.table_filters get)
                   (RewriteState.mk (LOGICAL_GET get cs) None) get cs eq_refl) in E;
          [discriminate|].
        simpl in Ha. apply andb_true_iff in Ha. tauto.
      * destruct (LogicalFilter.expressions f) as [|e [|]]; try discriminate.
        destruct cs as [|c [|]]; try discriminate.
        destruct c as [get gc| |]; try discriminate.
        simpl in Ha. rewrite andb_true_r in Ha. apply andb_true_iff in Ha.
        rewrite (@TryOptimizeGet_ineligible
                   (RewriteState.mk (LOGICAL_GET get gc) (Some f)) None e get gc
                   eq_refl) in E;
          [discriminate|tauto].
      * discriminate.
Qed.

(** ** A rewritten scan is not rewritten again *)

Lemma rewritten_scan_cases :
  forall get gc bind_data new,
    rewritten_scan get gc bind_data new ->
    (LogicalGet.table_filters get = [] /\
     new = LOGICAL_GET (index_scan get bind_data) gc) \/
    (LogicalGet.table_filters get <> [] /\
     exists predicates,
       new = LOGICAL_FILTER (LogicalFilter.mk predicates [])
               [LOGICAL_GET (LogicalGet.clear_projection_ids (index_scan get bind_data))
                  gc]).
Proof.
  intros get gc bd new. unfold rewritten_scan.
  destruct (LogicalGet.table_filters get) as [|entry rest].
  - intros ->. left. auto.
  - intros (predicates & _ & ->). right. split; [discriminate|].
    exists predicates. reflexivity.
Qed.

Lemma TryOptimize_rewritten_scan :
  forall get gc bind_data new,
    rewritten_scan get gc bind_data new ->
    TryOptimize new = (Return false, new).
Proof.
  intros get gc bd new H.
  destruct (@rewritten_scan_cases get gc bd new H) as [[_ ->]|[_ (predicates & ->)]].
  - unfold TryOptimize.
    rewrite (@try_expression_filters_ineligible
               (LogicalGet.table_filters (index_scan get bd))
               (RewriteState.mk (LOGICAL_GET (index_scan get bd) gc) None)
               (index_scan get bd) gc eq_refl eq_refl).
    reflexivity.
  - unfold TryOptimize. cbn [LogicalFilter.expressions].
    destruct predicates as [|e [|]]; reflexivity.
Qed.

Lemma TryOptimize_true_inv :
  forall plan plan',
    TryOptimize plan = (Return true, plan') ->
    exists get gc bind_data new,
      rewritten_scan get gc bind_data new /\
      ((plan = LOGICAL_GET get gc /\ LogicalGet.table_filters get <> [] /\ plan' = new) \/
       (exists filter filter' e siblings,
           plan = LOGICAL_FILTER filter (LOGICAL_GET get gc :: siblings) /\
           plan' = LOGICAL_FILTER filter' (new :: siblings) /\
           LogicalFilter.expressions filter = [e] /\
           LogicalFilter.expressions filter' = [e])).
Proof.
  intros plan plan' H. destruct plan as [get gc|filter cs|t es cs]; simpl in H.
  - destruct (try_expression_filters _ _) as [r st1] eqn:E. simpl in H.
    inversion H; subst.
    apply try_expression_filters_true in E. destruct E as (column & expr & Hin & E).
    apply TryOptimizeGet_true in E.
    destruct E as (get' & gc' & table & bd & Hg & _ & _ & Hr & _).
    simpl in Hg. inversion Hg; subst get' gc'.
    exists get, gc, bd, (RewriteState.get_ptr st1). split; [exact Hr|]. left.
    split; [reflexivity|]. split; [|reflexivity].
    intros Hf. rewrite Hf in Hin. contradiction.
  - destruct (LogicalFilter.expressions filter) as [|e [|]] eqn:Ee; try discriminate.
    destruct cs as [|[get gc| |] siblings]; try discriminate.
    destruct (TryOptimizeGet _ _ _) as [r st1] eqn:E. simpl in H.
    inversion H; subst.
    apply TryOptimizeGet_true in E.
    destruct E as (get' & gc' & table & bd & Hg & _ & _ & Hr & Hf).
    simpl in Hg. inversion Hg; subst get' gc'.
    exists get, gc, bd, (RewriteState.get_ptr st1). split; [exact Hr|]. right.
    eexists filter, _, e, siblings.
    split; [reflexivity|]. split; [reflexivity|]. split; [exact Ee|].
    simpl in Hf. destruct (RewriteState.filter st1) as [f'|]; simpl in Hf.
    + congruence.
    + discriminate.
  - discriminate.
Qed.

Lemma TryOptimize_after_match :
  forall plan plan',
    TryOptimize plan = (Return true, plan') ->
    TryOptimize plan' = (Return false, plan').
Proof.
  intros plan plan' H. apply TryOptimize_true_inv in H.
  destruct H as (get & gc & bd & new & Hr &
                 [(_ & _ & ->)|(filter & filter' & e & siblings & _ & -> & _ & He)]).
  - apply (@TryOptimize_rewritten_scan get gc bd new Hr).
  - unfold TryOptimize. rewrite He.
    destruct (@rewritten_scan_cases get gc bd new Hr) as [[_ ->]|[_ (predicates & ->)]].
    + rewrite (@TryOptimizeGet_ineligible
                 (RewriteState.mk (LOGICAL_GET (index_scan get bd) gc) (Some filter'))
                 None e (index_scan get bd) gc eq_refl eq_refl).
      reflexivity.
    + reflexivity.
Qed.

(** X2: [TryOptimize] never matches the plan node it has just rewritten:
    applied to its own result it reports no match and changes nothing. *)
Theorem TryOptimize_does_not_match_its_own_result :
  forall plan plan',
    TryOptimize plan = (Return true, plan') ->
    TryOptimize plan' = (Return false, plan').
Proof.
  intros plan plan' H. apply TryOptimize_after_match in H. exact H.
Qed.

(** ** Running the rewriter twice *)

Lemma no_match_rewritten_scan :
  forall get bind_data new,
    rewritten_scan get [] bind_data new -> no_match new = true.
Proof.
  intros get bd new H. rewrite no_match_unfold.
  rewrite (@TryOptimize_rewritten_scan get [] bd new H). cbn [fst].
  destruct (@rewritten_scan_cases get [] bd new H) as [[_ ->]|[_ (predicates & ->)]].
  - reflexivity.
  - cbn [children_of forallb]. rewrite andb_true_r.
    rewrite no_match_unfold. unfold TryOptimize.
    rewrite (@try_expression_filters_ineligible
               (LogicalGet.table_filters
                  (LogicalGet.clear_projection_ids (index_scan get bd)))
               (RewriteState.mk
                  (LOGICAL_GET (LogicalGet.clear_projection_ids (index_scan get bd)) [])
                  None)
               (LogicalGet.clear_projection_ids (index_scan get bd)) [] eq_refl eq_refl).
    reflexivity.
Qed.

Lemma TryOptimizeGet_fst_children :
  forall get gc gc' filter idx e,
    fst (TryOptimizeGet (RewriteState.mk (LOGICAL_GET get gc) filter) idx e) =
    fst (TryOptimizeGet (RewriteState.mk (LOGICAL_GET get gc') filter) idx e).
Proof.
  intros get gc gc' filter idx e. unfold TryOptimizeGet.
  cbn [RewriteState.get_ptr RewriteState.filter].
  repeat break_match; reflexivity.
Qed.

Lemma try_expression_filters_fst_children :
  forall get gc gc' filter filters,
    fst (try_expression_filters (RewriteState.mk (LOGICAL_GET get gc) filter) filters) =
    fst (try_expression_filters (RewriteState.mk (LOGICAL_GET get gc') filter) filters).
Proof.
  intros get gc gc' filter. induction filters as [|entry rest IH]; simpl.
  - reflexivity.
  - destruct (snd entry); try exact IH.
    pose proof (@TryOptimizeGet_fst_children get gc gc' filter (Some (fst entry)) expr)
      as Hf.
    destruct (TryOptimizeGet (RewriteState.mk (LOGICAL_GET get gc) filter) _ _)
      as [r1 st1] eqn:E1.
    destruct (TryOptimizeGet (RewriteState.mk (LOGICAL_GET get gc') filter) _ _)
      as [r2 st2] eqn:E2.
    simpl in Hf. subst r2. destruct r1 as [[|]|ex]; try reflexivity.
    apply TryOptimizeGet_false_unchanged in E1, E2. subst st1 st2. exact IH.
Qed.

Lemma OptimizeRecursive_same_scan :
  forall fuel c c',
    OptimizeRecursive fuel c = Some (Return tt, c') -> same_scan c c'.
Proof.
  intros [|fuel] c c' H; [discriminate|]. rewrite OptimizeRecursive_S in H.
  intros g gc' ->.
  destruct (TryOptimize c) as [[[|]|ex] c1] eqn:E.
  - inversion H; subst c1. apply TryOptimize_true_inv in E.
    destruct E as (get & gc & bd & new & Hr &
                   [(_ & Hf & Hn)|(filter & filter' & e & siblings & _ & Hn & _)]).
    + subst new.
      destruct (@rewritten_scan_cases get gc bd _ Hr) as [[Hf' _]|[_ (ps & Hn)]].
      * contradiction.
      * discriminate.
    + discriminate.
  - apply TryOptimize_false_unchanged in E. subst c1.
    destruct (optimize_children _ _) as [[r cs']|]; [|discriminate].
    inversion H; subst. destruct c; simpl in *; try discriminate.
    inversion H2; subst. eexists. reflexivity.
  - inversion H.
Qed.

Lemma optimize_children_Forall2 :
  forall rec cs cs',
    optimize_children rec cs = Some (Return tt, cs') ->
    Forall2 (fun c c' => rec c = Some (Return tt, c')) cs cs'.
Proof.
  intros rec. induction cs as [|c cs IH]; simpl; intros cs' H.
  - inversion H. constructor.
  - destruct (rec c) as [[[[]|ex] c']|] eqn:Ec; try discriminate.
    destruct (optimize_children rec cs) as [[r rest']|] eqn:Er; try discriminate.
    inversion H; subst. constructor; [exact Ec|]. apply IH. reflexivity.
Qed.

Lemma TryOptimize_false_after_children :
  forall plan cs',
    fst (TryOptimize plan) = Return false ->
    Forall2 same_scan (children_of plan) cs' ->
    fst (TryOptimize (set_children plan cs')) = Return false.
Proof.
  intros [get cs|filter cs|t es cs] cs' H Hc; simpl in *.
  - rewrite <- H. apply try_expression_filters_fst_children.
  - destruct (LogicalFilter.expressions filter) as [|e [|]]; try reflexivity.
    inversion Hc as [|c c' sibs sibs' Hs Hrest]; subst; [discriminate|].
    destruct c' as [get gc'| |]; try reflexivity.
    destruct (Hs get gc' eq_refl) as [gc ->].
    cbn [fst] in *. rewrite <- H. apply TryOptimizeGet_fst_children.
  - reflexivity.
Qed.

Lemma scans_are_leaves_children :
  forall plan,
    scans_are_leaves plan = true ->
    forallb scans_are_leaves (children_of plan) = true.
Proof.
  intros [get cs|f cs|t es cs]; simpl; intros H.
  - destruct cs; [reflexivity|discriminate].
  - destruct cs as [|c [|]]; try discriminate. simpl. rewrite H. reflexivity.
  - exact H.
Qed.

Lemma OptimizeRecursive_result_no_match :
  forall fuel plan plan',
    scans_are_leaves plan = true ->
    OptimizeRecursive fuel plan = Some (Return tt, plan') ->
    no_match plan' = true.
Proof.
  induction fuel as [|fuel IH]; intros plan plan' Hw H; [discriminate|].
  rewrite OptimizeRecursive_S in H.
  destruct (TryOptimize plan) as [[[|]|ex] plan1] eqn:E.
  - inversion H; subst plan1.
    pose proof (@TryOptimize_after_match plan plan' E) as Hafter.
    apply TryOptimize_true_inv in E.
    destruct E as (get & gc & bd & new & Hr &
                   [(-> & _ & ->)|(filter & filter' & e & siblings & -> & -> & _ & _)]).
    + simpl in Hw. destruct gc; [|discriminate].
      apply (@no_match_rewritten_scan get bd new Hr).
    + simpl in Hw. destruct siblings; [|discriminate].
      simpl in Hw. destruct gc; [|discriminate].
      rewrite no_match_unfold, Hafter. cbn [fst children_of forallb].
      rewrite (@no_match_rewritten_scan get bd new Hr). reflexivity.
  - apply TryOptimize_false_unchanged in E as Hp. subst plan1.
    destruct (optimize_children _ _) as [[r cs']|] eqn:Ec; [|discriminate].
    inversion H; subst. apply optimize_children_Forall2 in Ec.
    apply scans_are_leaves_children in Hw. rewrite forallb_forall in Hw.
    rewrite no_match_unfold.
    rewrite (@TryOptimize_false_after_children plan cs').
    + replace (children_of (set_children plan cs')) with cs'
        by (destruct plan; reflexivity).
      apply forallb_forall. intros c' Hin.
      destruct (@Forall2_In_right _ _ _ (children_of plan) cs' c' Ec Hin)
        as (c & Hc & Hrun).
      apply (IH c c'); auto.
    + rewrite E. reflexivity.
    + eapply Forall2_impl; [|exact Ec].
      intros c c' Hrun. eapply OptimizeRecursive_same_scan. exact Hrun.
  - inversion H.
Qed.

(** X3: the rewriter is idempotent.  On a plan in which every scan is a leaf
    and every filter has one input, a run of [Optimize] that ends normally
    leaves a plan in which [TryOptimize] matches no node, so that a second
    run returns it unchanged. *)
Theorem Optimize_is_idempotent :
  forall fuel plan plan' fuel',
    scans_are_leaves plan = true ->
    Optimize Equals ToExpression cardinality fuel plan = Some (Return tt, plan') ->
    height plan' <= fuel' ->
    no_match plan' = true /\
    Optimize Equals ToExpression cardinality fuel' plan' = Some (Return tt, plan').
Proof.
  intros fuel plan plan' fuel' Hw H Hh. unfold Optimize in *.
  pose proof (@OptimizeRecursive_result_no_match fuel plan plan' Hw H) as Hn.
  split; [exact Hn|]. apply OptimizeRecursive_no_match; assumption.
Qed.

(** ** The traversal, node by node *)

Lemma children_of_set_children :
  forall plan cs, children_of (set_children plan cs) = cs.
Proof. destruct plan; reflexivity. Qed.

Lemma Forall2_nth_error_left :
  forall (A B : Type) (R : A -> B -> Prop) l l' i a,
    Forall2 R l l' -> nth_error l i = Some a ->
    exists b, nth_error l' i = Some b /\ R a b.
Proof.
  intros A B R l l' i a H. revert i.
  induction H as [|x y l l' Hxy _ IH]; intros [|i] Hi; simpl in *; try discriminate.
  - inversion Hi; subst. exists y. auto.
  - apply IH. exact Hi.
Qed.

Lemma optimize_children_untouched :
  forall rec cs r cs',
    Forall (fun c => forall r c', rec c = Some (r, c') -> r = Return tt /\ c' = c) cs ->
    optimize_children rec cs = Some (r, cs') ->
    r = Return tt /\ cs' = cs.
Proof.
  intros rec cs. induction cs as [|c cs IH]; simpl; intros r cs' Hall H.
  - inversion H. auto.
  - inversion Hall as [|? ? Hc Hcs]; subst.
    destruct (rec c) as [[rc c1]|] eqn:Ec; [|discriminate].
    destruct (Hc rc c1 eq_refl) as [-> ->].
    destruct (optimize_children rec cs) as [[r1 cs1]|] eqn:Er; [|discriminate].
    inversion H; subst.
    destruct (IH r cs1 Hcs eq_refl) as [-> ->]. auto.
Qed.

Lemma OptimizeRecursive_no_match_inv :
  forall fuel plan r plan',
    no_match plan = true ->
    OptimizeRecursive fuel plan = Some (r, plan') ->
    r = Return tt /\ plan' = plan.
Proof.
  induction fuel as [|fuel IH]; intros plan r plan' Hn H; [discriminate|].
  apply no_match_inv in Hn. destruct Hn as [Hr Hc].
  rewrite OptimizeRecursive_S in H.
  destruct (TryOptimize plan) as [t p] eqn:E. simpl in Hr. subst t.
  apply TryOptimize_false_unchanged in E. subst p.
  destruct (optimize_children (OptimizeRecursive fuel) (children_of plan))
    as [[r1 cs1]|] eqn:Er; [|discriminate].
  inversion H; subst.
  destruct (@optimize_children_untouched (OptimizeRecursive fuel) (children_of plan)
              r cs1) as [-> ->].
  - rewrite forallb_forall in Hc. apply Forall_forall.
    intros c Hin r' c' Hrun. apply IH; [apply Hc; exact Hin | exact Hrun].
  - exact Er.
  - split; [reflexivity | apply set_children_children_of].
Qed.

Lemma OptimizeRecursive_at_path :
  forall fuel plan plan',
    OptimizeRecursive fuel plan = Some (Return tt, plan') ->
    forall path s,
      not_below_a_match path plan = true ->
      subtree_at path plan = Some s ->
      (forall s', TryOptimize s = (Return true, s') ->
                  subtree_at path plan' = Some s') /\
      (no_match s = true -> subtree_at path plan' = Some s).
Proof.
  induction fuel as [|fuel IH]; intros plan plan' H path s Hv Hs; [discriminate|].
  destruct path as [|i rest].
  - simpl in Hs. inversion Hs; subst s. split.
    + intros s' Ht. rewrite OptimizeRecursive_S, Ht in H. inversion H. reflexivity.
    + intros Hn. destruct (@OptimizeRecursive_no_match_inv _ _ _ _ Hn H) as [_ ->].
      reflexivity.
  - simpl in Hv, Hs.
    destruct (TryOptimize plan) as [t p] eqn:E. simpl in Hv.
    destruct t as [[|]|]; try discriminate.
    apply TryOptimize_false_unchanged in E as Hp. subst p.
    destruct (nth_error (children_of plan) i) as [c|] eqn:Ei; [|discriminate].
    rewrite OptimizeRecursive_S, E in H.
    destruct (optimize_children (OptimizeRecursive fuel) (children_of plan))
      as [[r1 cs1]|] eqn:Er; [|discriminate].
    inversion H; subst r1 plan'.
    apply optimize_children_Forall2 in Er.
    destruct (@Forall2_nth_error_left _ _ _ _ _ i c Er Ei) as (c' & Hi' & Hrun).
    simpl. rewrite children_of_set_children, Hi'.
    apply (IH c c' Hrun rest s Hv Hs).
Qed.

(** C7: the traversal is top-down and stops at a match.  When [TryOptimize]
    matches the plan, the traversal returns the plan that [TryOptimize]
    left, without a visit to the children; a plan in which no node is
    matched comes back unchanged; with a bound of at least the height of the
    plan the traversal completes.  And in a run that ends normally the same
    holds of every subtree that is not below a matched node, wherever it is
    in the plan: where [TryOptimize] matches the root of the subtree, the
    result holds at that place exactly the plan that [TryOptimize] left
    there, and a subtree in which no node is matched is at its place
    unchanged. *)
Theorem OptimizeRecursive_stops_at_match_and_frames :
  forall fuel plan,
    height plan <= fuel ->
    (forall plan',
        TryOptimize plan = (Return true, plan') ->
        OptimizeRecursive fuel plan = Some (Return tt, plan')) /\
    (no_match plan = true ->
        OptimizeRecursive fuel plan = Some (Return tt, plan)) /\
    (exists r plan',
        OptimizeRecursive fuel plan = Some (r, plan') /\
        (r = Return tt ->
         forall path s,
           not_below_a_match path plan = true ->
           subtree_at path plan = Some s ->
           (forall s', TryOptimize s = (Return true, s') ->
                       subtree_at path plan' = Some s') /\
           (no_match s = true -> subtree_at path plan' = Some s))).
Proof.
  intros fuel plan Hh. split; [|split].
  - intros plan' Ht. destruct fuel as [|fuel].
    + destruct plan; simpl in Hh; lia.
    + simpl. rewrite Ht. reflexivity.
  - intros Hn. apply OptimizeRecursive_no_match; assumption.
  - destruct (@OptimizeRecursive_total Equals ToExpression cardinality fuel plan Hh)
      as [[r plan'] Hrun].
    exists r, plan'. split; [exact Hrun|].
    intros -> path s Hv Hs.
    apply (@OptimizeRecursive_at_path fuel plan plan' Hrun path s Hv Hs).
Qed.

End RewriterFurtherFacts.

(* ===================================================================== *)
(** * The rewrite of the index key *)
(* ===================================================================== *)

(** ** For a pushed-down filter *)

Lemma RewriteIndexExpressionForFilter_function :
  forall filter_idx t f cs flag,
    RewriteIndexExpressionForFilter (BoundFunctionExpression t f cs) filter_idx flag =
    (BoundFunctionExpression t f (fst (EnumerateChildren_ForFilter filter_idx cs flag)),
     snd (EnumerateChildren_ForFilter filter_idx cs flag)).
Proof.
  intros filter_idx t f. induction cs as [|c cs IH]; intros flag.
  - reflexivity.
  - specialize (IH (snd (RewriteIndexExpressionForFilter c filter_idx flag))).
    simpl in *. inversion IH as [[H1 H2]]. rewrite H1, H2. reflexivity.
Qed.

Lemma RewriteIndexExpressionForFilter_operator :
  forall filter_idx k t cs flag,
    RewriteIndexExpressionForFilter (BoundOperatorExpression k t cs) filter_idx flag =
    (BoundOperatorExpression k t (fst (EnumerateChildren_ForFilter filter_idx cs flag)),
     snd (EnumerateChildren_ForFilter filter_idx cs flag)).
Proof.
  intros filter_idx k t. induction cs as [|c cs IH]; intros flag.
  - reflexivity.
  - specialize (IH (snd (RewriteIndexExpressionForFilter c filter_idx flag))).
    simpl in *. inversion IH as [[H1 H2]]. rewrite H1, H2. reflexivity.
Qed.

Lemma RewriteIndexExpressionForFilter_conjunction :
  forall filter_idx k cs flag,
    RewriteIndexExpressionForFilter (BoundConjunctionExpression k cs) filter_idx flag =
    (BoundConjunctionExpression k (fst (EnumerateChildren_ForFilter filter_idx cs flag)),
     snd (EnumerateChildren_ForFilter filter_idx cs flag)).
Proof.
  intros filter_idx k. induction cs as [|c cs IH]; intros flag.
  - reflexivity.
  - specialize (IH (snd (RewriteIndexExpressionForFilter c filter_idx flag))).
    simpl in *. inversion IH as [[H1 H2]]. rewrite H1, H2. reflexivity.
Qed.

Lemma EnumerateChildren_ForFilter_spec :
  forall filter_idx cs,
    Forall (fun e => forall flag,
              snd (RewriteIndexExpressionForFilter e filter_idx flag) =
              flag && forallb (fun b => Nat.eqb (ColumnBinding.column_index b) filter_idx)
                        (column_refs e) /\
              column_refs (fst (RewriteIndexExpressionForFilter e filter_idx flag)) =
              filter (fun b => negb (Nat.eqb (ColumnBinding.column_index b) filter_idx))
                (column_refs e)) cs ->
    forall flag,
      snd (EnumerateChildren_ForFilter filter_idx cs flag) =
      flag && forallb (fun b => Nat.eqb (ColumnBinding.column_index b) filter_idx)
                (flat_map column_refs cs) /\
      flat_map column_refs (fst (EnumerateChildren_ForFilter filter_idx cs flag)) =
      filter (fun b => negb (Nat.eqb (ColumnBinding.column_index b) filter_idx))
        (flat_map column_refs cs).
Proof.
  intros filter_idx cs H. induction H as [|c cs Hc _ IH]; intros flag.
  - simpl. rewrite andb_true_r. auto.
  - cbn [EnumerateChildren_ForFilter fst snd].
    change (flat_map column_refs (c :: cs))
      with (column_refs c ++ flat_map column_refs cs)%list.
    match goal with
    | |- _ /\ flat_map column_refs (?x :: ?l) = _ =>
        change (flat_map column_refs (x :: l))
          with (column_refs x ++ flat_map column_refs l)%list
    end.
    destruct (Hc flag) as [Hs Hf].
    destruct (IH (snd (RewriteIndexExpressionForFilter c filter_idx flag))) as [Hs' Hf'].
    rewrite Hf', Hs', Hf, Hs, forallb_app, filter_app, andb_assoc. auto.
Qed.

Lemma RewriteIndexExpressionForFilter_spec :
  forall filter_idx expr flag,
    snd (RewriteIndexExpressionForFilter expr filter_idx flag) =
    flag && forallb (fun b => Nat.eqb (ColumnBinding.column_index b) filter_idx)
              (column_refs expr) /\
    column_refs (fst (RewriteIndexExpressionForFilter expr filter_idx flag)) =
    filter (fun b => negb (Nat.eqb (ColumnBinding.column_index b) filter_idx))
      (column_refs expr).
Proof.
  intros filter_idx expr. induction expr as [t b|t i|v|t f cs IH|k t cs IH|k cs IH]
    using Expression_ind_children; intros flag.
  - simpl. destruct (Nat.eqb (ColumnBinding.column_index b) filter_idx); simpl.
    + rewrite andb_true_r. auto.
    + rewrite andb_false_r. auto.
  - simpl. rewrite andb_true_r. auto.
  - simpl. rewrite andb_true_r. auto.
  - rewrite RewriteIndexExpressionForFilter_function.
    apply (@EnumerateChildren_ForFilter_spec filter_idx cs IH).
  - rewrite RewriteIndexExpressionForFilter_operator.
    apply (@EnumerateChildren_ForFilter_spec filter_idx cs IH).
  - rewrite RewriteIndexExpressionForFilter_conjunction.
    apply (@EnumerateChildren_ForFilter_spec filter_idx cs IH).
Qed.



(** ** For a filter above the scan *)

Lemma RewriteIndexExpression_function :
  forall index get t f cs flag,
    RewriteIndexExpression index get (BoundFunctionExpression t f cs) flag =
    (r <- EnumerateChildren_RewriteIndexExpression index get cs flag ;;
     Return (BoundFunctionExpression t f (fst r), snd r)).
Proof.
  intros index get t f. induction cs as [|c cs IH]; intros flag.
  - reflexivity.
  - simpl in *. destruct (RewriteIndexExpression index get c flag) as [r1|ex];
      [|reflexivity].
    specialize (IH (snd r1)). simpl in *.
    match goal with
    | |- bind (bind ?x _) _ = _ => destruct x as [r2|ex]
    end; simpl in *.
    + destruct (EnumerateChildren_RewriteIndexExpression index get cs (snd r1))
        as [r2'|ex]; simpl in *; [|discriminate].
      inversion IH as [[H1 H2]]. rewrite H1, H2. reflexivity.
    + destruct (EnumerateChildren_RewriteIndexExpression index get cs (snd r1))
        as [r2'|ex2]; simpl in *; [discriminate|].
      inversion IH. reflexivity.
Qed.

Lemma RewriteIndexExpression_operator :
  forall index get k t cs flag,
    RewriteIndexExpression index get (BoundOperatorExpression k t cs) flag =
    (r <- EnumerateChildren_RewriteIndexExpression index get cs flag ;;
     Return (BoundOperatorExpression k t (fst r), snd r)).
Proof.
  intros index get k t. induction cs as [|c cs IH]; intros flag.
  - reflexivity.
  - simpl in *. destruct (RewriteIndexExpression index get c flag) as [r1|ex];
      [|reflexivity].
    specialize (IH (snd r1)). simpl in *.
    match goal with
    | |- bind (bind ?x _) _ = _ => destruct x as [r2|ex]
    end; simpl in *.
    + destruct (EnumerateChildren_RewriteIndexExpression index get cs (snd r1))
        as [r2'|ex]; simpl in *; [|discriminate].
      inversion IH as [[H1 H2]]. rewrite H1, H2. reflexivity.
    + destruct (EnumerateChildren_RewriteIndexExpression index get cs (snd r1))
        as [r2'|ex2]; simpl in *; [discriminate|].
      inversion IH. reflexivity.
Qed.

Lemma RewriteIndexExpression_conjunction :
  forall index get k cs flag,
    RewriteIndexExpression index get (BoundConjunctionExpression k cs) flag =
    (r <- EnumerateChildren_RewriteIndexExpression index get cs flag ;;
     Return (BoundConjunctionExpression k (fst r), snd r)).
Proof.
  intros index get k. induction cs as [|c cs IH]; intros flag.
  - reflexivity.
  - simpl in *. destruct (RewriteIndexExpression index get c flag) as [r1|ex];
      [|reflexivity].
    specialize (IH (snd r1)). simpl in *.
    match goal with
    | |- bind (bind ?x _) _ = _ => destruct x as [r2|ex]
    end; simpl in *.
    + destruct (EnumerateChildren_RewriteIndexExpression index get cs (snd r1))
        as [r2'|ex]; simpl in *; [|discriminate].
      inversion IH as [[H1 H2]]. rewrite H1, H2. reflexivity.
    + destruct (EnumerateChildren_RewriteIndexExpression index get cs (snd r1))
        as [r2'|ex2]; simpl in *; [discriminate|].
      inversion IH. reflexivity.
Qed.

Lemma EnumerateChildren_RewriteIndexExpression_spec :
  forall index get cs,
    Forall (fun e => forall flag,
              match RewriteIndexExpression index get e flag with
              | Return r =>
                  Forall2 (rewritten_binding index get) (column_refs e)
                    (column_refs (fst r)) /\
                  snd r = flag && forallb (column_is_scanned index get) (column_refs e)
              | Throw ex =>
                  ex = InternalException "Attempted to access index out of range of vector" /\
                  Exists (fun b => List.length (Index.column_ids index) <=
                                   ColumnBinding.column_index b) (column_refs e)
              end) cs ->
    forall flag,
      match EnumerateChildren_RewriteIndexExpression index get cs flag with
      | Return r =>
          Forall2 (rewritten_binding index get) (flat_map column_refs cs)
            (flat_map column_refs (fst r)) /\
          snd r = flag && forallb (column_is_scanned index get) (flat_map column_refs cs)
      | Throw ex =>
          ex = InternalException "Attempted to access index out of range of vector" /\
          Exists (fun b => List.length (Index.column_ids index) <=
                           ColumnBinding.column_index b) (flat_map column_refs cs)
      end.
Proof.
  intros index get cs H. induction H as [|c cs Hc _ IH]; intros flag.
  - simpl. rewrite andb_true_r. auto.
  - cbn [EnumerateChildren_RewriteIndexExpression].
    change (flat_map column_refs (c :: cs))
      with (column_refs c ++ flat_map column_refs cs)%list.
    specialize (Hc flag).
    destruct (RewriteIndexExpression index get c flag) as [r1|ex]; cbn [bind].
    + destruct Hc as [Hb Hs]. specialize (IH (snd r1)).
      destruct (EnumerateChildren_RewriteIndexExpression index get cs (snd r1))
        as [r2|ex]; cbn [bind fst snd].
      * destruct IH as [Hb' Hs'].
        change (flat_map column_refs (fst r1 :: fst r2))
          with (column_refs (fst r1) ++ flat_map column_refs (fst r2))%list.
        split; [apply Forall2_app; assumption|].
        rewrite Hs', Hs, forallb_app, andb_assoc. reflexivity.
      * destruct IH as [He Hx]. split; [exact He|].
        apply Exists_app. right. exact Hx.
    + destruct Hc as [He Hx]. split; [exact He|]. apply Exists_app. left. exact Hx.
Qed.

Lemma RewriteIndexExpression_spec :
  forall index get expr flag,
    match RewriteIndexExpression index get expr flag with
    | Return r =>
        Forall2 (rewritten_binding index get) (column_refs expr) (column_refs (fst r)) /\
        snd r = flag && forallb (column_is_scanned index get) (column_refs expr)
    | Throw ex =>
        ex = InternalException "Attempted to access index out of range of vector" /\
        Exists (fun b => List.length (Index.column_ids index) <=
                         ColumnBinding.column_index b) (column_refs expr)
    end.
Proof.
  intros index get expr.
  induction expr as [t b|t i|v|t f cs IH|k t cs IH|k cs IH]
    using Expression_ind_children; intros flag.
  - simpl. unfold vector_at, column_is_scanned.
    destruct (nth_error (Index.column_ids index) (ColumnBinding.column_index b))
      as [column|] eqn:En; cbn [bind].
    + destruct (find_column (LogicalGet.column_ids get) column 0) as [i|] eqn:Ef;
        cbn [fst snd column_refs forallb].
      * rewrite !andb_true_r. split; [|reflexivity].
        constructor; [|constructor]. split; [reflexivity|].
        exists column. rewrite Ef. auto.
      * rewrite andb_false_r. split; [|reflexivity].
        constructor; [|constructor]. split; [reflexivity|].
        exists column. rewrite Ef. auto.
    + split; [reflexivity|]. constructor. apply nth_error_None. exact En.
  - simpl. rewrite andb_true_r. auto.
  - simpl. rewrite andb_true_r. auto.
  - rewrite RewriteIndexExpression_function.
    pose proof (@EnumerateChildren_RewriteIndexExpression_spec index get cs IH flag) as H.
    destruct (EnumerateChildren_RewriteIndexExpression index get cs flag); exact H.
  - rewrite RewriteIndexExpression_operator.
    pose proof (@EnumerateChildren_RewriteIndexExpression_spec index get cs IH flag) as H.
    destruct (EnumerateChildren_RewriteIndexExpression index get cs flag); exact H.
  - rewrite RewriteIndexExpression_conjunction.
    pose proof (@EnumerateChildren_RewriteIndexExpression_spec index get cs IH flag) as H.
    destruct (EnumerateChildren_RewriteIndexExpression index get cs flag); exact H.
Qed.

Lemma rewritten_binding_scanned :
  forall index get refs refs',
    Forall2 (rewritten_binding index get) refs refs' ->
    forallb (column_is_scanned index get) refs = true ->
    Forall2 (rebound_to_scan index get) refs refs'.
Proof.
  intros index get refs refs' H. induction H as [|old new refs refs' Hb _ IH]; simpl.
  - constructor.
  - intros Hs. apply andb_true_iff in Hs. destruct Hs as [Hs1 Hs2].
    constructor; [|apply IH; exact Hs2].
    destruct Hb as (Ht & column & Hn & Hc). split; [exact Ht|].
    exists column. split; [exact Hn|].
    unfold column_is_scanned in Hs1. rewrite Hn in Hs1.
    destruct (find_column (LogicalGet.column_ids get) column 0) as [i|] eqn:Ef;
      [|discriminate].
    apply find_column_spec in Ef. destruct Ef as (_ & Hi & Hfirst).
    rewrite Nat.sub_0_r in *. rewrite Hc. auto.
Qed.

(** X5: [RewriteIndexExpression] either throws the out-of-range exception
    of the engine's vector, and then some column reference of the key
    points beyond the column ids of the index; or it returns the key with
    every column reference bound to the scan: the table index is the scan's,
    and the rewrite is reported possible exactly when every referenced table
    column is among the column ids of the scan, each reference then pointing
    at the first position of its column in the scan. *)
Theorem RewriteIndexExpression_binds_key_to_scan :
  forall index get expr,
    match RewriteIndexExpression index get expr true with
    | Return (expr', possible) =>
        Forall2 (rewritten_binding index get) (column_refs expr) (column_refs expr') /\
        (possible = true <->
         Forall (fun b => column_is_scanned index get b = true) (column_refs expr)) /\
        (possible = true ->
         Forall2 (rebound_to_scan index get) (column_refs expr) (column_refs expr'))
    | Throw ex =>
        ex = InternalException "Attempted to access index out of range of vector" /\
        Exists (fun b => List.length (Index.column_ids index) <=
                         ColumnBinding.column_index b) (column_refs expr)
    end.
Proof.
  intros index get expr.
  pose proof (RewriteIndexExpression_spec index get expr true) as H.
  destruct (RewriteIndexExpression index get expr true) as [[expr' possible]|ex];
    [|exact H].
  cbn [fst snd andb] in H. destruct H as [Hb Hs]. split; [exact Hb|].
  split.
  - rewrite Hs, forallb_forall, Forall_forall. reflexivity.
  - intros Hp. rewrite Hp in Hs. symmetry in Hs.
    apply (rewritten_binding_scanned Hb Hs).
Qed.

(* ===================================================================== *)
(** * The choice of the index and the operands of the predicate *)
(* ===================================================================== *)

Lemma remap_projection_map_spec :
  forall projection_ids projection_map projection_map',
    remap_projection_map projection_ids projection_map = (Return tt, projection_map') <->
    Forall2 (projected_through projection_ids) projection_map projection_map'.
Proof.
  intros ids. unfold projected_through.
  induction projection_map as [|id rest IH]; intros pm'; simpl.
  - split.
    + intros H. inversion H. constructor.
    + intros H. inversion H. reflexivity.
  - unfold vector_at. destruct (nth_error ids id) as [id'|] eqn:En.
    + destruct (remap_projection_map ids rest) as [r rest'] eqn:Er. simpl. split.
      * intros H. inversion H; subst. constructor; [exact En|].
        apply IH. reflexivity.
      * intros H. inversion H as [|? y ? l' Hy Hl]; subst.
        apply IH in Hl. inversion Hl; subst. congruence.
    + split.
      * intros H. inversion H.
      * intros H. inversion H; subst. congruence.
Qed.

Lemma BindAndScan_ext :
  forall indexes callback callback',
    (forall index, callback index = callback' index) ->
    BindAndScan indexes callback = BindAndScan indexes callback'.
Proof.
  intros indexes callback callback' H. induction indexes as [|index rest IH]; simpl.
  - reflexivity.
  - rewrite H, IH. reflexivity.
Qed.

Lemma BindAndScan_some :
  forall indexes callback bind_data,
    BindAndScan indexes callback = Return (Some bind_data) <->
    exists before index after,
      indexes = (before ++ index :: after)%list /\
      Index.index_type index = RTreeIndex_TYPE_NAME /\
      callback index = Return (Some bind_data) /\
      Forall (fun i => Index.index_type i = RTreeIndex_TYPE_NAME ->
                       callback i = Return None) before.
Proof.
  intros indexes callback bd. split.
  - induction indexes as [|index rest IH]; simpl; intros H.
    + discriminate.
    + destruct (String.eqb (Index.index_type index) RTreeIndex_TYPE_NAME) eqn:Et.
      * apply String.eqb_eq in Et.
        destruct (callback index) as [[bd'|]|ex] eqn:Ec; simpl in H; try discriminate.
        -- inversion H; subst. exists [], index, rest. auto.
        -- destruct (IH H) as (before & i & after & -> & Hi & Hc & Hb).
           exists (index :: before), i, after. repeat split; auto.
      * apply String.eqb_neq in Et.
        destruct (IH H) as (before & i & after & -> & Hi & Hc & Hb).
        exists (index :: before), i, after. repeat split; auto.
        constructor; [|exact Hb]. intros Hty. contradiction.
  - intros (before & index & after & -> & Hi & Hc & Hb).
    induction Hb as [|i before Hib _ IH]; simpl.
    + rewrite Hi, String.eqb_refl, Hc. reflexivity.
    + destruct (String.eqb (Index.index_type i) RTreeIndex_TYPE_NAME) eqn:Et.
      * apply String.eqb_eq in Et. rewrite (Hib Et). simpl. exact IH.
      * exact IH.
Qed.

Section MatcherFacts.

Variable Equals : Expression -> Expression -> bool.
Variable ToExpression : TableFilter -> Expression -> Expression.
Variable cardinality : RTreeIndexScanBindData.t -> NodeStatistics.t.

Local Abbreviation TryOptimizeGet := (TryOptimizeGet Equals ToExpression cardinality).
Local Abbreviation TryOptimize := (TryOptimize Equals ToExpression cardinality).
Local Abbreviation try_expression_filters :=
  (try_expression_filters Equals ToExpression cardinality).
Local Abbreviation index_callback := (index_callback Equals).
Local Abbreviation index_scan := (index_scan cardinality).
Local Abbreviation rewritten_scan := (rewritten_scan ToExpression cardinality).
Local Abbreviation SetMatcher_Match := (SetMatcher_Match Equals).
Local Abbreviation ExpressionMatcher_Match := (ExpressionMatcher_Match Equals).

Lemma index_callback_bind_data :
  forall table get idx filter_expr index bind_data,
    index_callback table get idx filter_expr index = Return (Some bind_data) ->
    RTreeIndexScanBindData.table bind_data = table /\
    RTreeIndexScanBindData.index bind_data = index /\
    exists value,
      In (BoundConstantExpression value) (operands filter_expr) /\
      TryGetBoundingBox value = Some (RTreeIndexScanBindData.bbox bind_data).
Proof.
  intros table get idx filter_expr index bd H.
  split; [|split; [|apply (@index_callback_some Equals table get idx filter_expr index bd H)]];
    revert H; unfold index_callback;
    (destruct (vector_at (Index.unbound_expressions index) 0) as [key|];
     simpl; try discriminate);
    (match goal with
     | |- bind ?r _ = _ -> _ => destruct r as [[index_expr possible]|]
     end; simpl; try discriminate);
    (destruct possible; simpl; try discriminate);
    (destruct (FunctionExpressionMatcher_Match _ _ _ _) as [bindings|];
     try discriminate);
    (destruct (vector_at bindings 2) as [[| |value| | |]|]; simpl; try discriminate);
    (destruct (TryGetBoundingBox value); try discriminate);
    intros H; inversion H; reflexivity.
Qed.

(** X6: the index scan is bound to the first index of the R-tree type, in
    the order of the table's index list, whose callback accepts the
    predicate; indexes of other types are passed over and every R-tree index
    before the chosen one has declined.  The bind data holds the table, that
    index, and the cached bounds of a constant operand of the predicate. *)
Theorem BindAndScan_binds_first_matching_index :
  forall table get idx filter_expr bind_data,
    BindAndScan (TableCatalogEntry.indexes table)
      (index_callback table get idx filter_expr) = Return (Some bind_data) ->
    exists before index after value,
      TableCatalogEntry.indexes table = (before ++ index :: after)%list /\
      Index.index_type index = RTreeIndex_TYPE_NAME /\
      Forall (fun i => Index.index_type i = RTreeIndex_TYPE_NAME ->
                       index_callback table get idx filter_expr i = Return None) before /\
      RTreeIndexScanBindData.table bind_data = table /\
      RTreeIndexScanBindData.index bind_data = index /\
      In (BoundConstantExpression value) (operands filter_expr) /\
      TryGetBoundingBox value = Some (RTreeIndexScanBindData.bbox bind_data).
Proof.
  intros table get idx filter_expr bd H.
  apply BindAndScan_some in H. destruct H as (before & index & after & Hl & Ht & Hc & Hb).
  apply index_callback_bind_data in Hc. destruct Hc as (H1 & H2 & value & H3 & H4).
  exists before, index, after, value. repeat split; assumption.
Qed.

(** ** The order of the operands *)

Lemma SetMatcher_Match_pair :
  forall key a b,
    SetMatcher_Match [ExpressionEqualityMatcher key; ConstantExpressionMatcher] [a; b] =
    if Equals key a && ExpressionMatcher_Match ConstantExpressionMatcher b
    then Some [a; b]
    else if Equals key b && ExpressionMatcher_Match ConstantExpressionMatcher a
         then Some [b; a]
         else None.
Proof.
  intros key a b. unfold SetMatcher_Match. simpl.
  destruct (Equals key a), (Equals key b), a, b; reflexivity.
Qed.

Lemma index_callback_operand_order :
  forall table get idx index return_type f a b,
    (forall va vb, a = BoundConstantExpression va -> b <> BoundConstantExpression vb) ->
    index_callback table get idx (BoundFunctionExpression return_type f [a; b]) index =
    index_callback table get idx (BoundFunctionExpression return_type f [b; a]) index.
Proof.
  intros table get idx index return_type f a b Hab. unfold index_callback.
  destruct (vector_at (Index.unbound_expressions index) 0) as [key|]; [|reflexivity].
  cbn [bind].
  match goal with
  | |- bind ?r _ = _ => destruct r as [[index_expr possible]|]
  end; [|reflexivity].
  cbn [bind fst snd]. destruct possible; [|reflexivity]. cbn [negb].
  unfold FunctionExpressionMatcher_Match.
  destruct (negb (set_contains spatial_predicates (ScalarFunction.name f)));
    [reflexivity|].
  rewrite !SetMatcher_Match_pair.
  destruct (Equals index_expr a), (Equals index_expr b), a, b; try reflexivity.
  exfalso. eapply Hab; reflexivity.
Qed.

Lemma TryOptimizeGet_ext :
  forall st idx e e',
    (forall table get index,
        index_callback table get idx e index = index_callback table get idx e' index) ->
    TryOptimizeGet st idx e = TryOptimizeGet st idx e'.
Proof.
  intros st idx e e' H. unfold TryOptimizeGet.
  destruct (RewriteState.get_ptr st) as [get gc| |]; try reflexivity.
  destruct (negb (String.eqb _ _)); [reflexivity|].
  destruct (match LogicalGet.dynamic_filters get with
            | Some b => b | None => false end); [reflexivity|].
  destruct (LogicalGet.table get) as [table|]; [|reflexivity].
  destruct (negb (TableCatalogEntry.IsDuckTable table)); [reflexivity|].
  rewrite (@BindAndScan_ext (TableCatalogEntry.indexes table)
             (index_callback table get idx e) (index_callback table get idx e')
             (H table get)).
  reflexivity.
Qed.

(** X7: the two operands of the predicate are matched in either order
    ([SetMatcher::Policy::UNORDERED]): unless both are constants, swapping
    them changes neither the outcome of [TryOptimizeGet] nor the plan it
    leaves, so a filter [f(constant, key)] over a scan is rewritten to the
    same index scan as [f(key, constant)]. *)
Theorem TryOptimizeGet_matches_operands_in_either_order :
  forall st idx return_type f a b,
    (forall va vb, a = BoundConstantExpression va -> b <> BoundConstantExpression vb) ->
    TryOptimizeGet st idx (BoundFunctionExpression return_type f [a; b]) =
    TryOptimizeGet st idx (BoundFunctionExpression return_type f [b; a]) /\
    (forall projection_map get gc siblings,
        fst (TryOptimize
               (predicate_over_scan return_type f [a; b] projection_map get gc siblings)) =
        fst (TryOptimize
               (predicate_over_scan return_type f [b; a] projection_map get gc siblings)) /\
        children_of
          (snd (TryOptimize
                  (predicate_over_scan return_type f [a; b] projection_map get gc
                     siblings))) =
        children_of
          (snd (TryOptimize
                  (predicate_over_scan return_type f [b; a] projection_map get gc
                     siblings)))).
Proof.
  intros st idx return_type f a b Hab.
  assert (Hext : forall st idx,
             TryOptimizeGet st idx (BoundFunctionExpression return_type f [a; b]) =
             TryOptimizeGet st idx (BoundFunctionExpression return_type f [b; a])).
  { intros st' idx'. apply TryOptimizeGet_ext. intros table get index.
    apply index_callback_operand_order. exact Hab. }
  split; [apply Hext|].
  intros projection_map get gc siblings. unfold predicate_over_scan, TryOptimize.
  cbn [LogicalFilter.expressions].
  remember (LogicalFilter.mk [BoundFunctionExpression return_type f [a; b]] projection_map)
    as fab.
  remember (LogicalFilter.mk [BoundFunctionExpression return_type f [b; a]] projection_map)
    as fba.
  assert (Hst :
            fst (TryOptimizeGet (RewriteState.mk (LOGICAL_GET get gc) (Some fab)) None
                   (BoundFunctionExpression return_type f [a; b])) =
            fst (TryOptimizeGet (RewriteState.mk (LOGICAL_GET get gc) (Some fba)) None
                   (BoundFunctionExpression return_type f [b; a])) /\
            RewriteState.get_ptr
              (snd (TryOptimizeGet (RewriteState.mk (LOGICAL_GET get gc) (Some fab)) None
                      (BoundFunctionExpression return_type f [a; b]))) =
            RewriteState.get_ptr
              (snd (TryOptimizeGet (RewriteState.mk (LOGICAL_GET get gc) (Some fba)) None
                      (BoundFunctionExpression return_type f [b; a])))).
  { rewrite Hext.
    assert (Hpm : LogicalFilter.projection_map fab = LogicalFilter.projection_map fba)
      by (subst; reflexivity).
    clear Heqfab Heqfba Hext.
    unfold TryOptimizeGet. cbn [RewriteState.get_ptr RewriteState.filter].
    unfold remap_filter. rewrite Hpm.
    repeat break_match; simpl in *; try discriminate; split; congruence. }
  destruct Hst as [H1 H2]. cbn [fst snd children_of]. rewrite H1, H2. auto.
Qed.

(** ** The projection map of the parent filter *)

(** X8: when a filter over a scan with pushed-down filters is rewritten,
    the scan stops projecting ([projection_ids] is cleared, its column ids
    are kept) and the projection map of the parent filter is re-expressed
    accordingly: each entry [id] becomes [projection_ids[id]]; with no
    projection ids in the scan the map is left alone.  The new filter between
    them has an empty projection map. *)
Theorem TryOptimize_remaps_the_projection_map :
  forall filter get gc siblings plan',
    TryOptimize (LOGICAL_FILTER filter (LOGICAL_GET get gc :: siblings)) =
      (Return true, plan') ->
    LogicalGet.table_filters get <> [] ->
    exists filter' predicates get',
      plan' = LOGICAL_FILTER filter'
                (LOGICAL_FILTER (LogicalFilter.mk predicates []) [LOGICAL_GET get' gc]
                 :: siblings) /\
      LogicalFilter.expressions filter' = LogicalFilter.expressions filter /\
      LogicalGet.projection_ids get' = [] /\
      LogicalGet.column_ids get' = LogicalGet.column_ids get /\
      match LogicalGet.projection_ids get with
      | [] => LogicalFilter.projection_map filter' = LogicalFilter.projection_map filter
      | _ :: _ =>
          Forall2 (projected_through (LogicalGet.projection_ids get))
            (LogicalFilter.projection_map filter) (LogicalFilter.projection_map filter')
      end.
Proof.
  intros filter get gc siblings plan' H Hf. unfold TryOptimize in H.
  destruct (LogicalFilter.expressions filter) as [|e [|]] eqn:Ee; try discriminate.
  destruct (TryOptimizeGet _ _ _) as [r st1] eqn:E. cbn [fst snd] in H.
  inversion H; subst r plan'. clear H.
  pose proof E as E0. apply TryOptimizeGet_true in E0.
  destruct E0 as (get' & gc' & table & bd & Hg & Hp & Hb & _ & _).
  cbn [RewriteState.get_ptr] in Hg. inversion Hg; subst get' gc'. clear Hg.
  rewrite (@TryOptimizeGet_after_match Equals ToExpression cardinality
             (RewriteState.mk (LOGICAL_GET get gc) (Some filter)) None e get gc table bd
             eq_refl Hp Hb) in E.
  destruct (LogicalGet.table_filters get) as [|entry rest]; [contradiction|].
  cbv zeta in E. cbn [RewriteState.filter] in E.
  unfold remap_filter in E.
  destruct (LogicalGet.projection_ids get) as [|p ps] eqn:Epi.
  - cbn [fst snd] in E.
    destruct (pullup_filters ToExpression get (entry :: rest)) as [predicates|];
      [|discriminate].
    inversion E; subst st1. cbn [RewriteState.filter RewriteState.get_ptr].
    exists filter, predicates, (LogicalGet.clear_projection_ids (index_scan get bd)).
    repeat split; auto.
  - destruct (remap_projection_map (p :: ps) (LogicalFilter.projection_map filter))
      as [r pm'] eqn:Er.
    cbn [fst snd] in E. destruct r as [[]|]; [|discriminate].
    destruct (pullup_filters ToExpression get (entry :: rest)) as [predicates|];
      [|discriminate].
    inversion E; subst st1. cbn [RewriteState.filter RewriteState.get_ptr].
    exists (LogicalFilter.mk (LogicalFilter.expressions filter) pm'), predicates,
      (LogicalGet.clear_projection_ids (index_scan get bd)).
    repeat split; auto.
    cbn [LogicalFilter.projection_map]. apply remap_projection_map_spec. exact Er.
Qed.

(** ** A predicate pushed into the scan *)

Lemma index_callback_for_filter_possible :
  forall table get column filter_expr index bind_data,
    index_callback table get (Some column) filter_expr index = Return (Some bind_data) ->
    exists key,
      nth_error (Index.unbound_expressions index) 0 = Some key /\
      snd (RewriteIndexExpressionForFilter key column true) = true.
Proof.
  intros table get column filter_expr index bd. unfold index_callback, vector_at.
  destruct (nth_error (Index.unbound_expressions index) 0) as [key|];
    cbn [bind]; [|discriminate].
  destruct (snd (RewriteIndexExpressionForFilter key column true)) eqn:Es.
  - intros _. exists key. auto.
  - cbn [negb]. discriminate.
Qed.

(** X9: a scan is rewritten through a predicate pushed into it only by way
    of an R-tree index whose key refers, in every column reference, to the
    column index that equals the table column of that pushed-down filter:
    the column index of the key, which counts the columns of the index, is
    compared with the column id of the filter, which counts the columns of
    the table. *)
Theorem TryOptimize_pushed_down_predicate_key_columns :
  forall get gc plan',
    TryOptimize (LOGICAL_GET get gc) = (Return true, plan') ->
    exists table column expr index key,
      LogicalGet.table get = Some table /\
      In (column, ExpressionFilter expr) (LogicalGet.table_filters get) /\
      In index (TableCatalogEntry.indexes table) /\
      Index.index_type index = RTreeIndex_TYPE_NAME /\
      nth_error (Index.unbound_expressions index) 0 = Some key /\
      Forall (fun b => ColumnBinding.column_index b = column) (column_refs key).
Proof.
  intros get gc plan' H. unfold TryOptimize in H.
  destruct (try_expression_filters _ _) as [r st1] eqn:E. cbn [fst snd] in H.
  inversion H; subst r plan'. clear H.
  apply try_expression_filters_true in E. destruct E as (column & expr & Hin & E).
  apply TryOptimizeGet_true in E.
  destruct E as (get' & gc' & table & bd & Hg & (_ & _ & Ht & _) & Hb & _).
  cbn [RewriteState.get_ptr] in Hg. inversion Hg; subst get' gc'. clear Hg.
  apply BindAndScan_some in Hb.
  destruct Hb as (before & index & after & Hl & Hty & Hc & _).
  apply index_callback_for_filter_possible in Hc. destruct Hc as (key & Hk & Hs).
  exists table, column, expr, index, key.
  split; [exact Ht|]. split; [exact Hin|].
  split; [rewrite Hl; apply in_or_app; right; left; reflexivity|].
  split; [exact Hty|]. split; [exact Hk|].
  destruct (RewriteIndexExpressionForFilter_spec column key true) as [Hspec _].
  rewrite Hspec in Hs. cbn [andb] in Hs.
  rewrite forallb_forall in Hs. apply Forall_forall. intros b Hb.
  apply Nat.eqb_eq. apply Hs. exact Hb.
Qed.

(** ** The predicates that trigger the rewrite *)








End MatcherFacts.

(* ===================================================================== *)
(** * Further facts about the index-build plan *)
(* ===================================================================== *)

Lemma LogicalCreateRTreeIndex_new_copies :
  forall scan_types column_ids expressions_p,
    LogicalCreateRTreeIndex.unbound_expressions
      (LogicalCreateRTreeIndex_new scan_types column_ids expressions_p) = expressions_p.
Proof.
  intros scan_types column_ids expressions_p. unfold LogicalCreateRTreeIndex_new.
  cbn [LogicalCreateRTreeIndex.unbound_expressions].
  assert (H : forall es acc : list Expression,
             fold_left (fun unbound expr => (unbound ++ [expr])%list) es acc =
             (acc ++ es)%list).
  { induction es as [|e es IH]; intros acc; simpl.
    - rewrite app_nil_r. reflexivity.
    - rewrite IH, <- app_assoc. reflexivity. }
  apply (H expressions_p []).
Qed.

Lemma CreatePlan_outcomes :
  forall op table_scan,
    List.length (LogicalCreateRTreeIndex.expressions op) =
    List.length (LogicalCreateRTreeIndex.unbound_expressions op) ->
    is_validation_error (CreatePlan op table_scan) \/
    exists key geom_expr,
      LogicalCreateRTreeIndex.unbound_expressions op = [key] /\
      LogicalCreateRTreeIndex.expressions op = [geom_expr] /\
      CreatePlan op table_scan = Return (index_build_plan op geom_expr table_scan).
Proof.
  intros op table_scan Hlen.
  destruct (LogicalCreateRTreeIndex.unbound_expressions op) as [|key [|key' rest]] eqn:Hu.
  - left. apply CreatePlan_rejected. rewrite Hu. left. discriminate.
  - destruct (LogicalCreateRTreeIndex.expressions op) as [|geom_expr [|]] eqn:He;
      try discriminate.
    destruct (LogicalType_eqb (Expression_return_type key) GEOMETRY) eqn:Et.
    + destruct (IsConsistent key) eqn:Ec.
      * right. exists key, geom_expr. split; [reflexivity|]. split; [reflexivity|].
        apply CreatePlan_valid with (key := key); auto.
        -- apply LogicalType_eqb_eq. exact Et.
        -- rewrite He. reflexivity.
      * left. apply CreatePlan_rejected. rewrite Hu. right. exists key. auto.
    + left. apply CreatePlan_rejected. rewrite Hu. right. exists key.
      split; [reflexivity|]. left. intros H. apply LogicalType_eqb_eq in H. congruence.
  - left. apply CreatePlan_rejected. rewrite Hu. left. discriminate.
Qed.

(** X10: the constructor keeps [unbound_expressions] and [expressions] of the
    same length (the first a copy of the second), and for every operator in
    which they have the same length [CreatePlan] fails only by validation:
    it throws a [BinderException], or it returns the index-build pipeline
    over the one key expression; the access [expressions[0]] never throws. *)
Theorem CreatePlan_fails_only_by_validation :
  (forall scan_types column_ids expressions_p,
      LogicalCreateRTreeIndex.unbound_expressions
        (LogicalCreateRTreeIndex_new scan_types column_ids expressions_p) =
      LogicalCreateRTreeIndex.expressions
        (LogicalCreateRTreeIndex_new scan_types column_ids expressions_p)) /\
  (forall op table_scan,
      List.length (LogicalCreateRTreeIndex.expressions op) =
      List.length (LogicalCreateRTreeIndex.unbound_expressions op) ->
      ~ is_internal_failure (CreatePlan op table_scan) /\
      (is_validation_error (CreatePlan op table_scan) \/
       exists key geom_expr,
         LogicalCreateRTreeIndex.unbound_expressions op = [key] /\
         LogicalCreateRTreeIndex.expressions op = [geom_expr] /\
         CreatePlan op table_scan = Return (index_build_plan op geom_expr table_scan))).
Proof.
  split.
  - intros scan_types column_ids expressions_p.
    rewrite LogicalCreateRTreeIndex_new_copies. reflexivity.
  - intros op table_scan Hlen.
    pose proof (CreatePlan_outcomes op table_scan Hlen) as H.
    split; [|exact H].
    intros (e & He & Hn).
    destruct H as [[msg Hm]|(key & geom_expr & _ & _ & Hr)].
    + rewrite Hm in He. inversion He; subst. apply (Hn msg). reflexivity.
    + rewrite Hr in He. discriminate.
Qed.

Section LegacyCreatePlan.

Variable LogicalDependencyList : Type.
Variable AddDependency :
  LogicalDependencyList -> TableCatalogEntry.t -> LogicalDependencyList.
Variable planner_CreatePlan :
  LogicalOperator -> LogicalDependencyList ->
  result PhysicalOperator * LogicalDependencyList.

Lemma LogicalCreateRTreeIndex_CreatePlan_after_planning :
  forall op table children dependencies child table_scan planned,
    vector_at children 0 = Return child ->
    planner_CreatePlan child dependencies = (Return table_scan, planned) ->
    LogicalCreateRTreeIndex_CreatePlan AddDependency planner_CreatePlan op table
      children dependencies =
    (CreatePlan op table_scan,
     match LogicalCreateRTreeIndex.unbound_expressions op with
     | [key] =>
         if LogicalType_eqb (Expression_return_type key) GEOMETRY && IsConsistent key
         then AddDependency planned table
         else planned
     | _ => planned
     end).
Proof.
  intros op table children dependencies child table_scan planned Hc Hp.
  unfold LogicalCreateRTreeIndex_CreatePlan, CreatePlan. rewrite Hc, Hp.
  destruct (LogicalCreateRTreeIndex.unbound_expressions op) as [|key [|key' rest]];
    try reflexivity.
  change (vector_at [key] 0) with (Return key).
  cbn [List.length Nat.eqb negb bind].
  destruct (LogicalType_eqb (Expression_return_type key) GEOMETRY); [|reflexivity].
  destruct (IsConsistent key); reflexivity.
Qed.

(** X11: the entry point [LogicalCreateRTreeIndex::CreatePlan] registers
    the dependency on the table of the index with the planner only once the
    key has passed validation.  After planning the table scan from its first
    child it returns or throws what [RTreeIndex::CreatePlan] does on that
    table scan; a run that ends in a validation error leaves the
    dependencies of the planner as the planning of the child left them, and
    every other run, also one that fails later on, has added the table to
    them.  Without a first child, or when the planner fails on it, nothing is
    validated and nothing is added. *)
Theorem LogicalCreateRTreeIndex_CreatePlan_registers_dependency_after_validation :
  forall op table children dependencies,
    match vector_at children 0 with
    | Throw e =>
        LogicalCreateRTreeIndex_CreatePlan AddDependency planner_CreatePlan op table
          children dependencies = (Throw e, dependencies)
    | Return child =>
        match planner_CreatePlan child dependencies with
        | (Throw e, planned) =>
            LogicalCreateRTreeIndex_CreatePlan AddDependency planner_CreatePlan op table
              children dependencies = (Throw e, planned)
        | (Return table_scan, planned) =>
            fst (LogicalCreateRTreeIndex_CreatePlan AddDependency planner_CreatePlan op
                   table children dependencies) = CreatePlan op table_scan /\
            (is_validation_error (CreatePlan op table_scan) ->
             snd (LogicalCreateRTreeIndex_CreatePlan AddDependency planner_CreatePlan op
                    table children dependencies) = planned) /\
            (~ is_validation_error (CreatePlan op table_scan) ->
             snd (LogicalCreateRTreeIndex_CreatePlan AddDependency planner_CreatePlan op
                    table children dependencies) = AddDependency planned table)
        end
    end.
Proof.
  intros op table children dependencies.
  destruct (vector_at children 0) as [child|e] eqn:Hc.
  - destruct (planner_CreatePlan child dependencies) as [[table_scan|e] planned] eqn:Hp.
    + rewrite (@LogicalCreateRTreeIndex_CreatePlan_after_planning op table children
                 dependencies child table_scan planned Hc Hp).
      cbn [fst snd]. split; [reflexivity|].
      rewrite CreatePlan_rejected. unfold rejected_by_code.
      destruct (LogicalCreateRTreeIndex.unbound_expressions op) as [|key [|key' rest]].
      * split; [reflexivity|]. intros H. exfalso. apply H. left. discriminate.
      * destruct (LogicalType_eqb (Expression_return_type key) GEOMETRY) eqn:Et;
          [destruct (IsConsistent key) eqn:Ec|]; cbn [andb].
        -- split; [|reflexivity].
           intros [H|(k & Hk & [H|H])]; [exfalso; apply H; reflexivity| |];
             inversion Hk; subst k.
           ++ exfalso. apply H. apply LogicalType_eqb_eq. exact Et.
           ++ congruence.
        -- split; [reflexivity|]. intros H. exfalso. apply H.
           right. exists key. auto.
        -- split; [reflexivity|]. intros H. exfalso. apply H.
           right. exists key. split; [reflexivity|]. left.
           intros Hg. apply LogicalType_eqb_eq in Hg. congruence.
      * split; [reflexivity|]. intros H. exfalso. apply H. left. discriminate.
    + unfold LogicalCreateRTreeIndex_CreatePlan. rewrite Hc, Hp. reflexivity.
  - unfold LogicalCreateRTreeIndex_CreatePlan. rewrite Hc. reflexivity.
Qed.

End LegacyCreatePlan.

(* ===================================================================== *)
(** * Facts about the further scalar functions *)
(* ===================================================================== *)

(** ** The order of floating-point numbers *)

Lemma SFcompare_refl :
  forall a, is_nan a = false -> SFcompare a a = Some Eq.
Proof.
  intros [s|s| |s m e]; simpl; intros H; try discriminate; try reflexivity.
  - destruct s; reflexivity.
  - rewrite Z.compare_refl, Pos.compare_cont_refl. destruct s; reflexivity.
Qed.

Lemma SFcompare_is_nan :
  forall a b,
    SFcompare a b = None <-> is_nan a = true \/ is_nan b = true.
Proof.
  intros a b. destruct a as [sa|sa| |sa ma ea], b as [sb|sb| |sb mb eb]; simpl;
    split; intros H; try discriminate; try reflexivity; auto;
    try (destruct H; discriminate).
Qed.

Lemma SFleb_trans :
  forall a b c, SFleb a b = true -> SFleb b c = true -> SFleb a c = true.
Proof.
  intros a b c. unfold SFleb.
  destruct a as [sa|sa| |sa ma ea], b as [sb|sb| |sb mb eb], c as [sc|sc| |sc mc ec];
    simpl; try discriminate; try reflexivity;
    repeat match goal with s : bool |- _ => destruct s end;
    simpl; try discriminate; try reflexivity; auto.
  all: change (Pos.compare_cont Eq) with Pos.compare.
  all: repeat match goal with
       | |- context [Z.compare ?x ?y] => destruct (Z.compare_spec x y)
       | |- context [Pos.compare ?x ?y] => destruct (Pos.compare_spec x y)
       end; simpl; try discriminate; try reflexivity; intros; try lia.
Qed.

Lemma double_gt_lt :
  forall a b, double_gt a b = double_lt b a.
Proof.
  intros a b. unfold double_gt, double_lt, SFltb.
  destruct (SFcompare a b) as [c|] eqn:E.
  - apply SFcompare_antisym in E. rewrite E. destruct c; reflexivity.
  - apply SFcompare_is_nan in E.
    assert (E' : SFcompare b a = None) by (apply SFcompare_is_nan; tauto).
    rewrite E'. reflexivity.
Qed.

Lemma double_lt_le :
  forall a b, double_lt a b = true -> SFleb a b = true.
Proof.
  intros a b. unfold double_lt, SFltb, SFleb.
  destruct (SFcompare a b) as [[| |]|]; auto.
Qed.

Lemma not_double_lt_le :
  forall a b,
    is_nan a = false -> is_nan b = false -> double_lt b a = false -> SFleb a b = true.
Proof.
  intros a b Ha Hb. unfold double_lt, SFltb, SFleb.
  destruct (SFcompare b a) as [c|] eqn:E.
  - apply SFcompare_antisym in E. rewrite E. destruct c; simpl; auto.
  - apply SFcompare_is_nan in E. destruct E; congruence.
Qed.

Lemma SFleb_not_double_lt :
  forall a b, SFleb a b = true -> double_lt b a = false.
Proof.
  intros a b. unfold double_lt, SFltb, SFleb.
  destruct (SFcompare a b) as [c|] eqn:E; [|discriminate].
  apply SFcompare_antisym in E. rewrite E. destruct c; simpl; auto; discriminate.
Qed.

Lemma SFleb_refl :
  forall a, is_nan a = false -> SFleb a a = true.
Proof.
  intros a H. unfold SFleb. rewrite (SFcompare_refl a H). reflexivity.
Qed.

Lemma double_lt_is_nan :
  forall a b, double_lt a b = true -> is_nan a = false /\ is_nan b = false.
Proof.
  intros a b. unfold double_lt, SFltb.
  destruct a, b; simpl; intros H; try discriminate; auto.
Qed.

(** ** ST_Intersects on boxes *)

(** X12: [ST_Intersects(BOX_2D, BOX_2D)] is symmetric in its two boxes, NULL
    exactly when one of them is NULL, and a box intersects itself unless
    its maximum is below its minimum on some axis; in particular a box with
    NaN coordinates intersects itself. *)
Theorem ST_Intersects_ExecuteBox_symmetric :
  (forall box1 box2,
      ST_Intersects.ExecuteBox box1 box2 = ST_Intersects.ExecuteBox box2 box1) /\
  (forall box1 box2,
      ST_Intersects.ExecuteBox box1 box2 = None <-> box1 = None \/ box2 = None) /\
  (forall box,
      ST_Intersects.ExecuteBox (Some box) (Some box) =
      Some (negb (double_lt (StructTypeQuaternary.c_val box)
                            (StructTypeQuaternary.a_val box)
                  || double_lt (StructTypeQuaternary.d_val box)
                               (StructTypeQuaternary.b_val box)))).
Proof.
  split; [|split].
  - intros [[a b c d]|] [[a' b' c' d']|]; simpl; try reflexivity.
    rewrite !double_gt_lt. f_equal. f_equal.
    destruct (double_lt c' a), (double_lt c a'), (double_lt d' b), (double_lt d b');
      reflexivity.
  - intros [box1|] [box2|]; simpl; split; intros H; try discriminate; auto;
      destruct H; discriminate.
  - intros [a b c d]. simpl. rewrite !double_gt_lt. f_equal. f_equal.
    destruct (double_lt c a), (double_lt d b); reflexivity.
Qed.

(** ** The minimum and maximum of the vertices *)

Lemma fold_std_min_lower_bound :
  forall values acc,
    is_nan acc = false ->
    is_nan (fold_left std_min values acc) = false /\
    SFleb (fold_left std_min values acc) acc = true /\
    forall v, In v values -> is_nan v = false ->
              SFleb (fold_left std_min values acc) v = true.
Proof.
  induction values as [|v values IH]; intros acc Hacc; simpl.
  - split; [exact Hacc|]. split; [apply SFleb_refl; exact Hacc|]. contradiction.
  - unfold std_min at 2 4 6. destruct (double_lt v acc) eqn:E.
    + destruct (double_lt_is_nan _ _ E) as [Hv _].
      destruct (IH v Hv) as (Hn & Hle & Hall).
      split; [exact Hn|]. split.
      * eapply SFleb_trans; [exact Hle|]. apply double_lt_le. exact E.
      * intros w [<-|Hin] Hw; [exact Hle|]. apply Hall; assumption.
    + destruct (IH acc Hacc) as (Hn & Hle & Hall).
      split; [exact Hn|]. split; [exact Hle|].
      intros w [<-|Hin] Hw; [|apply Hall; assumption].
      eapply SFleb_trans; [exact Hle|]. apply not_double_lt_le; assumption.
Qed.

Lemma fold_std_max_upper_bound :
  forall values acc,
    is_nan acc = false ->
    is_nan (fold_left std_max values acc) = false /\
    SFleb acc (fold_left std_max values acc) = true /\
    forall v, In v values -> is_nan v = false ->
              SFleb v (fold_left std_max values acc) = true.
Proof.
  induction values as [|v values IH]; intros acc Hacc; simpl.
  - split; [exact Hacc|]. split; [apply SFleb_refl; exact Hacc|]. contradiction.
  - unfold std_max at 2 4 6. destruct (double_lt acc v) eqn:E.
    + destruct (double_lt_is_nan _ _ E) as [_ Hv].
      destruct (IH v Hv) as (Hn & Hle & Hall).
      split; [exact Hn|]. split.
      * eapply SFleb_trans; [|exact Hle]. apply double_lt_le. exact E.
      * intros w [<-|Hin] Hw; [exact Hle|]. apply Hall; assumption.
    + destruct (IH acc Hacc) as (Hn & Hle & Hall).
      split; [exact Hn|]. split; [exact Hle|].
      intros w [<-|Hin] Hw; [|apply Hall; assumption].
      eapply SFleb_trans; [|exact Hle]. apply not_double_lt_le; assumption.
Qed.

Lemma fold_std_min_all_nan :
  forall values acc,
    Forall (fun v => is_nan v = true) values -> fold_left std_min values acc = acc.
Proof.
  intros values acc H. revert acc. induction H as [|v values Hv _ IH]; intros acc; simpl.
  - reflexivity.
  - destruct v; try discriminate. unfold std_min at 2, double_lt, SFltb.
    destruct acc; simpl; apply IH.
Qed.

Lemma fold_std_max_all_nan :
  forall values acc,
    Forall (fun v => is_nan v = true) values -> fold_left std_max values acc = acc.
Proof.
  intros values acc H. revert acc. induction H as [|v values Hv _ IH]; intros acc; simpl.
  - reflexivity.
  - destruct v; try discriminate. unfold std_max at 2, double_lt, SFltb.
    destruct acc; simpl; apply IH.
Qed.

Lemma aggregate_map :
  forall ORDINATE AGG vertices,
    VertexAggFunctionBase.aggregate ORDINATE AGG vertices =
    fold_left (AggOp.Merge AGG) (map (VertexAggFunctionBase.ordinate ORDINATE) vertices)
      (AggOp.Init AGG).
Proof.
  intros ORDINATE AGG vertices. unfold VertexAggFunctionBase.aggregate.
  generalize (AggOp.Init AGG) as acc.
  induction vertices as [|v vertices IH]; intros acc; simpl.
  - reflexivity.
  - apply IH.
Qed.

(** X13: on a [LINESTRING_2D] the minimum and the maximum of an ordinate are
    NULL exactly for a NULL or empty line.  Otherwise they are numbers, the
    minimum is below or equal to every ordinate of the line that is a number
    and the maximum above or equal to it, so that the minimum does not
    exceed the maximum as soon as one ordinate is a number; on a line whose
    ordinates are all NaN they are the initial values, the largest and the
    smallest double. *)
Theorem VertexAgg_ExecuteLineString_bounds :
  forall ORDINATE line,
    (VertexAggFunctionBase.ExecuteLineString ORDINATE VertexMinAggOp line = None <->
     line = None \/ line = Some []) /\
    (VertexAggFunctionBase.ExecuteLineString ORDINATE VertexMaxAggOp line = None <->
     line = None \/ line = Some []) /\
    (forall vertices lo hi,
        line = Some vertices ->
        VertexAggFunctionBase.ExecuteLineString ORDINATE VertexMinAggOp line = Some lo ->
        VertexAggFunctionBase.ExecuteLineString ORDINATE VertexMaxAggOp line = Some hi ->
        is_nan lo = false /\ is_nan hi = false /\
        (forall v, In v vertices ->
                   is_nan (VertexAggFunctionBase.ordinate ORDINATE v) = false ->
                   SFleb lo (VertexAggFunctionBase.ordinate ORDINATE v) = true /\
                   SFleb (VertexAggFunctionBase.ordinate ORDINATE v) hi = true) /\
        ((exists v, In v vertices /\
                    is_nan (VertexAggFunctionBase.ordinate ORDINATE v) = false) ->
         SFleb lo hi = true) /\
        ((forall v, In v vertices ->
                    is_nan (VertexAggFunctionBase.ordinate ORDINATE v) = true) ->
         lo = DBL_MAX /\ hi = DBL_LOWEST)).
Proof.
  intros ORDINATE line. split; [|split].
  - destruct line as [[|v vs]|]; simpl; split; intros H; try discriminate; auto.
    destruct H as [H|H]; discriminate.
  - destruct line as [[|v vs]|]; simpl; split; intros H; try discriminate; auto.
    destruct H as [H|H]; discriminate.
  - intros vertices lo hi -> Hlo Hhi.
    destruct vertices as [|v0 vs]; [discriminate|].
    cbn [VertexAggFunctionBase.ExecuteLineString List.length Nat.eqb] in Hlo, Hhi.
    inversion Hlo as [Elo]. inversion Hhi as [Ehi]. clear Hlo Hhi.
    subst lo hi. rewrite !aggregate_map.
    set (values := map (VertexAggFunctionBase.ordinate ORDINATE) (v0 :: vs)) in *.
    cbn [AggOp.Merge AggOp.Init VertexMinAggOp VertexMaxAggOp] in *.
    destruct (@fold_std_min_lower_bound values DBL_MAX eq_refl) as (Hn1 & _ & Hall1).
    destruct (@fold_std_max_upper_bound values DBL_LOWEST eq_refl) as (Hn2 & _ & Hall2).
    split; [exact Hn1|]. split; [exact Hn2|].
    assert (Hboth : forall v, In v (v0 :: vs) ->
                is_nan (VertexAggFunctionBase.ordinate ORDINATE v) = false ->
                SFleb (fold_left std_min values DBL_MAX)
                  (VertexAggFunctionBase.ordinate ORDINATE v) = true /\
                SFleb (VertexAggFunctionBase.ordinate ORDINATE v)
                  (fold_left std_max values DBL_LOWEST) = true).
    { intros v Hin Hv. split.
      - apply Hall1; [|exact Hv]. unfold values. apply in_map. exact Hin.
      - apply Hall2; [|exact Hv]. unfold values. apply in_map. exact Hin. }
    split; [exact Hboth|]. split.
    + intros (v & Hin & Hv). destruct (Hboth v Hin Hv) as [H1 H2].
      eapply SFleb_trans; eassumption.
    + intros Hall.
      assert (Hnan : Forall (fun v => is_nan v = true) values).
      { unfold values. apply Forall_forall. intros x Hx.
        apply in_map_iff in Hx. destruct Hx as (v & <- & Hin). apply Hall. exact Hin. }
      split.
      * apply fold_std_min_all_nan. exact Hnan.
      * apply fold_std_max_all_nan. exact Hnan.
Qed.

Lemma std_min_absorbs :
  forall values acc v,
    is_nan acc = false -> In v values ->
    std_min (fold_left std_min values acc) v = fold_left std_min values acc.
Proof.
  intros values acc v Hacc Hin. unfold std_min at 1.
  destruct (is_nan v) eqn:Hv.
  - destruct v; try discriminate. unfold double_lt, SFltb. reflexivity.
  - destruct (@fold_std_min_lower_bound values acc Hacc) as (_ & _ & Hall).
    rewrite (SFleb_not_double_lt _ _ (Hall v Hin Hv)). reflexivity.
Qed.

Lemma std_max_absorbs :
  forall values acc v,
    is_nan acc = false -> In v values ->
    std_max (fold_left std_max values acc) v = fold_left std_max values acc.
Proof.
  intros values acc v Hacc Hin. unfold std_max at 1.
  destruct (is_nan v) eqn:Hv.
  - destruct v; try discriminate. unfold double_lt, SFltb.
    destruct (fold_left std_max values acc); reflexivity.
  - destruct (@fold_std_max_upper_bound values acc Hacc) as (_ & _ & Hall).
    rewrite (SFleb_not_double_lt _ _ (Hall v Hin Hv)). reflexivity.
Qed.

(** X14: on a [POLYGON_2D] only the shell counts and its last vertex is
    skipped.  For a shell that is closed (its last vertex repeats the first)
    and has at least two vertices this is the minimum (maximum) over all
    vertices of the shell, as for the line string of the shell; a shell of a
    single vertex yields the initial value of the aggregate, the largest
    (smallest) double, and a polygon without rings or with an empty shell
    yields NULL. *)
Theorem VertexAgg_ExecutePolygon_closed_shell :
  forall ORDINATE AGG,
    AGG = VertexMinAggOp \/ AGG = VertexMaxAggOp ->
    (forall first rest holes,
        rest <> [] -> last rest first = first ->
        VertexAggFunctionBase.ExecutePolygon ORDINATE AGG
          (Some ((first :: rest) :: holes)) =
        VertexAggFunctionBase.ExecuteLineString ORDINATE AGG (Some (first :: rest))) /\
    (forall only holes,
        VertexAggFunctionBase.ExecutePolygon ORDINATE AGG (Some ([only] :: holes)) =
        Some (AggOp.Init AGG)) /\
    (forall holes,
        VertexAggFunctionBase.ExecutePolygon ORDINATE AGG (Some ([] :: holes)) = None) /\
    VertexAggFunctionBase.ExecutePolygon ORDINATE AGG (Some []) = None /\
    VertexAggFunctionBase.ExecutePolygon ORDINATE AGG None = None.
Proof.
  intros ORDINATE AGG HAGG. split; [|repeat split].
  intros first rest holes Hrest Hclosed.
  unfold VertexAggFunctionBase.ExecutePolygon, VertexAggFunctionBase.ExecuteLineString.
  cbn [List.length Nat.eqb]. f_equal.
  pose proof (@app_removelast_last _ rest first Hrest) as Hsplit.
  rewrite Hclosed in Hsplit.
  assert (Hfirstn : firstn (S (List.length rest) - 1) (first :: rest) =
                    first :: removelast rest).
  { rewrite Hsplit at 2. rewrite Hsplit at 1.
    rewrite length_app. cbn [List.length].
    replace (S (List.length (removelast rest) + 1) - 1)
      with (List.length (first :: removelast rest)) by (cbn [List.length]; lia).
    change (first :: removelast rest ++ [first])%list
      with ((first :: removelast rest) ++ [first])%list.
    rewrite firstn_app, firstn_all, Nat.sub_diag. cbn [firstn].
    apply app_nil_r. }
  rewrite Hfirstn.
  rewrite Hsplit at 2.
  change (first :: removelast rest ++ [first])%list
    with ((first :: removelast rest) ++ [first])%list.
  rewrite !aggregate_map, map_app, fold_left_app. cbn [map fold_left].
  set (values := map (VertexAggFunctionBase.ordinate ORDINATE) (removelast rest)).
  destruct HAGG as [-> | ->]; cbn [AggOp.Merge AggOp.Init VertexMinAggOp VertexMaxAggOp].
  - symmetry.
    apply (@std_min_absorbs
             (VertexAggFunctionBase.ordinate ORDINATE first :: values) DBL_MAX
             (VertexAggFunctionBase.ordinate ORDINATE first) eq_refl).
    left. reflexivity.
  - symmetry.
    apply (@std_max_absorbs
             (VertexAggFunctionBase.ordinate ORDINATE first :: values) DBL_LOWEST
             (VertexAggFunctionBase.ordinate ORDINATE first) eq_refl).
    left. reflexivity.
Qed.

(* ===================================================================== *)
(** * ST_QuadKey *)
(* ===================================================================== *)

Lemma store_spec (buffer : list ascii) (k : nat) (c : ascii) :
  k < List.length buffer ->
  exists buffer',
    ST_QuadKey.store buffer k c = Some buffer' /\
    List.length buffer' = List.length buffer /\
    nth_error buffer' k = Some c /\
    forall j, j <> k -> nth_error buffer' j = nth_error buffer j.
Proof.
  revert k. induction buffer as [|b rest IH]; intros k Hk; simpl in Hk; [lia|].
  destruct k as [|k].
  - exists (c :: rest). simpl. repeat split.
    intros [|j] Hj; [congruence | reflexivity].
  - destruct (IH k ltac:(lia)) as (rest' & Hs & Hl & Hn & Ho).
    exists (b :: rest'). simpl. rewrite Hs. repeat split; auto.
    intros [|j] Hj; simpl; [reflexivity | apply Ho; congruence].
Qed.

(** The loop of [GetQuadKey] stays inside a buffer that has room for
    [level] characters; it writes the digit of [level - k] at position [k]
    and leaves the other positions alone. *)
Lemma write_digits_spec (i : nat) (x y level : Z) :
  forall buffer,
  (Z.of_nat i <= level)%Z -> (level <= Z.of_nat (List.length buffer))%Z ->
  exists buffer',
    ST_QuadKey.write_digits i x y level buffer = Some buffer' /\
    List.length buffer' = List.length buffer /\
    (forall k, (level - Z.of_nat i <= Z.of_nat k < level)%Z ->
               nth_error buffer' k = Some (ST_QuadKey.digit x y (level - Z.of_nat k))) /\
    (forall k, ~ (level - Z.of_nat i <= Z.of_nat k < level)%Z ->
               nth_error buffer' k = nth_error buffer k).
Proof.
  induction i as [|i IH]; intros buffer Hi Hl.
  - exists buffer. simpl. repeat split; auto. intros k Hk. lia.
  - cbn [ST_QuadKey.write_digits].
    destruct (Z.ltb_spec (level - Z.of_nat (S i)) 0) as [Hneg|_]; [lia|].
    destruct (@store_spec buffer (Z.to_nat (level - Z.of_nat (S i)))
                (ST_QuadKey.digit x y (Z.of_nat (S i))) ltac:(lia))
      as (b1 & Hs & Hl1 & Hn1 & Ho1).
    rewrite Hs.
    destruct (IH b1 ltac:(lia) ltac:(lia)) as (b2 & Hw & Hl2 & Hn2 & Ho2).
    exists b2. repeat split; [exact Hw | congruence | |].
    + intros k Hk.
      destruct (Z.eq_dec (Z.of_nat k) (level - Z.of_nat (S i))) as [E|E].
      * rewrite Ho2 by lia.
        replace k with (Z.to_nat (level - Z.of_nat (S i))) by lia.
        rewrite Hn1. f_equal. f_equal. lia.
      * apply Hn2. lia.
    + intros k Hk. rewrite Ho2 by lia. apply Ho1. lia.
Qed.

Lemma digit_is_quaternary (x y i : Z) :
  In (ST_QuadKey.digit x y i) ["0"; "1"; "2"; "3"]%char.
Proof.
  unfold ST_QuadKey.digit.
  destruct (Z.land x (Z.shiftl 1 (i - 1)) =? 0)%Z,
           (Z.land y (Z.shiftl 1 (i - 1)) =? 0)%Z; simpl; auto.
Qed.

Lemma land_mask_testbit (x n : Z) :
  (0 <= n)%Z ->
  (Z.land x (Z.shiftl 1 n) =? 0)%Z = negb (Z.testbit x n).
Proof.
  intros Hn. rewrite Z.shiftl_1_l.
  destruct (Z.testbit x n) eqn:Hb; simpl.
  - apply Z.eqb_neq. intros H0.
    assert (Ht : Z.testbit (Z.land x (2 ^ n)) n = true).
    { rewrite Z.land_spec, Hb, Z.pow2_bits_true by lia. reflexivity. }
    rewrite H0, Z.bits_0 in Ht. discriminate.
  - apply Z.eqb_eq. apply Z.bits_inj'. intros m Hm.
    rewrite Z.land_spec, Z.bits_0, Z.pow2_bits_eqb by lia.
    destruct (Z.eqb_spec n m) as [->|_]; [rewrite Hb; reflexivity|].
    apply andb_false_r.
Qed.

Lemma digit_testbit (x y i : Z) :
  (1 <= i)%Z ->
  ST_QuadKey.digit x y i =
  match Z.testbit x (i - 1), Z.testbit y (i - 1) with
  | false, false => "0"
  | true, false => "1"
  | false, true => "2"
  | true, true => "3"
  end%char.
Proof.
  intros Hi. unfold ST_QuadKey.digit.
  rewrite !land_mask_testbit by lia.
  destruct (Z.testbit x (i - 1)), (Z.testbit y (i - 1)); reflexivity.
Qed.

Lemma digit_eq_iff (x y x' y' i : Z) :
  (1 <= i)%Z ->
  ST_QuadKey.digit x y i = ST_QuadKey.digit x' y' i <->
  Z.testbit x (i - 1) = Z.testbit x' (i - 1) /\
  Z.testbit y (i - 1) = Z.testbit y' (i - 1).
Proof.
  intros Hi. rewrite !digit_testbit by lia.
  destruct (Z.testbit x (i - 1)), (Z.testbit y (i - 1)),
           (Z.testbit x' (i - 1)), (Z.testbit y' (i - 1));
    split; try discriminate; auto; intros [? ?]; discriminate.
Qed.

Lemma mod_pow2_eq_iff (a b n : Z) :
  (0 <= n)%Z ->
  (a mod 2 ^ n = b mod 2 ^ n)%Z <->
  forall m, (0 <= m < n)%Z -> Z.testbit a m = Z.testbit b m.
Proof.
  intros Hn. split.
  - intros H m Hm.
    rewrite <- (Z.mod_pow2_bits_low a n m), <- (Z.mod_pow2_bits_low b n m) by lia.
    rewrite H. reflexivity.
  - intros H. apply Z.bits_inj'. intros m Hm.
    destruct (Z.lt_ge_cases m n) as [Hlt|Hge].
    + rewrite !Z.mod_pow2_bits_low by lia. apply H. lia.
    + rewrite !Z.mod_pow2_bits_high by lia. reflexivity.
Qed.

Lemma nth_error_firstn_lt (A : Type) (n k : nat) (l : list A) :
  nth_error (firstn n l) k = if Nat.ltb k n then nth_error l k else None.
Proof.
  revert k l. induction n as [|n IH]; intros k l.
  - simpl. destruct k; reflexivity.
  - destruct l as [|a l]; simpl.
    + destruct k; simpl; [reflexivity|]. destruct (Nat.ltb (S k) (S n)); reflexivity.
    + destruct k as [|k]; simpl; [reflexivity|].
      rewrite IH. reflexivity.
Qed.

(** The key that the loop leaves in the first [level] characters. *)
Lemma write_digits_key (x y level : Z) (buffer buffer' : list ascii) :
  (0 <= level <= Z.of_nat (List.length buffer))%Z ->
  ST_QuadKey.write_digits (Z.to_nat level) x y level buffer = Some buffer' ->
  List.length (firstn (Z.to_nat level) buffer') = Z.to_nat level /\
  forall k, k < Z.to_nat level ->
            nth_error (firstn (Z.to_nat level) buffer') k =
            Some (ST_QuadKey.digit x y (level - Z.of_nat k)).
Proof.
  intros Hl Hw.
  destruct (@write_digits_spec (Z.to_nat level) x y level buffer ltac:(lia) ltac:(lia))
    as (b & Hb & Hlen & Hn & _).
  rewrite Hw in Hb. inversion Hb; subst b. split.
  - rewrite length_firstn. lia.
  - intros k Hk. rewrite nth_error_firstn_lt.
    destruct (Nat.ltb_spec k (Z.to_nat level)); [|lia].
    apply Hn. lia.
Qed.

Lemma list_eq_by_nth_error (A : Type) (n : nat) (l l' : list A) :
  List.length l = n -> List.length l' = n ->
  (forall k, k < n -> nth_error l k = nth_error l' k) ->
  l = l'.
Proof.
  intros Hl Hl' H. apply nth_error_ext. intros k.
  destruct (Nat.lt_ge_cases k n) as [Hk|Hk]; [auto|].
  rewrite (proj2 (nth_error_None l k)), (proj2 (nth_error_None l' k)) by lia.
  reflexivity.
Qed.

(** X16: the characters that the loop of [GetQuadKey] writes are a faithful
    code of the tile: two tiles get the same key of [level] characters
    exactly when their columns and their rows agree in the low [level] bits.
    Bits of [x] and [y] from [level] upwards are not looked at. *)
Theorem GetQuadKey_key_identifies_the_tile
    (x y x' y' level : Z) (buffer key key' : list ascii) :
  (0 <= level <= Z.of_nat (List.length buffer))%Z ->
  ST_QuadKey.write_digits (Z.to_nat level) x y level buffer = Some key ->
  ST_QuadKey.write_digits (Z.to_nat level) x' y' level buffer = Some key' ->
  firstn (Z.to_nat level) key = firstn (Z.to_nat level) key' <->
  (x mod 2 ^ level = x' mod 2 ^ level /\ y mod 2 ^ level = y' mod 2 ^ level)%Z.
Proof.
  intros Hl Hw Hw'.
  destruct (@write_digits_key x y level buffer key Hl Hw) as [Hlen Hn].
  destruct (@write_digits_key x' y' level buffer key' Hl Hw') as [Hlen' Hn'].
  rewrite !mod_pow2_eq_iff by lia. split.
  - intros Heq.
    assert (Hd : forall m, (0 <= m < level)%Z ->
                 ST_QuadKey.digit x y (m + 1) = ST_QuadKey.digit x' y' (m + 1)).
    { intros m Hm.
      pose proof (Hn (Z.to_nat (level - 1 - m)) ltac:(lia)) as H1.
      pose proof (Hn' (Z.to_nat (level - 1 - m)) ltac:(lia)) as H2.
      rewrite Heq, H2 in H1.
      replace (level - Z.of_nat (Z.to_nat (level - 1 - m)))%Z with (m + 1)%Z in H1 by lia.
      congruence. }
    split; intros m Hm; specialize (Hd m Hm);
      apply digit_eq_iff in Hd; try lia;
      replace (m + 1 - 1)%Z with m in Hd by lia; tauto.
  - intros [Hx Hy].
    apply (@list_eq_by_nth_error _ (Z.to_nat level)); auto.
    intros k Hk. rewrite Hn, Hn' by assumption. f_equal.
    apply digit_eq_iff; [lia|]. split; [apply Hx | apply Hy]; lia.
Qed.

(** X17: quadkeys are hierarchical: the key of a tile at [level] starts with
    the key, at [level - 1], of the tile that contains it (column [x / 2],
    row [y / 2]). *)
Theorem GetQuadKey_key_extends_the_parent_key
    (x y level : Z) (buffer key parent : list ascii) :
  (1 <= level <= Z.of_nat (List.length buffer))%Z ->
  ST_QuadKey.write_digits (Z.to_nat level) x y level buffer = Some key ->
  ST_QuadKey.write_digits (Z.to_nat (level - 1)) (x / 2) (y / 2) (level - 1) buffer
    = Some parent ->
  firstn (Z.to_nat (level - 1)) key = firstn (Z.to_nat (level - 1)) parent /\
  exists last, firstn (Z.to_nat level) key = (firstn (Z.to_nat (level - 1)) parent ++ [last])%list /\
               last = ST_QuadKey.digit x y 1.
Proof.
  intros Hl Hw Hp.
  destruct (@write_digits_key x y level buffer key ltac:(lia) Hw) as [Hlen Hn].
  destruct (@write_digits_key (x / 2) (y / 2) (level - 1) buffer parent ltac:(lia) Hp)
    as [Hlen' Hn'].
  assert (Hprefix : firstn (Z.to_nat (level - 1)) key
                    = firstn (Z.to_nat (level - 1)) parent).
  { apply (@list_eq_by_nth_error _ (Z.to_nat (level - 1))); auto.
    - rewrite length_firstn.
      assert (Hk : List.length (firstn (Z.to_nat level) key) <= List.length key)
        by (rewrite length_firstn; lia).
      lia.
    - intros k Hk.
      rewrite Hn' by assumption.
      pose proof (Hn k ltac:(lia)) as H1.
      rewrite nth_error_firstn_lt in H1 |- *.
      destruct (Nat.ltb_spec k (Z.to_nat level)); [|lia].
      destruct (Nat.ltb_spec k (Z.to_nat (level - 1))); [|lia].
      rewrite H1. f_equal.
      rewrite !digit_testbit by lia.
      rewrite <- !Z.div2_div, !Z.div2_spec, !Z.shiftr_spec by lia.
      replace (level - 1 - Z.of_nat k - 1 + 1)%Z with (level - Z.of_nat k - 1)%Z by lia.
      reflexivity. }
  split; [exact Hprefix|].
  exists (ST_QuadKey.digit x y 1). split; [|reflexivity].
  apply (@list_eq_by_nth_error _ (Z.to_nat level)); auto.
  - rewrite length_app, Hlen'. simpl. lia.
  - intros k Hk. rewrite Hn by assumption.
    destruct (Nat.lt_ge_cases k (Z.to_nat (level - 1))) as [Hlt|Hge].
    + rewrite nth_error_app1 by lia.
      rewrite <- Hprefix, nth_error_firstn_lt.
      destruct (Nat.ltb_spec k (Z.to_nat (level - 1))); [|lia].
      pose proof (Hn k Hk) as H1. rewrite nth_error_firstn_lt in H1.
      destruct (Nat.ltb_spec k (Z.to_nat level)); [|lia].
      symmetry. exact H1.
    + rewrite nth_error_app2 by lia.
      replace (k - List.length (firstn (Z.to_nat (level - 1)) parent)) with 0 by lia.
      simpl. f_equal. f_equal. lia.
Qed.

Lemma write_digits_east_edge (i : nat) (y level : Z) :
  forall buffer,
  (Z.of_nat i <= level)%Z ->
  ST_QuadKey.write_digits i (2 ^ level) y level buffer =
  ST_QuadKey.write_digits i 0 y level buffer.
Proof.
  induction i as [|i IH]; intros buffer Hi; [reflexivity|].
  cbn [ST_QuadKey.write_digits].
  assert (Hd : ST_QuadKey.digit (2 ^ level) y (Z.of_nat (S i))
               = ST_QuadKey.digit 0 y (Z.of_nat (S i))).
  { apply digit_eq_iff; [lia|]. split; [|reflexivity].
    rewrite Z.bits_0, Z.pow2_bits_false by lia. reflexivity. }
  rewrite Hd.
  destruct (Z.ltb (level - Z.of_nat (S i)) 0); [reflexivity|].
  destruct (ST_QuadKey.store _ _ _); [|reflexivity].
  apply IH. lia.
Qed.

Lemma tile_column_east (level : Z) :
  (0 <= level <= 30)%Z ->
  double_to_int32
    (double_mul (double_div (double_add (double_lit 180 0) (double_lit 180 0))
                   (double_lit 360 0))
       (int32_to_double (Z.shiftl 1 level))) = Some (2 ^ level)%Z.
Proof.
  intros Hl.
  assert (Hn : Z.to_nat level <= 30) by lia.
  replace level with (Z.of_nat (Z.to_nat level)) by lia.
  revert Hn. generalize (Z.to_nat level). intros n Hn.
  do 31 (destruct n as [|n]; [vm_compute; reflexivity|]).
  lia.
Qed.

Lemma tile_column_west (level : Z) :
  (0 <= level <= 30)%Z ->
  double_to_int32
    (double_mul (double_div (double_add (double_lit (-180) 0) (double_lit 180 0))
                   (double_lit 360 0))
       (int32_to_double (Z.shiftl 1 level))) = Some 0%Z.
Proof.
  intros Hl.
  assert (Hn : Z.to_nat level <= 30) by lia.
  replace level with (Z.of_nat (Z.to_nat level)) by lia.
  revert Hn. generalize (Z.to_nat level). intros n Hn.
  do 31 (destruct n as [|n]; [vm_compute; reflexivity|]).
  lia.
Qed.

Section QuadKeyFacts.

Variable latitude_row : float64 -> Z -> float64.

(** X18: a longitude that is not below 180 degrees (180 itself, anything
    larger, infinity, and also NaN) is clamped to 180, whose column
    [2 ^ level] has no bit among the [level] low ones: the point gets the
    key of the westernmost column, the one of longitude -180. *)
Theorem GetQuadKey_east_edge_wraps_to_the_west
    (lon lat : float64) (level : Z) (buffer : list ascii) :
  double_lt lon (double_lit 180 0) = false ->
  ST_QuadKey.GetQuadKey latitude_row lon lat level buffer =
  ST_QuadKey.GetQuadKey latitude_row (double_lit (-180) 0) lat level buffer.
Proof.
  intros Hlon. unfold ST_QuadKey.GetQuadKey.
  unfold int32_shl1.
  destruct (Z.leb_spec 0 level) as [H0|H0]; [|reflexivity].
  destruct (Z.leb_spec level 30) as [H30|H30]; [|reflexivity].
  cbn [andb].
  assert (Hc : std_max (double_lit (-180) 0) (std_min (double_lit 180 0) lon)
               = double_lit 180 0).
  { unfold std_min. rewrite Hlon. vm_compute. reflexivity. }
  assert (Hw : std_max (double_lit (-180) 0)
                 (std_min (double_lit 180 0) (double_lit (-180) 0))
               = double_lit (-180) 0) by (vm_compute; reflexivity).
  rewrite Hc, Hw.
  rewrite tile_column_east, tile_column_west by lia.
  destruct (double_to_int32 _) as [y|]; [|reflexivity].
  apply write_digits_east_edge. lia.
Qed.

(** X15: [ST_QuadKey(lon, lat, level)] on a row without NULL.  It throws
    exactly when the level is outside 1..23; otherwise the key has exactly
    [level] characters, each one of 0, 1, 2, 3, it does not depend on what
    the uninitialised buffer held, and no character is written outside the
    buffer; the one way to leave defined behaviour is a column or a row that
    does not fit [int32_t]. *)
Theorem ST_QuadKey_ExecuteLonLat_key_shape
    (buffer : list ascii) (lon lat : float64) (level : Z) :
  List.length buffer = 64 ->
  match ST_QuadKey.ExecuteLonLat latitude_row buffer (Some lon) (Some lat) (Some level) with
  | QuadKey_InvalidInputException _ => (level < 1 \/ 23 < level)%Z
  | QuadKey_string key =>
      (1 <= level <= 23)%Z /\
      List.length key = Z.to_nat level /\
      Forall (fun c => In c ["0"; "1"; "2"; "3"]%char) key /\
      forall buffer', List.length buffer' = 64 ->
        ST_QuadKey.ExecuteLonLat latitude_row buffer' (Some lon) (Some lat) (Some level)
        = QuadKey_string key
  | QuadKey_undefined =>
      (1 <= level <= 23)%Z /\
      let lat' := std_max (double_lit (- 5984941123141376) (-46))
                    (std_min (double_lit 5984941123141376 (-46)) lat) in
      let lon' := std_max (double_lit (- 180) 0) (std_min (double_lit 180 0) lon) in
      double_to_int32
        (double_mul (double_div (double_add lon' (double_lit 180 0)) (double_lit 360 0))
           (int32_to_double (Z.shiftl 1 level))) = None \/
      double_to_int32 (latitude_row lat' level) = None
  | QuadKey_NULL => False
  end.
Proof.
  intros Hlen. unfold ST_QuadKey.ExecuteLonLat.
  destruct (Z.ltb_spec level 1) as [H1|H1]; [simpl; lia|].
  destruct (Z.ltb_spec 23 level) as [H23|H23]; [simpl; lia|].
  cbn [orb].
  destruct (ST_QuadKey.GetQuadKey latitude_row lon lat level buffer) as [b'|] eqn:Hg.
  - split; [lia|].
    unfold ST_QuadKey.GetQuadKey, int32_shl1 in Hg.
    destruct (Z.leb_spec 0 level); [|lia]. destruct (Z.leb_spec level 30); [|lia].
    cbn [andb] in Hg.
    destruct (double_to_int32 (double_mul _ _)) as [x|] eqn:Hx; [|discriminate].
    destruct (double_to_int32 (latitude_row _ _)) as [y|] eqn:Hy; [|discriminate].
    destruct (@write_digits_key x y level buffer b' ltac:(lia) Hg) as [Hl Hn].
    split; [exact Hl|]. split.
    + apply Forall_forall. intros c Hc.
      apply In_nth_error in Hc. destruct Hc as [k Hk].
      assert (Hlt : k < Z.to_nat level).
      { rewrite <- Hl. apply nth_error_Some. congruence. }
      rewrite Hn in Hk by assumption. inversion Hk. apply digit_is_quaternary.
    + intros buffer' Hlen'.
      unfold ST_QuadKey.GetQuadKey, int32_shl1.
      destruct (Z.leb_spec 0 level); [|lia]. destruct (Z.leb_spec level 30); [|lia].
      cbn [andb]. rewrite Hx, Hy.
      destruct (@write_digits_spec (Z.to_nat level) x y level buffer' ltac:(lia) ltac:(lia))
        as (b2 & Hw2 & _).
      rewrite Hw2. f_equal.
      destruct (@write_digits_key x y level buffer' b2 ltac:(lia) Hw2) as [Hl2 Hn2].
      apply (@list_eq_by_nth_error _ (Z.to_nat level)); auto.
      intros k Hk. rewrite Hn, Hn2 by assumption. reflexivity.
  - split; [lia|].
    unfold ST_QuadKey.GetQuadKey, int32_shl1 in Hg.
    destruct (Z.leb_spec 0 level); [|lia]. destruct (Z.leb_spec level 30); [|lia].
    cbn [andb] in Hg. cbv zeta.
    destruct (double_to_int32 (double_mul _ _)) as [x|] eqn:Hx; [|left; reflexivity].
    destruct (double_to_int32 (latitude_row _ _)) as [y|] eqn:Hy; [|right; reflexivity].
    destruct (@write_digits_spec (Z.to_nat level) x y level buffer ltac:(lia) ltac:(lia))
      as (b0 & Hw0 & _).
    congruence.
Qed.

End QuadKeyFacts.

(* ===================================================================== *)
(** * The further facts on sample data *)
(* ===================================================================== *)

(** X1 at [Projection -> Filter(ST_Intersects(geom, query)) -> Scan(u)],
    where [u] has an ART index only. *)
Lemma OptimizeRecursive_leaves_ineligible_scans_alone_witness :
  OptimizeRecursive Expression_eqb Sample.ToExpression Sample.cardinality 3
    Fixtures.plan_over_u = Some (Return tt, Fixtures.plan_over_u).
Proof.
  destruct (@OptimizeRecursive_leaves_ineligible_scans_alone Expression_eqb
              Sample.ToExpression Sample.cardinality 3 Fixtures.plan_over_u
              (proj1 (Nat.leb_le (height Fixtures.plan_over_u) 3) eq_refl) eq_refl)
    as (r & Hrun & _ & Hleaves).
  rewrite Hrun, (Hleaves eq_refl). reflexivity.
Defined.

(** X2 at [Filter(ST_Intersects(geom, query)) -> Scan(t)] with [price > 10]
    pushed into the scan. *)
Lemma TryOptimize_does_not_match_its_own_result_witness :
  TryOptimize Expression_eqb Sample.ToExpression Sample.cardinality
    (snd (TryOptimize Expression_eqb Sample.ToExpression Sample.cardinality
            (Sample.filter_over_scan Sample.query [Sample.price_gt_10]))) =
  (Return false,
   snd (TryOptimize Expression_eqb Sample.ToExpression Sample.cardinality
          (Sample.filter_over_scan Sample.query [Sample.price_gt_10]))).
Proof.
  apply (@TryOptimize_does_not_match_its_own_result Expression_eqb
           Sample.ToExpression Sample.cardinality
           (Sample.filter_over_scan Sample.query [Sample.price_gt_10])).
  vm_compute. reflexivity.
Defined.

(** X3 at [Projection -> Filter(ST_Intersects(geom, query)) -> Scan(t)]. *)
Lemma Optimize_is_idempotent_witness :
  exists plan',
    Optimize Expression_eqb Sample.ToExpression Sample.cardinality 3
      Fixtures.plan_over_t = Some (Return tt, plan') /\
    plan' <> Fixtures.plan_over_t /\
    no_match Expression_eqb Sample.ToExpression Sample.cardinality plan' = true /\
    Optimize Expression_eqb Sample.ToExpression Sample.cardinality 4 plan' =
    Some (Return tt, plan').
Proof.
  eexists. split; [vm_compute; reflexivity|]. split; [discriminate|].
  apply (@Optimize_is_idempotent Expression_eqb Sample.ToExpression
           Sample.cardinality 3 Fixtures.plan_over_t).
  - reflexivity.
  - vm_compute. reflexivity.
  - apply Nat.leb_le. vm_compute. reflexivity.
Defined.

(** X6 at a table whose index list holds an ART index and then the R-tree
    index. *)
Lemma BindAndScan_binds_first_matching_index_witness :
  exists before index after value,
    TableCatalogEntry.indexes Fixtures.v = (before ++ index :: after)%list /\
    Index.index_type index = RTreeIndex_TYPE_NAME /\
    Forall (fun i => Index.index_type i = RTreeIndex_TYPE_NAME ->
                     index_callback Expression_eqb Fixtures.v Fixtures.scan_v None
                       (Sample.intersects Sample.query) i = Return None) before /\
    Fixtures.v = Fixtures.v /\
    Sample.rtree_index = index /\
    In (BoundConstantExpression value) (operands (Sample.intersects Sample.query)) /\
    TryGetBoundingBox value = Some Sample.query_box.
Proof.
  apply (@BindAndScan_binds_first_matching_index Expression_eqb Fixtures.v
           Fixtures.scan_v None (Sample.intersects Sample.query)
           (RTreeIndexScanBindData.mk Fixtures.v Sample.rtree_index Sample.query_box)).
  vm_compute. reflexivity.
Defined.

(** X7 at [Filter(ST_Intersects(query, geom)) -> Scan(t)]: the constant
    comes first and the scan is rewritten all the same. *)
Lemma TryOptimizeGet_matches_operands_in_either_order_witness :
  fst (TryOptimize Expression_eqb Sample.ToExpression Sample.cardinality
         (predicate_over_scan BOOLEAN Sample.ST_Intersects
            [BoundConstantExpression Sample.query; Sample.geom_ref] []
            (Sample.scan []) [] [])) = Return true /\
  children_of
    (snd (TryOptimize Expression_eqb Sample.ToExpression Sample.cardinality
            (predicate_over_scan BOOLEAN Sample.ST_Intersects
               [BoundConstantExpression Sample.query; Sample.geom_ref] []
               (Sample.scan []) [] []))) =
  [LOGICAL_GET (index_scan Sample.cardinality (Sample.scan []) Sample.bind_data) []].
Proof.
  destruct (@TryOptimizeGet_matches_operands_in_either_order Expression_eqb
              Sample.ToExpression Sample.cardinality
              (RewriteState.mk (LOGICAL_GET (Sample.scan []) []) None) None BOOLEAN
              Sample.ST_Intersects Sample.geom_ref
              (BoundConstantExpression Sample.query)) as [_ Hplan].
  - intros va vb Ha. discriminate Ha.
  - destruct (Hplan [] (Sample.scan []) [] []) as [Hfst Hsnd].
    rewrite <- Hfst, <- Hsnd. split; vm_compute; reflexivity.
Defined.

(** X8 at a filter with projection map [0; 1] over a scan with projection
    ids [1; 0]: the map becomes [1; 0]. *)
Lemma TryOptimize_remaps_the_projection_map_witness :
  exists filter' predicates get',
    snd (TryOptimize Expression_eqb Sample.ToExpression Sample.cardinality
           (LOGICAL_FILTER Fixtures.projecting_filter
              [LOGICAL_GET Fixtures.projecting_scan []])) =
    LOGICAL_FILTER filter'
      [LOGICAL_FILTER (LogicalFilter.mk predicates []) [LOGICAL_GET get' []]] /\
    LogicalFilter.expressions filter' = [Sample.intersects Sample.query] /\
    LogicalGet.projection_ids get' = [] /\
    LogicalGet.column_ids get' = [1; 2] /\
    Forall2 (projected_through [1; 0]) [0; 1] (LogicalFilter.projection_map filter').
Proof.
  apply (@TryOptimize_remaps_the_projection_map Expression_eqb Sample.ToExpression
           Sample.cardinality Fixtures.projecting_filter Fixtures.projecting_scan
           [] []).
  - vm_compute. reflexivity.
  - discriminate.
Defined.

(** X9 at a scan of [g] with [ST_Intersects(geom, query)] pushed into it on
    table column 0, the column index of the key. *)
Lemma TryOptimize_pushed_down_predicate_key_columns_witness :
  exists table column expr index key,
    LogicalGet.table Fixtures.scan_g = Some table /\
    In (column, ExpressionFilter expr) (LogicalGet.table_filters Fixtures.scan_g) /\
    In index (TableCatalogEntry.indexes table) /\
    Index.index_type index = RTreeIndex_TYPE_NAME /\
    nth_error (Index.unbound_expressions index) 0 = Some key /\
    Forall (fun b => ColumnBinding.column_index b = column) (column_refs key).
Proof.
  eapply (@TryOptimize_pushed_down_predicate_key_columns Expression_eqb
            Sample.ToExpression Sample.cardinality Fixtures.scan_g []).
  vm_compute. reflexivity.
Defined.

(** X14 at a closed triangle: the polygon and the line string of its shell
    have the same minimum of [x]. *)
Lemma VertexAgg_ExecutePolygon_closed_shell_witness :
  VertexAggFunctionBase.ExecutePolygon VertexOrdinate.X VertexMinAggOp
    (Some [Fixtures.triangle]) =
  VertexAggFunctionBase.ExecuteLineString VertexOrdinate.X VertexMinAggOp
    (Some Fixtures.triangle).
Proof.
  apply (proj1 (@VertexAgg_ExecutePolygon_closed_shell VertexOrdinate.X
                  VertexMinAggOp (or_introl eq_refl))).
  - discriminate.
  - reflexivity.
Defined.

(** X15 at longitude 0 on the equator, level 3: the key is [300]. *)
Lemma ST_QuadKey_ExecuteLonLat_key_shape_witness :
  List.length ["3"; "0"; "0"]%char = 3 /\
  Forall (fun c => In c ["0"; "1"; "2"; "3"]%char) ["3"; "0"; "0"]%char /\
  forall buffer', List.length buffer' = 64 ->
    ST_QuadKey.ExecuteLonLat Fixtures.latitude_row buffer'
      (Some (double_lit 0 0)) (Some (double_lit 0 0)) (Some 3%Z)
    = QuadKey_string ["3"; "0"; "0"]%char.
Proof.
  pose proof (@ST_QuadKey_ExecuteLonLat_key_shape Fixtures.latitude_row
                Fixtures.buffer (double_lit 0 0) (double_lit 0 0) 3 eq_refl) as H.
  assert (E : ST_QuadKey.ExecuteLonLat Fixtures.latitude_row Fixtures.buffer
                (Some (double_lit 0 0)) (Some (double_lit 0 0)) (Some 3%Z)
              = QuadKey_string ["3"; "0"; "0"]%char) by (vm_compute; reflexivity).
  rewrite E in H. destruct H as (_ & Hlen & Hdigits & Hbuffer).
  split; [exact Hlen|]. split; [exact Hdigits|exact Hbuffer].
Defined.

(** X16 at level 3: the tiles (5, 3) and (13, 11) get the same key. *)
Lemma GetQuadKey_key_identifies_the_tile_witness :
  exists key key',
    ST_QuadKey.write_digits 3 5 3 3 Fixtures.buffer = Some key /\
    ST_QuadKey.write_digits 3 13 11 3 Fixtures.buffer = Some key' /\
    firstn 3 key = firstn 3 key'.
Proof.
  eexists. eexists. split; [vm_compute; reflexivity|].
  split; [vm_compute; reflexivity|].
  apply (proj2 (@GetQuadKey_key_identifies_the_tile 5 3 13 11 3 Fixtures.buffer _ _
                  (conj (proj1 (Z.leb_le 0 3) eq_refl) (proj1 (Z.leb_le 3 64) eq_refl))
                  eq_refl eq_refl)).
  split; reflexivity.
Defined.

(** X17 at the tile (5, 3) of level 3 and its parent (2, 1) of level 2. *)
Lemma GetQuadKey_key_extends_the_parent_key_witness :
  exists key parent,
    ST_QuadKey.write_digits 3 5 3 3 Fixtures.buffer = Some key /\
    ST_QuadKey.write_digits 2 2 1 2 Fixtures.buffer = Some parent /\
    firstn 2 key = firstn 2 parent /\
    exists last, firstn 3 key = (firstn 2 parent ++ [last])%list /\
                 last = ST_QuadKey.digit 5 3 1.
Proof.
  eexists. eexists. split; [vm_compute; reflexivity|].
  split; [vm_compute; reflexivity|].
  apply (@GetQuadKey_key_extends_the_parent_key 5 3 3 Fixtures.buffer _ _
           (conj (proj1 (Z.leb_le 1 3) eq_refl) (proj1 (Z.leb_le 3 64) eq_refl))
           eq_refl eq_refl).
Defined.

(** X18 at longitude 200: the key is the one of longitude -180. *)
Lemma GetQuadKey_east_edge_wraps_to_the_west_witness :
  ST_QuadKey.GetQuadKey Fixtures.latitude_row (double_lit 200 0) (double_lit 0 0) 3
    Fixtures.buffer =
  ST_QuadKey.GetQuadKey Fixtures.latitude_row (double_lit (-180) 0) (double_lit 0 0) 3
    Fixtures.buffer.
Proof.
  apply (@GetQuadKey_east_edge_wraps_to_the_west Fixtures.latitude_row
           (double_lit 200 0) (double_lit 0 0) 3 Fixtures.buffer).
  reflexivity.
Defined.

(* ===================================================================== *)
(** * The traversal, the predicates and the entry point on sample data *)
(* ===================================================================== *)


(** C7 at [Union(Filter(ST_Intersects(geom, query)) -> Scan(t),
    Projection -> Filter(ST_Area(geom)) -> Scan(t))]: the root does not
    match; its first child matches and is replaced by what [TryOptimize]
    makes of it; its second child holds no match and stays as it is. *)
Lemma OptimizeRecursive_stops_at_match_and_frames_witness :
  exists plan',
    OptimizeRecursive Expression_eqb Sample.ToExpression Sample.cardinality 4
      Fixtures.union_plan = Some (Return tt, plan') /\
    subtree_at [0] plan' =
      Some (snd (TryOptimize Expression_eqb Sample.ToExpression Sample.cardinality
                   (Sample.filter_over_scan Sample.query [Sample.price_gt_10]))) /\
    subtree_at [0] plan' <>
      Some (Sample.filter_over_scan Sample.query [Sample.price_gt_10]) /\
    subtree_at [1] plan' = Some Sample.no_spatial_predicate.
Proof.
  destruct (@OptimizeRecursive_stops_at_match_and_frames Expression_eqb
              Sample.ToExpression Sample.cardinality 4 Fixtures.union_plan
              (proj1 (Nat.leb_le (height Fixtures.union_plan) 4) eq_refl))
    as (_ & _ & r & plan' & Hrun & Hpath).
  assert (Hr : r = Return tt).
  { vm_compute in Hrun. inversion Hrun. reflexivity. }
  subst r. specialize (Hpath eq_refl).
  assert (H0 : subtree_at [0] plan' =
               Some (snd (TryOptimize Expression_eqb Sample.ToExpression
                            Sample.cardinality
                            (Sample.filter_over_scan Sample.query
                               [Sample.price_gt_10])))).
  { apply (proj1 (Hpath [0] (Sample.filter_over_scan Sample.query [Sample.price_gt_10])
                    eq_refl eq_refl)).
    vm_compute. reflexivity. }
  exists plan'. split; [exact Hrun|]. split; [exact H0|]. split.
  - rewrite H0. intros Hx. vm_compute in Hx. discriminate Hx.
  - apply (proj2 (Hpath [1] Sample.no_spatial_predicate eq_refl eq_refl)).
    vm_compute. reflexivity.
Defined.


(** X11 at one geometry key, which passes validation, and at two keys, which
    do not: the table is added to the dependencies in the first case only. *)
Lemma LogicalCreateRTreeIndex_CreatePlan_registers_dependency_after_validation_witness :
  LogicalCreateRTreeIndex_CreatePlan Fixtures.AddDependency Fixtures.planner_CreatePlan
    (Sample.create_index [Sample.key_expr]) Sample.t [LOGICAL_GET (Sample.scan []) []] []
  = (Return Sample.build_plan, [Sample.t]) /\
  snd (LogicalCreateRTreeIndex_CreatePlan Fixtures.AddDependency
         Fixtures.planner_CreatePlan
         (Sample.create_index [Sample.key_expr; Sample.key_expr]) Sample.t
         [LOGICAL_GET (Sample.scan []) []] []) = [].
Proof.
  split.
  - pose proof (@LogicalCreateRTreeIndex_CreatePlan_registers_dependency_after_validation
                  _ Fixtures.AddDependency Fixtures.planner_CreatePlan
                  (Sample.create_index [Sample.key_expr]) Sample.t
                  [LOGICAL_GET (Sample.scan []) []] []) as H.
    cbn [vector_at nth_error Fixtures.planner_CreatePlan] in H.
    destruct H as (Hfst & _ & Hsnd).
    rewrite (surjective_pairing
               (LogicalCreateRTreeIndex_CreatePlan Fixtures.AddDependency
                  Fixtures.planner_CreatePlan (Sample.create_index [Sample.key_expr])
                  Sample.t [LOGICAL_GET (Sample.scan []) []] [])).
    rewrite Hfst, Hsnd.
    + reflexivity.
    + intros [msg Hmsg]. discriminate Hmsg.
  - pose proof (@LogicalCreateRTreeIndex_CreatePlan_registers_dependency_after_validation
                  _ Fixtures.AddDependency Fixtures.planner_CreatePlan
                  (Sample.create_index [Sample.key_expr; Sample.key_expr]) Sample.t
                  [LOGICAL_GET (Sample.scan []) []] []) as H.
    cbn [vector_at nth_error Fixtures.planner_CreatePlan] in H.
    destruct H as (_ & Hsnd & _).
    apply Hsnd. eexists. reflexivity.
Defined.
